(** * DL24M electronic load driver: protocol model and verification

    A shallow embedding of [src/instruments/dl24m.py].  The driver talks to
    the instrument over a serial link through a pyvisa [SerialInstrument];
    every method of the Python class [DL24M] is transcribed below as a
    function in a state-and-exception monad over the driver object. *)

From Stdlib Require Import ZArith Floats Uint63 Lia Ascii.
From stdpp Require Import base strings gmap list.

Open Scope Z_scope.

(** ** Python values, exceptions and control flow *)

Module Py.

(** The exception classes the driver can meet. *)
Inductive exn :=
| ValueError | IndexError | KeyError | OverflowError
| AttributeError | NameError | TypeError | ZeroDivisionError | VisaIOError.

#[global] Instance exn_eq_dec : EqDecision exn.
Proof. solve_decision. Defined.

(** [True] for the classes derived from [Exception] (all of the above);
    used by [except Exception as inst] and by the bare [except:]. *)
Definition is_Exception (e : exn) : bool := true.

(** The dynamically typed values that flow through the driver: results of
    [getVal], entries of [self.data], payloads and requested set points. *)
Inductive pyval :=
| PNone
| PBool (b : bool)
| PInt (z : Z)
| PFloat (f : float)
| PTime (hh mm ss : Z)          (* datetime.time(hh, mm, ss) *)
| PBytes (bs : list Z)          (* bytes / bytearray *)
| PStr (s : string).

(** Result of running a piece of Python code: it returns, it raises, or it
    is still running when the step budget of the model is used up. *)
Inductive outcome (A : Type) :=
| Ret (a : A)
| Raise (e : exn)
| Diverge.
Arguments Ret {A} a.
Arguments Raise {A} e.
Arguments Diverge {A}.

(** Code acting on a mutable object of type [S]; the object is returned in
    every case, since mutations made before an exception persist. *)
Definition prog (S A : Type) : Type := S -> outcome A * S.

Definition ret {S A} (a : A) : prog S A := fun s => (Ret a, s).
Definition raise {S A} (e : exn) : prog S A := fun s => (Raise e, s).
Definition diverge {S A} : prog S A := fun s => (Diverge, s).

Definition bind {S A B} (c : prog S A) (k : A -> prog S B) : prog S B :=
  fun s =>
    match c s with
    | (Ret a, s') => k a s'
    | (Raise e, s') => (Raise e, s')
    | (Diverge, s') => (Diverge, s')
    end.

(** [try: body except <classes matched by handles>: handler]. *)
Definition try_except {S A} (body : prog S A) (handles : exn -> bool)
    (handler : exn -> prog S A) : prog S A :=
  fun s =>
    match body s with
    | (Raise e, s') => if handles e then handler e s' else (Raise e, s')
    | r => r
    end.

(** A pure computation that may raise. *)
Definition lift {S A} (o : outcome A) : prog S A := fun s => (o, s).

Definition get {S} : prog S S := fun s => (Ret s, s).
Definition modify {S} (f : S -> S) : prog S unit := fun s => (Ret tt, f s).

(** [for x in xs: body x]. *)
Fixpoint for_each {S A} (xs : list A) (body : A -> prog S unit) : prog S unit :=
  match xs with
  | [] => ret tt
  | x :: xs' => bind (body x) (fun _ => for_each xs' body)
  end.

Declare Scope py_scope.
Delimit Scope py_scope with py.
Notation "'let*' x ':=' c 'in' k" := (bind c (fun x => k))
  (at level 10, x name, c at level 100, k at level 200) : py_scope.
Notation "'do*' c 'in' k" := (bind c (fun _ => k))
  (at level 10, c at level 100, k at level 200) : py_scope.

(** *** Sequences *)

(** [xs[i]] on a list or bytes object: negative indices count from the end,
    anything out of range raises [IndexError]. *)
Definition getitem {A} (xs : list A) (i : Z) : outcome A :=
  let n := Z.of_nat (length xs) in
  let j := if i <? 0 then i + n else i in
  if (j <? 0) || (n <=? j) then Raise IndexError
  else match xs !! Z.to_nat j with
       | Some x => Ret x
       | None => Raise IndexError
       end.

(** [bs.index(x)]: position of the first occurrence, [ValueError] if none. *)
Fixpoint index (bs : list Z) (x : Z) : outcome Z :=
  match bs with
  | [] => Raise ValueError
  | b :: bs' =>
      if b =? x then Ret 0
      else match index bs' x with
           | Ret i => Ret (i + 1)
           | r => r
           end
  end.

(** [bs[i:]] for [0 <= i]. *)
Definition slice_from (bs : list Z) (i : Z) : list Z := drop (Z.to_nat i) bs.

(** [bs[3:6]]-style slice for [0 <= i <= j]. *)
Definition slice (bs : list Z) (i j : Z) : list Z :=
  take (Z.to_nat (j - i)) (drop (Z.to_nat i) bs).

(** [int.from_bytes(bs, byteorder='big')]. *)
Definition int_from_bytes_big (bs : list Z) : Z :=
  fold_left (fun acc b => acc * 256 + b) bs 0.

(** [n.to_bytes(2, byteorder='big')]: [OverflowError] for a negative [n] or
    one that does not fit in two bytes. *)
Definition int_to_bytes2_big (n : Z) : outcome (list Z) :=
  if (n <? 0) || (65535 <? n) then Raise OverflowError
  else Ret [n / 256; n mod 256].

(** [bytearray(xs)]: every element must be in [range(256)]. *)
Definition is_byte (b : Z) : bool := (0 <=? b) && (b <? 256).
Definition bytearray (xs : list Z) : outcome (list Z) :=
  if forallb is_byte xs then Ret xs else Raise ValueError.

(** *** Floats (IEEE 754 binary64, as CPython's [float]) *)

(** Exact conversion of an [int] small enough to be a binary64 integer. *)
Definition float_of_Z (z : Z) : float :=
  if z <? 0 then PrimFloat.opp (PrimFloat.of_uint63 (Uint63.of_Z (- z)))
  else PrimFloat.of_uint63 (Uint63.of_Z z).

(** [int(x)]: truncation toward zero; [ValueError] on NaN, [OverflowError]
    on an infinity. *)
Definition int_of_float (x : float) : outcome Z :=
  match Prim2SF x with
  | S754_zero _ => Ret 0
  | S754_finite s m e =>
      let a := if 0 <=? e then Z.pos m * 2 ^ e else Z.pos m / 2 ^ (- e) in
      Ret (if s then - a else a)
  | S754_infinity _ => Raise OverflowError
  | S754_nan => Raise ValueError
  end.

(** [round(x)] with one argument: nearest integer, ties to even. *)
Definition round_float (x : float) : outcome Z :=
  match Prim2SF x with
  | S754_zero _ => Ret 0
  | S754_finite s m e =>
      let a :=
        if 0 <=? e then Z.pos m * 2 ^ e
        else
          let d := 2 ^ (- e) in
          let q := Z.pos m / d in
          let r := Z.pos m mod d in
          match 2 * r ?= d with
          | Lt => q
          | Gt => q + 1
          | Eq => if Z.even q then q else q + 1
          end in
      Ret (if s then - a else a)
  | S754_infinity _ => Raise OverflowError
  | S754_nan => Raise ValueError
  end.

(** [math.modf(x)]: fractional and integer parts, both floats carrying the
    sign of [x]. *)
Definition modf (x : float) : float * float :=
  match Prim2SF x with
  | S754_nan => (x, x)
  | S754_infinity s => ((if s then PrimFloat.neg_zero else PrimFloat.zero), x)
  | S754_zero _ => (x, x)
  | S754_finite s m e =>
      if 0 <=? e then ((if s then PrimFloat.neg_zero else PrimFloat.zero), x)
      else
        let a := Z.pos m / 2 ^ (- e) in
        let i := float_of_Z (if s then - a else a) in
        let i := if s && (a =? 0) then PrimFloat.neg_zero else i in
        (PrimFloat.sub x i, i)
  end.

(** [x == n] for a float and an int compares the exact values. *)
Definition float_eq_Z (x : float) (n : Z) : bool :=
  match Prim2SF x with
  | S754_zero _ => n =? 0
  | S754_finite s m e =>
      let v := if s then Z.neg m else Z.pos m in
      if 0 <=? e then n =? v * 2 ^ e else n * 2 ^ (- e) =? v
  | _ => false
  end.

(** [a == b]. Booleans are the integers 0 and 1; values of unrelated types
    are unequal. *)
Definition py_eq (a b : pyval) : bool :=
  let num (v : pyval) : option (Z + float) :=
    match v with
    | PBool b => Some (inl (Z.b2z b))
    | PInt z => Some (inl z)
    | PFloat f => Some (inr f)
    | _ => None
    end in
  match num a, num b with
  | Some (inl x), Some (inl y) => x =? y
  | Some (inr x), Some (inr y) => PrimFloat.eqb x y
  | Some (inr x), Some (inl y) => float_eq_Z x y
  | Some (inl x), Some (inr y) => float_eq_Z y x
  | _, _ =>
      match a, b with
      | PNone, PNone => true
      | PTime h m s, PTime h' m' s' => (h =? h') && (m =? m') && (s =? s')
      | PBytes x, PBytes y => bool_decide (x = y)
      | PStr x, PStr y => bool_decide (x = y)
      | _, _ => false
      end
  end.

(** Truth value of an object, as tested by [if], [not] and [and]. *)
Definition truthy (v : pyval) : bool :=
  match v with
  | PNone => false
  | PBool b => b
  | PInt z => negb (z =? 0)
  | PFloat f => negb (PrimFloat.eqb f PrimFloat.zero)
  | PTime _ _ _ => true
  | PBytes bs => negb (bool_decide (bs = []))
  | PStr s => negb (bool_decide (s = EmptyString))
  end.

(** [v is False]. *)
Definition is_False (v : pyval) : bool :=
  match v with PBool false => true | _ => false end.

(** [datetime.time(hh, mm, ss)]: [ValueError] outside 0..23, 0..59, 0..59. *)
Definition time (hh mm ss : Z) : outcome pyval :=
  if (0 <=? hh) && (hh <? 24) && (0 <=? mm) && (mm <? 60)
     && (0 <=? ss) && (ss <? 60)
  then Ret (PTime hh mm ss) else Raise ValueError.

(** [n / mult] (true division) for an int [n] below 2^53 and a scale that
    is an int or a float: both operands convert exactly to binary64. *)
Definition truediv_int (n : Z) (mult : pyval) : outcome float :=
  let div (k : float) :=
    if PrimFloat.eqb k PrimFloat.zero then Raise ZeroDivisionError
    else Ret (PrimFloat.div (float_of_Z n) k) in
  match mult with
  | PInt k => div (float_of_Z k)
  | PFloat k => div k
  | PBool b => div (float_of_Z (Z.b2z b))
  | _ => Raise TypeError
  end.

End Py.

Import Py.
Open Scope py_scope.


(** ** The serial transport (pyvisa [SerialInstrument])

    The transport is a collaborator outside the repository; the driver uses
    its [write_raw], [read_bytes], [bytes_in_buffer] and the attributes that
    configure the line.  The model is a half-duplex link: every frame
    written is logged and the instrument's answer is queued on the inbound
    side; a read takes bytes from the front of the queue. *)

Module Visa.

Inductive StopBits := StopBits_one | StopBits_one_and_a_half | StopBits_two.
Inductive Parity := Parity_none | Parity_odd | Parity_even | Parity_mark | Parity_space.
Inductive ControlFlow := ControlFlow_none | ControlFlow_xon_xoff | ControlFlow_rts_cts | ControlFlow_dtr_dsr.

Record Settings := {
  timeout : Z;
  baud_rate : Z;
  data_bits : Z;
  stop_bits : StopBits;
  parity : Parity;
  flow_control : ControlFlow;
}.

Record SerialInstrument := {
  (** [false] once the session is closed or the link is lost: every
      operation then raises. *)
  session_open : bool;
  (** What a read does when the timeout expires before [count] bytes have
      arrived: [false], it raises (pyvisa); [true], it returns the bytes it
      has, possibly none (the interface of section 6 of the specification). *)
  short_reads : bool;
  (** The instrument's answer to a frame written to it. *)
  reply : list Z -> list Z;
  settings : Settings;
  (** Bytes received and not yet read, oldest first. *)
  inbuf : list Z;
  (** Frames written so far, oldest first. *)
  written : list (list Z);
}.

Definition set_io (d : SerialInstrument) (i : list Z) (w : list (list Z)) :=
  {| session_open := session_open d; short_reads := short_reads d;
     reply := reply d; settings := settings d; inbuf := i; written := w |}.

Definition set_settings (d : SerialInstrument) (s : Settings) :=
  {| session_open := session_open d; short_reads := short_reads d;
     reply := reply d; settings := s; inbuf := inbuf d; written := written d |}.

(** [device.write_raw(frame)]. *)
Definition write_raw (frame : list Z) : prog SerialInstrument unit :=
  fun d =>
    if session_open d
    then (Ret tt, set_io d (inbuf d ++ reply d frame) (written d ++ [frame]))
    else (Raise VisaIOError, d).

(** [device.read_bytes(count)]. *)
Definition read_bytes (count : nat) : prog SerialInstrument (list Z) :=
  fun d =>
    if negb (session_open d) then (Raise VisaIOError, d)
    else if bool_decide (count <= length (inbuf d))%nat
    then (Ret (take count (inbuf d)), set_io d (drop count (inbuf d)) (written d))
    else if short_reads d
    then (Ret (inbuf d), set_io d [] (written d))
    else (Raise VisaIOError, set_io d [] (written d)).

(** [device.bytes_in_buffer]. *)
Definition bytes_in_buffer : prog SerialInstrument nat :=
  fun d =>
    if session_open d then (Ret (length (inbuf d)), d)
    else (Raise VisaIOError, d).

(** Assignment to one of the line attributes. *)
Definition set_attr (f : Settings -> Settings) : prog SerialInstrument unit :=
  fun d =>
    if session_open d then (Ret tt, set_settings d (f (settings d)))
    else (Raise VisaIOError, d).

End Visa.

Import Visa.

(** ** The instrument interface

    The base class [Instrument] lives in instruments/instrument.py, which
    this development does not cover.  The driver uses only the five command
    identifiers it declares; they are strings (the driver concatenates one
    to a message) and are taken as parameters. *)

Class Instrument := {
  COMMAND_ENABLE : string;
  COMMAND_SET_VOLTAGE : string;
  COMMAND_SET_CURRENT : string;
  COMMAND_SET_TIMER : string;
  COMMAND_RESET : string;
}.

(** ** The driver: class [DL24M] *)

(** A dict display [{k1: v1, ..., kn: vn}]: a later duplicate key overrides
    an earlier one. *)
Definition dict {K V} `{Countable K} (kvs : list (K * V)) : gmap K V :=
  fold_left (fun m kv => <[kv.1 := kv.2]> m) kvs ∅.

(** [d[k]]. *)
Definition dict_get {S K V} `{Countable K} (d : gmap K V) (k : K) : prog S V :=
  match d !! k with
  | Some v => ret v
  | None => raise KeyError
  end.

(** Short-circuit [or] and [and]. *)
Definition por {S} (a b : prog S bool) : prog S bool :=
  let* x := a in if x then ret true else b.
Definition pand {S} (a b : prog S bool) : prog S bool :=
  let* x := a in if x then b else ret false.

(** [len(v)] and [v[i]] on the value returned by [writeFunction]. *)
Definition py_len {S} (v : pyval) : prog S Z :=
  match v with
  | PBytes bs => ret (Z.of_nat (length bs))
  | PStr s => ret (Z.of_nat (String.length s))
  | _ => raise TypeError
  end.
Definition py_item {S} (v : pyval) (i : Z) : prog S pyval :=
  match v with
  | PBytes bs => let* b := lift (getitem bs i) in ret (PInt b)
  | PStr s => let* c := lift (getitem (String.list_ascii_of_string s) i) in
              ret (PStr (String c EmptyString))
  | _ => raise TypeError
  end.

Definition ISON : Z := 0x10.
Definition VOLTAGE : Z := 0x11.
Definition CURRENT : Z := 0x12.
Definition TIME : Z := 0x13.
Definition CAP_AH : Z := 0x14.
Definition CAP_WH : Z := 0x15.
Definition TEMP : Z := 0x16.
Definition LIM_CURR : Z := 0x17.
Definition LIM_VOLT : Z := 0x18.
Definition TIMER : Z := 0x19.
Definition CLEARDATA : Z := 0x20.

Definition OUTPUT_ON : Z := 0x01.
Definition SETCURR : Z := 0x02.
Definition SETVCUT : Z := 0x03.
Definition SETTMR : Z := 0x04.
Definition RESETCNT : Z := 0x05.
Definition SETMODE : Z := 0x06.
Definition UNKNOW : Z := 0x07.

Definition ENABLED : Z := 0x0100.
Definition DISABLED : Z := 0x0000.

Definition MUL : gmap Z pyval :=
  dict [ (ISON, PInt 1);
         (VOLTAGE, PFloat 1000);
         (CURRENT, PFloat 1000);
         (CAP_AH, PFloat 1000);
         (CAP_WH, PFloat 1000);
         (TEMP, PInt 1);
         (LIM_CURR, PFloat 100);
         (LIM_VOLT, PFloat 100) ].

Definition KEY_CMDS : gmap string Z :=
  dict [ ("is_on", ISON);
         ("voltage", VOLTAGE);
         ("current", CURRENT);
         ("time", TIME);
         ("cap_ah", CAP_AH);
         ("cap_wh", CAP_WH);
         ("temp", TEMP);
         ("set_current", LIM_CURR);
         ("set_voltage", LIM_VOLT);
         ("set_timer", TIMER) ]%string.

Definition FREQ_VALS : list string :=
  [ "is_on"; "voltage"; "current"; "time"; "cap_ah" ]%string.

Definition AUX_VALS : list string :=
  [ "cap_wh"; "temp"; "set_current"; "set_voltage"; "set_timer" ]%string.

(** The driver object: [self.device], [self.aux_index], [self.data]. *)
Record DL24M := {
  device : SerialInstrument;
  aux_index : Z;
  data : gmap string pyval;
}.

Definition set_device (self : DL24M) (d : SerialInstrument) : DL24M :=
  {| device := d; aux_index := aux_index self; data := data self |}.
Definition set_aux_index (self : DL24M) (i : Z) : DL24M :=
  {| device := device self; aux_index := i; data := data self |}.
Definition set_data (self : DL24M) (m : gmap string pyval) : DL24M :=
  {| device := device self; aux_index := aux_index self; data := m |}.

(** A call on [self.device]. *)
Definition on_device {A} (c : prog SerialInstrument A) : prog DL24M A :=
  fun self => let (r, d) := c (device self) in (r, set_device self d).

(** [DL24M.__init__]. *)
Definition __init__ (device : SerialInstrument) : DL24M :=
  {| device := device;
     aux_index := 0;
     data := dict [ ("is_on", PFloat 0);
                    ("voltage", PFloat 0);
                    ("current", PFloat 0);
                    ("time", PTime 0 0 0);
                    ("cap_ah", PFloat 0);
                    ("cap_wh", PFloat 0);
                    ("temp", PInt 0);
                    ("set_current", PFloat 0);
                    ("set_voltage", PFloat 0);
                    ("set_timer", PTime 0 0 0) ]%string |}.

(** *** Reading a frame: [writeFunction] and its resynchronisation loops

    A [while] loop is unrolled at most [fuel] times; [Diverge] marks a run
    that needs more.  [sleep] and [print] do not act on the driver or the
    link and are left out. *)

(** Lines 239-240 (and 248-249, 258-259):
    [while(bytee[0] != 0xCA): bytee = self.device.read_bytes(1)]. *)
Fixpoint seek_sync (fuel : nat) (bytee : list Z) : prog DL24M (list Z) :=
  match fuel with
  | O => diverge
  | S fuel' =>
      let* b0 := lift (getitem bytee 0) in
      if negb (b0 =? 0xCA) then
        let* bytee := on_device (read_bytes 1) in
        seek_sync fuel' bytee
      else ret bytee
  end.

(** The loop condition
    [len(bytee) != 2 or bytee[0] != 0xCA or bytee[1] != 0xCB]. *)
Definition no_header (bytee : list Z) : prog DL24M bool :=
  por (ret (negb (Z.of_nat (length bytee) =? 2)))
      (por (let* b0 := lift (getitem bytee 0) in ret (negb (b0 =? 0xCA)))
           (let* b1 := lift (getitem bytee 1) in ret (negb (b1 =? 0xCB)))).

(** Lines 236-241 (the same loop is written again at 245-250 and 255-260;
    the three copies differ only in the initial [bytee]). *)
Fixpoint resync (fuel : nat) (bytee : list Z) : prog DL24M (list Z) :=
  match fuel with
  | O => diverge
  | S fuel' =>
      let* go := no_header bytee in
      if go then
        let* bytee :=
          if Z.of_nat (length bytee) =? 2 then
            let* b1 := lift (getitem bytee 1) in ret [b1; 0x00]
          else ret bytee in
        let* bytee := seek_sync fuel' bytee in
        let* more := on_device (read_bytes 1) in
        resync fuel' (bytee ++ more)
      else ret bytee
  end.

(** [bytes_read = bytee + self.device.read_bytes(6)] after the loop. *)
Definition resync_frame (fuel : nat) (bytee : list Z) : prog DL24M (list Z) :=
  let* bytee := resync fuel bytee in
  let* rest := on_device (read_bytes 6) in
  ret (bytee ++ rest).

Definition writeFunction (fuel : nat) (command : Z) (value : list Z)
  : prog DL24M pyval :=
  let resp_len := if 0x10 <=? command then 8 else 0 in
  let* frame := lift (bytearray ([0xB1; 0xB2; command] ++ value ++ [0xB6])) in
  try_except
    (do* on_device (write_raw frame) in
     if resp_len =? 0 then ret PNone
     else
       let* bytes_read := on_device (read_bytes (Z.to_nat resp_len)) in
       let* misaligned :=
         por (let* b0 := lift (getitem bytes_read 0) in ret (negb (b0 =? 0xCA)))
             (let* b1 := lift (getitem bytes_read 1) in ret (negb (b1 =? 0xCB))) in
       let* bytes_read :=
         if misaligned then
           try_except
             (let* idx := lift (index bytes_read 0xCA) in
              if idx + 1 <? resp_len then
                let* nxt := lift (getitem bytes_read (idx + 1)) in
                if nxt =? 0xCB then
                  let response := slice_from bytes_read idx in
                  let bytes_left := resp_len - Z.of_nat (length response) in
                  let* more := on_device (read_bytes (Z.to_nat bytes_left)) in
                  ret (response ++ more)
                else
                  resync_frame fuel [0x00]
              else
                let* b := lift (getitem bytes_read idx) in
                resync_frame fuel [b])
             (fun e => bool_decide (e = ValueError))
             (fun _ => resync_frame fuel [0x00])
         else ret bytes_read in
       ret (PBytes bytes_read))
    is_Exception
    (fun _ => ret (PBool false)).

(** *** Decoding: [getVal] *)

(** The body of [getVal] after the exchange, lines 171-195, on whatever
    [writeFunction] returned. *)
Definition decode_response {S} (ret_ : pyval) (command : Z) : prog S pyval :=
  let* c1 := por (ret (negb (truthy ret_)))
                 (let* n := py_len ret_ in ret (n =? 0)) in
  if c1 then ret (PBool false)
  else
  let* c2 := pand (let* n := py_len ret_ in ret (n =? 1))
                  (let* b := py_item ret_ 0 in ret (py_eq b (PInt 0x6F))) in
  if c2 then ret (PBool false)
  else
  let* c3 :=
    por (let* n := py_len ret_ in ret (n <? 8))
   (por (let* b := py_item ret_ 0 in ret (negb (py_eq b (PInt 0xCA))))
   (por (let* b := py_item ret_ 1 in ret (negb (py_eq b (PInt 0xCB))))
   (por (let* b := py_item ret_ 6 in ret (negb (py_eq b (PInt 0xCE))))
   (por (let* b := py_item ret_ 7 in ret (negb (py_eq b (PInt 0xCF))))
        (let* b := py_item ret_ 2 in ret (negb (py_eq b (PInt command)))))))) in
  if c3 then ret (PBool false)
  else
  let* mult := try_except (dict_get MUL command) is_Exception
                          (fun _ => ret (PFloat 1000)) in
  if (command =? TIME) || (command =? TIMER) then
    let* hh := py_item ret_ 3 in
    let* mm := py_item ret_ 4 in
    let* ss := py_item ret_ 5 in
    match hh, mm, ss with
    | PInt hh, PInt mm, PInt ss => lift (time hh mm ss)
    | _, _, _ => raise TypeError
    end
  else
    match ret_ with
    | PBytes bs =>
        let* q := lift (truediv_int (int_from_bytes_big (slice bs 3 6)) mult) in
        ret (PFloat q)
    | _ => raise TypeError
    end.

Definition getVal (fuel : nat) (command : Z) : prog DL24M pyval :=
  let* ret_ := writeFunction fuel command [0; 0] in
  decode_response ret_ command.

(** *** Encoding: [setVal] *)

Definition setVal (fuel : nat) (command : Z) (value : pyval) : prog DL24M pyval :=
  let* value :=
    match value with
    | PFloat x =>
        let '(f, i) := modf x in
        let* ip := lift (int_of_float i) in
        let* fp := lift (round_float (PrimFloat.mul f 100)) in
        ret [ip; fp]
    | PTime hh mm ss =>
        lift (int_to_bytes2_big (ss + mm * 60 + hh * 3600))
    | _ =>
        if (command =? OUTPUT_ON) && truthy value then ret [0x01; 0x00]
        else
          match value with
          | PInt n => lift (int_to_bytes2_big n)
          | PBool b => lift (int_to_bytes2_big (Z.b2z b))
          | _ => raise AttributeError
          end
    end in
  let* ret_ := writeFunction fuel command value in
  ret (PBool (py_eq ret_ PNone)).

(** *** Device state updates *)

Definition update_val (fuel : nat) (key : string) : prog DL24M unit :=
  let* code := dict_get KEY_CMDS key in
  let* value := getVal fuel code in
  if negb (is_False value) then
    modify (fun self => set_data self (<[key := value]> (data self)))
  else ret tt.

Definition update_vals (fuel : nat) (keys : list string) : prog DL24M unit :=
  for_each keys (update_val fuel).

Definition __clear_device : prog DL24M pyval :=
  try_except
    (let* n := on_device bytes_in_buffer in
     do* on_device (read_bytes n) in
     ret PNone)
    is_Exception
    (fun _ => ret (PBool false)).

Definition __next_aux : prog DL24M Z :=
  do* modify (fun self => set_aux_index self (aux_index self + 1)) in
  let* self := get in
  do* (if Z.of_nat (length AUX_VALS) <=? aux_index self
       then modify (fun self => set_aux_index self 0)
       else ret tt) in
  let* self := get in
  ret (aux_index self).

Definition readAll (fuel : nat) (read_all_aux : bool)
  : prog DL24M (gmap string pyval) :=
  do* __clear_device in
  do* update_vals fuel FREQ_VALS in
  do* (if read_all_aux then update_vals fuel AUX_VALS
       else
         let* i := __next_aux in
         let* key := lift (getitem AUX_VALS i) in
         update_val fuel key) in
  let* self := get in
  ret (data self).

(** *** Transport setup *)

(** Evaluation of the class expression of an [except] clause given as a
    bare name: [Exception] is the builtin; any other name must be bound.
    Neither the module nor [__setup_device] binds a name [e]. *)
Definition module_names : list string :=
  [ "time"; "modf"; "Number"; "sleep"; "byte"; "visa"; "Instrument"; "DL24M" ]%string.
Definition except_class (name : string) : outcome (exn -> bool) :=
  if bool_decide (name = "Exception"%string) then Ret is_Exception
  else if bool_decide (name ∈ module_names) then Raise TypeError
  else Raise NameError.

(** [try: body except <name>: handler]: the name is evaluated when an
    exception reaches the clause. *)
Definition try_except_name {S A} (body : prog S A) (name : string)
    (handler : exn -> prog S A) : prog S A :=
  fun s =>
    match body s with
    | (Raise e, s') =>
        match except_class name with
        | Ret handles => if handles e then handler e s' else (Raise e, s')
        | Raise e' => (Raise e', s')
        | Diverge => (Diverge, s')
        end
    | r => r
    end.

Definition __setup_device : prog DL24M unit :=
  try_except_name
    (do* on_device (set_attr (fun s =>
           {| timeout := 500; baud_rate := baud_rate s; data_bits := data_bits s;
              stop_bits := stop_bits s; parity := parity s;
              flow_control := flow_control s |})) in
     do* on_device (set_attr (fun s =>
           {| timeout := timeout s; baud_rate := 9600; data_bits := data_bits s;
              stop_bits := stop_bits s; parity := parity s;
              flow_control := flow_control s |})) in
     do* on_device (set_attr (fun s =>
           {| timeout := timeout s; baud_rate := baud_rate s; data_bits := 8;
              stop_bits := stop_bits s; parity := parity s;
              flow_control := flow_control s |})) in
     do* on_device (set_attr (fun s =>
           {| timeout := timeout s; baud_rate := baud_rate s; data_bits := data_bits s;
              stop_bits := StopBits_one; parity := parity s;
              flow_control := flow_control s |})) in
     do* on_device (set_attr (fun s =>
           {| timeout := timeout s; baud_rate := baud_rate s; data_bits := data_bits s;
              stop_bits := stop_bits s; parity := Parity_none;
              flow_control := flow_control s |})) in
     on_device (set_attr (fun s =>
           {| timeout := timeout s; baud_rate := baud_rate s; data_bits := data_bits s;
              stop_bits := stop_bits s; parity := parity s;
              flow_control := ControlFlow_none |})))
    "e"
    (fun _ => ret tt).

(** *** The command executor *)

Section Executor.
Context `{Instrument}.

Definition COMMANDS : gmap string Z :=
  dict [ (COMMAND_ENABLE, OUTPUT_ON);
         (COMMAND_SET_VOLTAGE, SETVCUT);
         (COMMAND_SET_CURRENT, SETCURR);
         (COMMAND_SET_TIMER, SETTMR);
         (COMMAND_RESET, RESETCNT) ].

Definition VERIFY_CMD : gmap string string :=
  dict [ (COMMAND_ENABLE, "is_on");
         (COMMAND_SET_VOLTAGE, "set_voltage");
         (COMMAND_SET_CURRENT, "set_current");
         (COMMAND_SET_TIMER, "set_timer");
         (COMMAND_RESET, "cap_ah") ]%string.

(** The loop of lines 155-164, [for i in range(0, 3)], over the values of
    [i] still to come; returning from it is the [break] or the end of the
    range. *)
Fixpoint command_loop (fuel : nat) (range : list Z) (command : string)
    (value : pyval) : prog DL24M unit :=
  match range with
  | [] => ret tt
  | i :: range' =>
      let* code := dict_get COMMANDS command in
      do* setVal fuel code value in
      let* key := dict_get VERIFY_CMD command in
      do* update_val fuel key in
      let* key := dict_get VERIFY_CMD command in
      let* self := get in
      let* seen := dict_get (data self) key in
      if py_eq seen value then ret tt
      else command_loop fuel range' command value
  end.

Definition command (fuel : nat) (command : string) (value : pyval)
  : prog DL24M pyval :=
  if negb (bool_decide (command ∈ dom COMMANDS)) then ret (PBool false)
  else
    do* command_loop fuel [0; 1; 2] command value in
    do* (if bool_decide (command = COMMAND_RESET)
         then update_vals fuel AUX_VALS
         else ret tt) in
    ret PNone.

End Executor.

(** *** Shutting down *)

(** [device.close()] of pyvisa: the session ends; on a session that has
    ended already the call does nothing. *)
Definition close_session : prog SerialInstrument unit :=
  fun d =>
    (Ret tt,
     {| session_open := false; short_reads := short_reads d; reply := reply d;
        settings := settings d; inbuf := inbuf d; written := written d |}).

Definition turnOFF (fuel : nat) : prog DL24M unit :=
  do* setVal fuel OUTPUT_ON (PInt DISABLED) in
  ret tt.

Definition close (fuel : nat) : prog DL24M unit :=
  do* turnOFF fuel in
  on_device close_session.

(** *** Probing *)

(** [s.split(sep)[0]] for a separator that is not empty: what comes before
    the first occurrence of [sep], all of [s] if there is none. *)
Fixpoint split_head (sep s : string) : string :=
  match s with
  | EmptyString => EmptyString
  | String c s' =>
      if String.prefix sep s then EmptyString else String c (split_head sep s')
  end.

(** [s.replace(old, new)] for an [old] that is not empty: the occurrences
    of [old] are replaced from left to right, without overlap.  [skip]
    counts the characters of the current occurrence still to be dropped. *)
Fixpoint replace_from (skip : nat) (old new s : string) : string :=
  match s with
  | EmptyString => EmptyString
  | String c s' =>
      match skip with
      | S k => replace_from k old new s'
      | O =>
          if String.prefix old s
          then new +:+ replace_from (String.length old - 1) old new s'
          else String c (replace_from 0 old new s')
      end
  end.
Definition replace (old new s : string) : string := replace_from 0 old new s.

(** [isinstance(value, Number)] and [isinstance(value, bool)]; [bool] is a
    subclass of [int]. *)
Definition is_Number (value : pyval) : bool :=
  match value with
  | PBool _ | PInt _ | PFloat _ => true
  | _ => false
  end.
Definition is_bool (value : pyval) : bool :=
  match value with
  | PBool _ => true
  | _ => false
  end.

Definition __is_number (value : pyval) : bool :=
  is_Number value && negb (is_bool value).

(** What [probe] asks of the resource behind [self.device] beyond the
    link itself: whether its class is [SerialInstrument], and the name it
    was opened under. *)
Record Resource := {
  is_serial : bool;
  resource_name : string;
}.

(** [device.resource_name]: the name is read through the session, so the
    read raises like every other operation once the session is gone. *)
Definition get_resource_name (resource : Resource)
  : prog SerialInstrument string :=
  fun d =>
    if session_open d then (Ret (resource_name resource), d)
    else (Raise VisaIOError, d).

(** The driver object together with the attribute [port], which [probe]
    adds to it. *)
Record Probed := {
  driver : DL24M;
  port : option string;
}.

(** A method of the driver, called on the probed object. *)
Definition on_driver {A} (c : prog DL24M A) : prog Probed A :=
  fun p => let (r, s) := c (driver p) in (r, {| driver := s; port := port p |}).

Definition probe (fuel : nat) (resource : Resource) : prog Probed pyval :=
  if negb (is_serial resource) then ret (PBool false)
  else
    let* name := on_driver (on_device (get_resource_name resource)) in
    do* modify (fun p =>
          {| driver := driver p;
             port := Some (replace "ASRL" EmptyString (split_head "::" name)) |}) in
    do* on_driver __setup_device in
    do* on_driver __clear_device in
    let* value := on_driver (getVal fuel VOLTAGE) in
    ret (PBool (__is_number value)).

(** ** Specification vocabulary *)

(** *** Properties of driver code *)

(** [c] relates every initial state to the state it leaves, whatever the
    outcome. *)
Definition keeps {S A} (R : S -> S -> Prop) (c : prog S A) : Prop :=
  ∀ s, R s (c s).2.

(** Every value [c] returns satisfies [Q]. *)
Definition returns {S A} (c : prog S A) (Q : A -> Prop) : Prop :=
  ∀ s a s', c s = (Ret a, s') → Q a.

(** From a state satisfying [P], [c] ends within its step budget. *)
Definition finishes {S A} (P : S -> Prop) (c : prog S A) : Prop :=
  ∀ s, P s → (c s).1 ≠ Diverge.

(** [c'] does what [c] does on every state from which [c] finishes within
    its step budget. *)
Definition extends {S A} (c c' : prog S A) : Prop :=
  ∀ s, (c s).1 ≠ Diverge → c' s = c s.

(** *** Relations between driver states *)

(** Only the inbound queue of the link differs between the two states, and
    it has not grown. *)
Record inbound_only (s s' : DL24M) : Prop := {
  io_data : data s' = data s;
  io_aux_index : aux_index s' = aux_index s;
  io_written : written (device s') = written (device s);
  io_session_open : session_open (device s') = session_open (device s);
  io_short_reads : short_reads (device s') = short_reads (device s);
  io_reply : reply (device s') = reply (device s);
  io_settings : settings (device s') = settings (device s);
  io_inbuf : (length (inbuf (device s')) <= length (inbuf (device s)))%nat;
}.

(** The link is the same one, configured the same way, and the cursor has
    not moved; queues, log and register values may differ. *)
Record link_kept (s s' : DL24M) : Prop := {
  lk_aux_index : aux_index s' = aux_index s;
  lk_session_open : session_open (device s') = session_open (device s);
  lk_short_reads : short_reads (device s') = short_reads (device s);
  lk_reply : reply (device s') = reply (device s);
  lk_settings : settings (device s') = settings (device s);
}.

(** The register values and the round-robin cursor are the same. *)
Definition same_registers (s s' : DL24M) : Prop :=
  data s' = data s ∧ aux_index s' = aux_index s.

(** A link whose reads raise on timeout, with fewer than [n] bytes ahead. *)
Definition raising_within (n : nat) (s : DL24M) : Prop :=
  short_reads (device s) = false ∧ (length (inbuf (device s)) < n)%nat.

(** The driver after [frame] has gone out on an open link. *)
Definition sent (self : DL24M) (frame : list Z) : DL24M :=
  let d := device self in
  set_device self (set_io d (inbuf d ++ reply d frame) (written d ++ [frame])).

(** The driver with [rest] left on the inbound side. *)
Definition with_inbuf (self : DL24M) (rest : list Z) : DL24M :=
  set_device self (set_io (device self) rest (written (device self))).

(** *** Frames *)

(** The outbound frame for [command] with payload [value], and the query
    frame for a register. *)
Definition outbound (command : Z) (value : list Z) : list Z :=
  [0xB1; 0xB2; command] ++ value ++ [0xB6].
Definition query (command : Z) : list Z := outbound command [0; 0].

(** An outbound frame that sets something: its command byte is below 0x10. *)
Definition is_set_frame (frame : list Z) : bool :=
  match frame !! 2%nat with
  | Some c => c <? 0x10
  | None => false
  end.

(** How many set frames have gone out so far, and code that sends at most
    [n] more. *)
Definition sets_issued (self : DL24M) : nat :=
  length (List.filter is_set_frame (written (device self))).

(** What an exchange can hand to the decode step: [None], [False], or at
    most the eight bytes that were asked for. *)
Inductive exchange_result : pyval -> Prop :=
| exchange_None : exchange_result PNone
| exchange_False : exchange_result (PBool false)
| exchange_bytes bs : (length bs <= 8)%nat -> exchange_result (PBytes bs).

(** The framing checks of section 3 of the specification. *)
Definition valid_frame (bs : list Z) (command : Z) : Prop :=
  (8 <= length bs)%nat ∧
  take 2 bs = [0xCA; 0xCB] ∧
  drop (length bs - 2) bs = [0xCE; 0xCF] ∧
  bs !! 2%nat = Some command.

(** The scale [getVal] divides by: the entry of [MUL], 1000 without one. *)
Definition scale (command : Z) : float :=
  match MUL !! command with
  | Some (PFloat k) => k
  | Some (PInt k) => float_of_Z k
  | _ => 1000%float
  end.

(** *** The inbound stream *)

(** Section 4.3 of the specification, as a function on the stream: what
    follows the first 0xCA 0xCB. *)
Fixpoint after_header (stream : list Z) : option (list Z) :=
  match stream with
  | [] => None
  | a :: tl =>
      match tl with
      | b :: rest =>
          if (a =? 0xCA) && (b =? 0xCB) then Some rest else after_header tl
      | [] => None
      end
  end.

(** [scannable stream rest]: [rest] follows the first 0xCA 0xCB of [stream],
    and before that header no 0xCA is directly followed by another 0xCA. *)
Inductive scannable : list Z -> list Z -> Prop :=
| scannable_skip x tl rest :
    x ≠ 0xCA → scannable tl rest → scannable (x :: tl) rest
| scannable_header rest :
    scannable (0xCA :: 0xCB :: rest) rest
| scannable_stray b tl rest :
    b ≠ 0xCA → b ≠ 0xCB → scannable tl rest → scannable (0xCA :: b :: tl) rest.

(** *** Polling *)

(** The register codes behind [AUX_VALS], in the order of that list. *)
Definition aux_codes : list Z := [CAP_WH; TEMP; LIM_CURR; LIM_VOLT; TIMER].

(** The auxiliary register at position [i] of the rotation, and the
    registers at the [n] positions that follow position [i]. *)
Definition aux_code_at (i : Z) : Z := nth (Z.to_nat (i mod 5)) aux_codes 0.

(** The auxiliary registers queried by the frames [ws], in order. *)
Definition aux_refreshed (ws : list (list Z)) : list Z :=
  List.filter (fun c => bool_decide (c ∈ aux_codes)) (omap (fun f => f !! 2%nat) ws).


(** *** Readings *)

(** The response frame of register [c] that carries the payload
    [b3 b4 b5], and what [getVal] makes of such a frame: a time of day for
    the two durations, the scaled big-endian number for the others. *)
Definition response (c b3 b4 b5 : Z) : list Z :=
  [0xCA; 0xCB; c; b3; b4; b5; 0xCE; 0xCF].
Definition reading (c b3 b4 b5 : Z) : outcome pyval :=
  if (c =? TIME) || (c =? TIMER) then time b3 b4 b5
  else Ret (PFloat (PrimFloat.div (float_of_Z (b3 * 65536 + b4 * 256 + b5))
                                  (scale c))).

(** The instrument behind the link answers the query of register [c] with
    one well-formed frame, which reads as [v]. *)
Definition reports (d : SerialInstrument) (c : Z) (v : pyval) : Prop :=
  ∃ b3 b4 b5, reply d (query c) = response c b3 b4 b5 ∧
              reading c b3 b4 b5 = Ret v.

(** The name at position [i] of the rotation over [AUX_VALS], and the
    registers one poll cycle reads when the cursor stands at [i]. *)
Definition aux_key_at (i : Z) : string :=
  nth (Z.to_nat (i mod 5)) AUX_VALS EmptyString.
Definition polled (read_all_aux : bool) (i : Z) : list string :=
  FREQ_VALS ++ (if read_all_aux then AUX_VALS else [aux_key_at (i + 1)]).

(** Bytes that start with the header of a response and are no more than
    the eight bytes of one frame. *)
Definition framed (bs : list Z) : Prop :=
  take 2 bs = [0xCA; 0xCB] ∧ (length bs <= 8)%nat.

(** The line settings [__setup_device] asks for. *)
Definition configured : Settings :=
  {| timeout := 500; baud_rate := 9600; data_bits := 8;
     stop_bits := StopBits_one; parity := Parity_none;
     flow_control := ControlFlow_none |}.

(** *** Set points *)

(** The float Python reads from the literal [a.bc], where [raw] is the
    number of hundredths: the division of two exact floats is rounded once,
    as the literal is. *)
Definition centi (raw : Z) : float := PrimFloat.div (float_of_Z raw) 100.

(** [setVal]'s conversion of a float (lines 199-200), on its own. *)
Definition float_payload (x : float) : outcome (list Z) :=
  let '(f, i) := modf x in
  match int_of_float i with
  | Ret ip =>
      match round_float (PrimFloat.mul f 100) with
      | Ret fp => Ret [ip; fp]
      | Raise e => Raise e
      | Diverge => Diverge
      end
  | Raise e => Raise e
  | Diverge => Diverge
  end.

(** *** Driver invariants *)

(** [self.data] has exactly the register names of [KEY_CMDS], and the
    cursor is an index into [AUX_VALS]. *)
Definition well_formed (s : DL24M) : Prop :=
  dom (data s) = dom KEY_CMDS ∧ 0 <= aux_index s < 5.

(** A step from a well-formed driver leaves a well-formed driver. *)
Definition well_formed_kept (s s' : DL24M) : Prop :=
  well_formed s → well_formed s'.

(** From a well-formed driver, [c] raises only exceptions in [E]. *)
Definition raises_only {A} (E : exn → Prop) (c : prog DL24M A) : Prop :=
  ∀ s e s', well_formed s → c s = (Raise e, s') → E e.

(** Outside [keys], the two drivers hold the same register values. *)
Definition only_keys (keys : list string) (s s' : DL24M) : Prop :=
  ∀ k, k ∉ keys → data s' !! k = data s !! k.

(** The exception classes a call into the driver can let through. *)
Definition conversion_errors : list exn :=
  [ValueError; OverflowError; AttributeError].

(** *** Runs *)

(** The run ended with a return. *)
Definition returned {A} (o : outcome A) : bool :=
  match o with Ret _ => true | _ => false end.

(** *** Links, instruments and streams used in the examples *)

Definition factory_settings : Settings :=
  {| timeout := 2000; baud_rate := 115200; data_bits := 8;
     stop_bits := StopBits_one; parity := Parity_none;
     flow_control := ControlFlow_none |}.

(** An open link to an instrument that answers nothing by itself; [inb] is
    already on its way in.  Reads raise on timeout. *)
Definition link (inb : list Z) : SerialInstrument :=
  {| session_open := true; short_reads := false; reply := fun _ => [];
     settings := factory_settings; inbuf := inb; written := [] |}.

(** The same link with reads that return short on timeout. *)
Definition short_link (inb : list Z) : SerialInstrument :=
  {| session_open := true; short_reads := true; reply := fun _ => [];
     settings := factory_settings; inbuf := inb; written := [] |}.

(** An open link to an instrument that answers every query with the
    payload 00 00 01 and stays silent on set frames. *)
Definition steady_link : SerialInstrument :=
  {| session_open := true; short_reads := false;
     reply := fun frame =>
       match frame !! 2%nat with
       | Some c => if 0x10 <=? c then [0xCA; 0xCB; c; 0; 0; 1; 0xCE; 0xCF] else []
       | None => []
       end;
     settings := factory_settings; inbuf := []; written := [] |}.

(** A link whose session is gone. *)
Definition dead_link : SerialInstrument :=
  {| session_open := false; short_reads := false; reply := fun _ => [];
     settings := factory_settings; inbuf := []; written := [] |}.

(** One choice of the command identifiers. *)
Definition bench_instrument : Instrument :=
  {| COMMAND_ENABLE := "enable"; COMMAND_SET_VOLTAGE := "set_voltage";
     COMMAND_SET_CURRENT := "set_current"; COMMAND_SET_TIMER := "set_timer";
     COMMAND_RESET := "reset" |}.

(** Eight bytes of a status message, then a sync byte that is directly
    followed by the header of a voltage frame. *)
Definition back_to_back_stream : list Z :=
  [0x00; 0x00; 0x00; 0x00; 0x00; 0x00; 0x00; 0x00;
   0xCA;
   0xCA; 0xCB; 0x11; 0x00; 0x03; 0xE8; 0xCE; 0xCF].

(** A stray sync byte and, still within the first eight bytes, the header
    of a voltage frame (1.000 V); a second voltage frame (2.000 V) comes
    after it. *)
Definition stray_sync_stream : list Z :=
  [0x00; 0xCA; 0x00;
   0xCA; 0xCB; 0x11; 0x00; 0x03; 0xE8; 0xCE; 0xCF;
   0xCA; 0xCB; 0x11; 0x00; 0x07; 0xD0; 0xCE; 0xCF].

(** An instrument on an open link that answers the query of register [c]
    with one frame carrying [regs c], and stays silent on set frames. *)
Definition reporting (regs : Z → Z * Z * Z) : SerialInstrument :=
  {| session_open := true; short_reads := false;
     reply := fun frame =>
       match frame !! 2%nat with
       | Some c => if 0x10 <=? c
                   then let '(b3, b4, b5) := regs c in response c b3 b4 b5
                   else []
       | None => []
       end;
     settings := factory_settings; inbuf := []; written := [] |}.

(** An instrument like [reporting] that also acknowledges every set frame
    with the single byte 0x6F. *)
Definition acknowledging (regs : Z → Z * Z * Z) : SerialInstrument :=
  {| session_open := true; short_reads := false;
     reply := fun frame =>
       match frame !! 2%nat with
       | Some c => if 0x10 <=? c
                   then let '(b3, b4, b5) := regs c in response c b3 b4 b5
                   else [0x6F]
       | None => []
       end;
     settings := factory_settings; inbuf := []; written := [] |}.

(** ** Proof rules for driver code *)

Section Rules.
Context {S : Type}.

Lemma bind_ret_l {A B} (a : A) (k : A -> prog S B) s : bind (ret a) k s = k a s.
Proof. reflexivity. Qed.

Lemma bind_Ret {A B} (c : prog S A) (k : A -> prog S B) s a s' :
  c s = (Ret a, s') → bind c k s = k a s'.
Proof. intros E. unfold bind. now rewrite E. Qed.

Lemma bind_Raise {A B} (c : prog S A) (k : A -> prog S B) s e s' :
  c s = (Raise e, s') → bind c k s = (Raise e, s').
Proof. intros E. unfold bind. now rewrite E. Qed.

Lemma bind_Diverge {A B} (c : prog S A) (k : A -> prog S B) s s' :
  c s = (Diverge, s') → bind c k s = (Diverge, s').
Proof. intros E. unfold bind. now rewrite E. Qed.

(** Inversion of a [bind] that returned. *)
Lemma bind_inv_Ret {A B} (c : prog S A) (k : A -> prog S B) s b s' :
  bind c k s = (Ret b, s') →
  ∃ a s1, c s = (Ret a, s1) ∧ k a s1 = (Ret b, s').
Proof.
  unfold bind. destruct (c s) as [[a|e|] s1]; intros E; try discriminate.
  eauto.
Qed.

Section Keeps.
Context (R : S -> S -> Prop) `{!Reflexive R} `{!Transitive R}.

Lemma keeps_ret {A} (a : A) : keeps R (ret a).
Proof. intros s. simpl. reflexivity. Qed.

Lemma keeps_raise {A} e : keeps R (@raise S A e).
Proof. intros s. simpl. reflexivity. Qed.

Lemma keeps_diverge {A} : keeps R (@diverge S A).
Proof. intros s. simpl. reflexivity. Qed.

Lemma keeps_lift {A} (o : outcome A) : keeps R (lift o).
Proof. intros s. simpl. reflexivity. Qed.

Lemma keeps_get : keeps R get.
Proof. intros s. simpl. reflexivity. Qed.

Lemma keeps_bind {A B} (c : prog S A) (k : A -> prog S B) :
  keeps R c → (∀ a, keeps R (k a)) → keeps R (bind c k).
Proof.
  intros Hc Hk s. unfold bind. specialize (Hc s).
  destruct (c s) as [[a|e|] s1]; simpl in *; auto.
  etransitivity; [exact Hc | apply Hk].
Qed.

Lemma keeps_try_except {A} (body : prog S A) handles handler :
  keeps R body → (∀ e, keeps R (handler e)) →
  keeps R (try_except body handles handler).
Proof.
  intros Hb Hh s. unfold try_except. specialize (Hb s).
  destruct (body s) as [[a|e|] s1]; simpl in *; auto.
  destruct (handles e); simpl; auto.
  etransitivity; [exact Hb | apply Hh].
Qed.

Lemma keeps_por (a b : prog S bool) : keeps R a → keeps R b → keeps R (por a b).
Proof.
  intros Ha Hb. apply keeps_bind; [done|]. intros [|]; [apply keeps_ret | done].
Qed.

Lemma keeps_pand (a b : prog S bool) : keeps R a → keeps R b → keeps R (pand a b).
Proof.
  intros Ha Hb. apply keeps_bind; [done|]. intros [|]; [done | apply keeps_ret].
Qed.

Lemma keeps_dict_get {K V} `{Countable K} (d : gmap K V) k : keeps R (dict_get d k).
Proof. unfold dict_get. destruct (d !! k); [apply keeps_ret | apply keeps_raise]. Qed.

Lemma keeps_for_each {A} (xs : list A) (body : A -> prog S unit) :
  (∀ x, keeps R (body x)) → keeps R (for_each xs body).
Proof.
  intros Hb. induction xs as [|x xs IH]; simpl.
  - apply keeps_ret.
  - apply keeps_bind; auto.
Qed.

End Keeps.

Lemma returns_ret {A} (a : A) (Q : A -> Prop) : Q a → returns (@ret S A a) Q.
Proof. intros HQ s a' s' E. injection E as <- _. exact HQ. Qed.

Lemma returns_raise {A} e (Q : A -> Prop) : returns (@raise S A e) Q.
Proof. intros s a s' E. discriminate. Qed.

Lemma returns_diverge {A} (Q : A -> Prop) : returns (@diverge S A) Q.
Proof. intros s a s' E. discriminate. Qed.

Lemma returns_bind {A B} (c : prog S A) (k : A -> prog S B) (P : A -> Prop)
    (Q : B -> Prop) :
  returns c P → (∀ a, P a → returns (k a) Q) → returns (bind c k) Q.
Proof.
  intros Hc Hk s b s' E. apply bind_inv_Ret in E as (a & s1 & E1 & E2).
  eapply Hk; eauto.
Qed.

Lemma returns_try_except {A} (body : prog S A) handles handler (Q : A -> Prop) :
  returns body Q → (∀ e, returns (handler e) Q) →
  returns (try_except body handles handler) Q.
Proof.
  intros Hb Hh s a s' E. unfold try_except in E.
  destruct (body s) as [[a1|e|] s1] eqn:Eb.
  - injection E as <- <-. eapply Hb; eauto.
  - destruct (handles e); [eapply Hh; eauto | discriminate].
  - discriminate.
Qed.

Lemma returns_True {A} (c : prog S A) : returns c (fun _ => True).
Proof. intros s a s' _. exact I. Qed.

End Rules.

(** ** The transport and the read path *)

#[local] Instance inbound_only_refl : Reflexive inbound_only.
Proof. intros s. by split. Qed.

#[local] Instance inbound_only_trans : Transitive inbound_only.
Proof.
  intros s1 s2 s3 [] []. split; etransitivity; eassumption.
Qed.

#[local] Instance same_registers_refl : Reflexive same_registers.
Proof. intros s. by split. Qed.

#[local] Instance same_registers_trans : Transitive same_registers.
Proof. intros s1 s2 s3 [] []. split; etransitivity; eassumption. Qed.

Lemma inbound_only_same_registers s s' : inbound_only s s' → same_registers s s'.
Proof. intros []. by split. Qed.

Lemma read_bytes_length n d bs d' :
  read_bytes n d = (Ret bs, d') → (length bs <= n)%nat.
Proof.
  unfold read_bytes. destruct (session_open d); simpl; [|discriminate].
  case_bool_decide.
  - intros [= <- _]. rewrite length_take. lia.
  - destruct (short_reads d); [|discriminate].
    intros [= <- _]. lia.
Qed.

Lemma on_device_Ret {A} (c : prog SerialInstrument A) self a self' :
  on_device c self = (Ret a, self') →
  ∃ d', c (device self) = (Ret a, d') ∧ self' = set_device self d'.
Proof.
  unfold on_device. destruct (c (device self)) as [r d']. intros [= -> <-]. eauto.
Qed.

Lemma returns_read_bytes n :
  returns (on_device (read_bytes n)) (fun bs => (length bs <= n)%nat).
Proof.
  intros s bs s' E. apply on_device_Ret in E as (d' & E & _).
  eapply read_bytes_length; eauto.
Qed.

Lemma keeps_read_bytes n : keeps inbound_only (on_device (read_bytes n)).
Proof.
  intros s. unfold on_device, read_bytes.
  destruct (session_open (device s)) eqn:Eo; simpl; [|by split].
  case_bool_decide; [split; try done; simpl; rewrite length_drop; lia|].
  destruct (short_reads (device s)); split; try done; simpl; lia.
Qed.

Lemma keeps_bytes_in_buffer : keeps inbound_only (on_device bytes_in_buffer).
Proof.
  intros s. unfold on_device, bytes_in_buffer.
  destruct (session_open (device s)) eqn:Eo; by split.
Qed.

Lemma keeps_seek_sync fuel bytee : keeps inbound_only (seek_sync fuel bytee).
Proof.
  revert bytee. induction fuel as [|fuel IH]; intros bytee; simpl.
  - apply keeps_diverge; apply _.
  - apply keeps_bind; [apply _ | apply keeps_lift; apply _ |].
    intros b0. destruct (negb (b0 =? 202)).
    + apply keeps_bind; [apply _ | apply keeps_read_bytes | auto].
    + apply keeps_ret; apply _.
Qed.

(** The loop condition does not touch the link: it only compares [bytee]
    with the two header bytes. *)
Lemma no_header_spec bytee s :
  no_header bytee s = (Ret (negb (bool_decide (bytee = [0xCA; 0xCB]))), s).
Proof.
  unfold no_header, por. rewrite bind_ret_l.
  destruct (Z.of_nat (length bytee) =? 2) eqn:El; simpl.
  - apply Z.eqb_eq in El.
    destruct bytee as [|a [|b [|c t]]]; simpl in El; try lia.
    unfold bind, ret, lift; simpl.
    destruct (a =? 202) eqn:Ea; simpl.
    + apply Z.eqb_eq in Ea as ->.
      destruct (b =? 203) eqn:Eb; simpl.
      * apply Z.eqb_eq in Eb as ->. reflexivity.
      * apply Z.eqb_neq in Eb. rewrite bool_decide_eq_false_2; [done|congruence].
    + apply Z.eqb_neq in Ea. rewrite bool_decide_eq_false_2; [done|congruence].
  - apply Z.eqb_neq in El.
    rewrite bool_decide_eq_false_2; [reflexivity|].
    intros ->. simpl in El. lia.
Qed.

Lemma keeps_resync fuel bytee : keeps inbound_only (resync fuel bytee).
Proof.
  revert bytee. induction fuel as [|fuel IH]; intros bytee; simpl.
  - apply keeps_diverge; apply _.
  - intros s. unfold bind at 1. rewrite no_header_spec.
    destruct (negb (bool_decide (bytee = [202; 203]))); [|reflexivity].
    revert s. apply keeps_bind; [apply _ | |].
    + destruct (Z.of_nat (length bytee) =? 2).
      * apply keeps_bind; [apply _ | apply keeps_lift; apply _ |].
        intros; apply keeps_ret; apply _.
      * apply keeps_ret; apply _.
    + intros b. apply keeps_bind; [apply _ | apply keeps_seek_sync |].
      intros b'. apply keeps_bind; [apply _ | apply keeps_read_bytes | auto].
Qed.

(** The loop leaves only with the two header bytes in [bytee]. *)
Lemma returns_resync fuel bytee :
  returns (resync fuel bytee) (fun b => b = [0xCA; 0xCB]).
Proof.
  revert bytee. induction fuel as [|fuel IH]; intros bytee; simpl.
  - apply returns_diverge.
  - intros s b s'. unfold bind at 1. rewrite no_header_spec.
    case_bool_decide as Hb; simpl.
    + intros [= <- _]. done.
    + revert s b s'.
      eapply returns_bind; [apply returns_True|]. intros b1 _.
      eapply returns_bind; [apply returns_True|]. intros b2 _.
      eapply returns_bind; [apply returns_True|]. intros b3 _.
      apply IH.
Qed.

Lemma keeps_resync_frame fuel bytee : keeps inbound_only (resync_frame fuel bytee).
Proof.
  apply keeps_bind; [apply _ | apply keeps_resync |].
  intros b. apply keeps_bind; [apply _ | apply keeps_read_bytes |].
  intros; apply keeps_ret; apply _.
Qed.

Lemma returns_resync_frame fuel bytee :
  returns (resync_frame fuel bytee) (fun bs => (length bs <= 8)%nat).
Proof.
  eapply returns_bind; [apply returns_resync|]. intros b ->.
  eapply returns_bind; [apply returns_read_bytes|]. intros r Hr.
  apply returns_ret. rewrite length_app. simpl in *. lia.
Qed.

(** *** What [writeFunction] returns and what it leaves behind *)

Lemma returns_lift {S A} (o : outcome A) (Q : A -> Prop) :
  (∀ a, o = Ret a → Q a) → returns (@lift S A o) Q.
Proof. intros H s a s' [= -> _]. by apply H. Qed.

Lemma length_slice_from bs i : (length (slice_from bs i) <= length bs)%nat.
Proof. unfold slice_from. rewrite length_drop. lia. Qed.

(** An exchange hands [None], [False] or at most eight bytes to its caller. *)
Lemma writeFunction_exchange_result fuel command value :
  returns (writeFunction fuel command value) exchange_result.
Proof.
  unfold writeFunction.
  eapply returns_bind; [apply returns_True|]. intros frame _.
  apply returns_try_except; [|intros; apply returns_ret; constructor].
  eapply returns_bind; [apply returns_True|]. intros _ _.
  destruct (16 <=? command); simpl; [|apply returns_ret; constructor].
  eapply returns_bind; [apply returns_read_bytes|]. intros bs Hbs.
  change (Pos.to_nat 8) with 8%nat in Hbs. simpl in Hbs.
  eapply returns_bind; [apply returns_True|]. intros m _.
  eapply returns_bind with (P := fun br => (length br <= 8)%nat).
  2: { intros br Hbr. apply returns_ret. by constructor. }
  destruct m; [|by apply returns_ret].
  apply returns_try_except; [|intros _; apply returns_resync_frame].
  eapply returns_bind; [apply returns_True|]. intros idx _.
  destruct (idx + 1 <? 8).
  - eapply returns_bind; [apply returns_True|]. intros nxt _.
    destruct (nxt =? 203); [|apply returns_resync_frame].
    eapply returns_bind; [apply returns_read_bytes|]. intros more Hm.
    apply returns_ret. rewrite length_app. simpl in Hm.
    pose proof (length_slice_from bs idx). lia.
  - eapply returns_bind; [apply returns_True|]. intros b _.
    apply returns_resync_frame.
Qed.

Ltac keeps_tac :=
  repeat first
    [ match goal with |- Reflexive _ => apply _ end
    | match goal with |- Transitive _ => apply _ end
    | match goal with |- ∀ _, _ => intro end
    | match goal with |- keeps _ (if ?b then _ else _) => destruct b end
    | apply keeps_ret | apply keeps_raise | apply keeps_diverge
    | apply keeps_lift | apply keeps_get | apply keeps_dict_get
    | apply keeps_read_bytes | apply keeps_bytes_in_buffer
    | apply keeps_seek_sync | apply keeps_resync | apply keeps_resync_frame
    | apply keeps_bind | apply keeps_try_except
    | apply keeps_por | apply keeps_pand | apply keeps_for_each ].

Lemma bind_lift_Ret {S A B} (a : A) (k : A -> prog S B) s :
  bind (lift (Ret a)) k s = k a s.
Proof. reflexivity. Qed.

Lemma try_except_bind_Ret {S A B} (c : prog S A) (k : A -> prog S B) h hd s a s1 :
  c s = (Ret a, s1) →
  try_except (bind c k) h hd s = try_except (k a) h hd s1.
Proof. intros E. unfold try_except, bind. by rewrite E. Qed.

Lemma try_except_bind_Raise {S A B} (c : prog S A) (k : A -> prog S B) h hd s e s1 :
  c s = (Raise e, s1) →
  try_except (bind c k) h hd s = if h e then hd e s1 else (Raise e, s1).
Proof. intros E. unfold try_except, bind. by rewrite E. Qed.

Lemma set_device_id s : set_device s (device s) = s.
Proof. by destruct s. Qed.

Lemma write_raw_open s frame :
  session_open (device s) = true →
  on_device (write_raw frame) s = (Ret tt, sent s frame).
Proof. intros E. unfold on_device, write_raw. by rewrite E. Qed.

Lemma write_raw_closed s frame :
  session_open (device s) = false →
  on_device (write_raw frame) s = (Raise VisaIOError, s).
Proof.
  intros E. unfold on_device, write_raw. rewrite E. by rewrite set_device_id.
Qed.

(** After the frame has gone out, the rest of an exchange only reads. *)
Lemma writeFunction_state fuel command value s :
  if forallb is_byte (outbound command value) && session_open (device s)
  then inbound_only (sent s (outbound command value))
                    (writeFunction fuel command value s).2
  else (writeFunction fuel command value s).2 = s.
Proof.
  unfold writeFunction, bytearray. fold (outbound command value).
  destruct (forallb is_byte (outbound command value)); simpl andb; [|reflexivity].
  rewrite bind_lift_Ret.
  destruct (session_open (device s)) eqn:Eo.
  - rewrite (try_except_bind_Ret _ _ _ _ _ _ _ (write_raw_open _ _ Eo)).
    match goal with |- inbound_only ?x (?c ?x).2 =>
      assert (Hk : keeps inbound_only c) by keeps_tac; apply Hk end.
  - rewrite (try_except_bind_Raise _ _ _ _ _ _ _ (write_raw_closed _ _ Eo)).
    reflexivity.
Qed.

(** [writeFunction] raises only when the frame cannot be built; every
    exception of the exchange itself is turned into [False]. *)
Lemma writeFunction_no_raise fuel command value s e :
  forallb is_byte (outbound command value) = true →
  (writeFunction fuel command value s).1 ≠ Raise e.
Proof.
  intros Hb. unfold writeFunction, bytearray. fold (outbound command value).
  rewrite Hb, bind_lift_Ret. unfold try_except.
  match goal with |- context [match ?b s with _ => _ end] =>
    destruct (b s) as [[a|e'|] s1] end; simpl; done.
Qed.

Lemma writeFunction_same_registers fuel command value :
  keeps same_registers (writeFunction fuel command value).
Proof.
  intros s. pose proof (writeFunction_state fuel command value s) as H.
  destruct (_ && _).
  - apply inbound_only_same_registers in H. destruct H as [H1 H2].
    split; [rewrite H1 | rewrite H2]; reflexivity.
  - rewrite H. reflexivity.
Qed.
(** ** Decoding *)

Lemma py_eq_int a b : py_eq (PInt a) (PInt b) = (a =? b).
Proof. reflexivity. Qed.

Lemma MUL_lookup command :
  MUL !! command = None ∨ MUL !! command = Some (PInt 1) ∨
  MUL !! command = Some (PFloat 1000) ∨ MUL !! command = Some (PFloat 100).
Proof.
  unfold MUL, dict. cbn [fold_left fst snd].
  repeat (rewrite lookup_insert; case_decide; [auto|]).
  rewrite lookup_empty. auto.
Qed.

(** The scale is fetched without failure, and the division is the float
    division by [scale command]. *)
Lemma fetch_scale {S} command (s : S) :
  ∃ mult,
    try_except (dict_get MUL command) is_Exception
      (fun _ => ret (PFloat 1000)) s = (Ret mult, s) ∧
    ∀ n, truediv_int n mult = Ret (PrimFloat.div (float_of_Z n) (scale command)).
Proof.
  unfold try_except, dict_get, scale.
  destruct (MUL_lookup command) as [E|[E|[E|E]]]; rewrite E; simpl; eauto.
Qed.

Lemma int_from_bytes_big_3 b3 b4 b5 :
  int_from_bytes_big [b3; b4; b5] = b3 * 65536 + b4 * 256 + b5.
Proof. unfold int_from_bytes_big. simpl. lia. Qed.

(** [getVal]'s decode step on eight bytes. *)
Lemma decode_frame8 {S} (s : S) b0 b1 b2 b3 b4 b5 b6 b7 c :
  decode_response (PBytes [b0;b1;b2;b3;b4;b5;b6;b7]) c s =
  if (b0 =? 0xCA) && (b1 =? 0xCB) && (b6 =? 0xCE) && (b7 =? 0xCF) && (b2 =? c)
  then
    if (c =? TIME) || (c =? TIMER) then (time b3 b4 b5, s)
    else (Ret (PFloat (PrimFloat.div (float_of_Z (b3 * 65536 + b4 * 256 + b5)) (scale c))), s)
  else (Ret (PBool false), s).
Proof.
  destruct (fetch_scale c s) as (mult & Em & Ed).
  unfold decode_response, por, pand, py_len, py_item, bind, ret, lift, getitem; simpl.
  change (slice [b0; b1; b2; b3; b4; b5; b6; b7] 3 6) with [b3; b4; b5].
  rewrite int_from_bytes_big_3.
  rewrite !py_eq_int.
  destruct (b0 =? 202); simpl; [|done].
  destruct (b1 =? 203); simpl; [|done].
  destruct (b6 =? 206); simpl; [|done].
  destruct (b7 =? 207); simpl; [|done].
  destruct (b2 =? c); simpl; [|done].
  unfold ret in Em. rewrite Em. rewrite Ed. by destruct (_ || _).
Qed.

Lemma decode_None {S} (s : S) c : decode_response PNone c s = (Ret (PBool false), s).
Proof. reflexivity. Qed.

Lemma decode_False {S} (s : S) c :
  decode_response (PBool false) c s = (Ret (PBool false), s).
Proof. reflexivity. Qed.

(** Fewer than eight bytes are never accepted, whatever they are. *)
Lemma decode_short {S} (s : S) bs c :
  (length bs < 8)%nat → decode_response (PBytes bs) c s = (Ret (PBool false), s).
Proof.
  intros Hl.
  do 8 (destruct bs as [|? bs];
        [ unfold decode_response, por, pand, py_len, py_item, bind, ret, lift,
            getitem; simpl; rewrite ?py_eq_int;
          repeat (destruct (_ =? _); simpl); reflexivity |]).
  simpl in Hl. lia.
Qed.

Lemma valid_frame8 b0 b1 b2 b3 b4 b5 b6 b7 c :
  valid_frame [b0; b1; b2; b3; b4; b5; b6; b7] c ↔
  b0 = 0xCA ∧ b1 = 0xCB ∧ b6 = 0xCE ∧ b7 = 0xCF ∧ b2 = c.
Proof.
  unfold valid_frame. simpl. split.
  - intros (_ & [= -> ->] & [= -> ->] & [= ->]). done.
  - intros (-> & -> & -> & -> & ->). repeat split; lia.
Qed.

(** The decode step on what an exchange hands over: [False], unless the
    bytes are a well-formed frame for the command. *)
Lemma decode_response_cases {S} (s : S) (r : pyval) (command : Z) :
  exchange_result r →
  decode_response r command s = (Ret (PBool false), s) ∨
  ∃ bs, r = PBytes bs ∧ valid_frame bs command.
Proof.
  intros [| |bs Hl].
  - left. apply decode_None.
  - left. apply decode_False.
  - destruct (decide (length bs < 8)%nat) as [Hs|Hs].
    + left. by apply decode_short.
    + do 8 (destruct bs as [|? bs]; [simpl in Hs; lia|]).
      destruct bs; [|simpl in Hl; lia].
      rewrite decode_frame8.
      destruct (_ && _) eqn:E; [|by left].
      right. eexists; split; [reflexivity|].
      apply valid_frame8. repeat (apply andb_prop in E as [E ?]).
      repeat split; by apply Z.eqb_eq.
Qed.

(** C3: a response is accepted only if it has at least eight bytes, starts
    with 0xCA 0xCB, ends with 0xCE 0xCF and echoes the queried command in
    its third byte.  For everything else an exchange can hand over (no
    response, the failure value of a transport error, an empty read, a lone
    0x6F acknowledgment, a short or mismatching frame) the decode step of
    [getVal] returns [False]; it does not raise. *)
Theorem getVal_accepts_only_valid_frames {S} (s : S) (r : pyval) (command : Z) :
  exchange_result r →
  (decode_response r command s = (Ret (PBool false), s) ∨
   ∃ bs, r = PBytes bs ∧ valid_frame bs command) ∧
  decode_response (PBytes []) command s = (Ret (PBool false), s) ∧
  decode_response (PBytes [0x6F]) command s = (Ret (PBool false), s).
Proof.
  intros Hr. split; [by apply decode_response_cases|].
  split; apply decode_short; simpl; lia.
Qed.

(** The acknowledgment byte alone and the empty read, spelled out. *)
Lemma decode_ack_only {S} (s : S) command :
  decode_response (PBytes [0x6F]) command s = (Ret (PBool false), s) ∧
  decode_response (PBytes []) command s = (Ret (PBool false), s).
Proof. split; apply decode_short; simpl; lia. Qed.

Lemma getVal_Ret fuel command self r self' :
  writeFunction fuel command [0; 0] self = (Ret r, self') →
  getVal fuel command self = decode_response r command self'.
Proof. intros E. unfold getVal. by rewrite (bind_Ret _ _ _ _ _ E). Qed.

(** C7: for a register other than the two durations, a well-formed frame
    decodes to the big-endian 24-bit integer of its payload divided by the
    register's scale, which is 1000 when [MUL] has no entry for it; the
    voltage frame with payload 00 03 E8 decodes to 1.0. *)
Theorem getVal_scaled_big_endian {S} (s : S) (command p0 p1 p2 : Z) :
  command ≠ TIME → command ≠ TIMER →
  is_byte p0 = true → is_byte p1 = true → is_byte p2 = true →
  let raw := p0 * 2 ^ 16 + p1 * 2 ^ 8 + p2 in
  0 <= raw < 2 ^ 24 ∧
  decode_response (PBytes [0xCA; 0xCB; command; p0; p1; p2; 0xCE; 0xCF]) command s
    = (Ret (PFloat (PrimFloat.div (float_of_Z raw) (scale command))), s) ∧
  (MUL !! command = None → scale command = 1000%float) ∧
  decode_response (PBytes [0xCA; 0xCB; 0x11; 0x00; 0x03; 0xE8; 0xCE; 0xCF]) VOLTAGE s
    = (Ret (PFloat 1), s).
Proof.
  intros Ht Htr H0 H1 H2 raw. subst raw.
  unfold is_byte in *. split; [lia|]. split; [|split].
  - rewrite decode_frame8, !Z.eqb_refl. simpl.
    apply Z.eqb_neq in Ht, Htr. by rewrite Ht, Htr.
  - intros E. unfold scale. by rewrite E.
  - rewrite decode_frame8. reflexivity.
Qed.

(** C5: when the exchange of a register read fails (nothing came back, the
    transport raised and [writeFunction] reported [False], or what came
    back is not a well-formed frame for the register), [update_val] returns
    normally and the register values and the cursor are as before. *)
Theorem failed_read_keeps_state fuel (key : string) code self r self' :
  KEY_CMDS !! key = Some code →
  writeFunction fuel code [0; 0] self = (Ret r, self') →
  (∀ bs, r = PBytes bs → ¬ valid_frame bs code) →
  update_val fuel key self = (Ret tt, self') ∧
  data self' = data self ∧ aux_index self' = aux_index self.
Proof.
  intros Hk Hw Hbad.
  assert (Hd : decode_response r code self' = (Ret (PBool false), self')).
  { destruct (decode_response_cases self' r code) as [E|(bs & -> & Hv)];
      [|done|].
    - eapply writeFunction_exchange_result; eauto.
    - by destruct (Hbad bs). }
  split.
  - unfold update_val, dict_get. rewrite Hk. rewrite bind_ret_l.
    rewrite (bind_Ret _ _ _ _ _ (eq_trans (getVal_Ret _ _ _ _ _ Hw) Hd)).
    reflexivity.
  - pose proof (writeFunction_same_registers fuel code [0; 0] self) as H.
    rewrite Hw in H. exact H.
Qed.

Lemma getVal_accepts_only_valid_frames_witness :
  (decode_response (PBytes [0xCA; 0xCB; 0x11; 0x00; 0x03; 0xE8; 0xCE]) VOLTAGE
     (__init__ (link []))
     = (Ret (PBool false), __init__ (link [])) ∨
   ∃ bs, PBytes [0xCA; 0xCB; 0x11; 0x00; 0x03; 0xE8; 0xCE] = PBytes bs ∧
         valid_frame bs VOLTAGE) ∧
  decode_response (PBytes []) VOLTAGE (__init__ (link []))
    = (Ret (PBool false), __init__ (link [])) ∧
  decode_response (PBytes [0x6F]) VOLTAGE (__init__ (link []))
    = (Ret (PBool false), __init__ (link [])).
Proof.
  apply (getVal_accepts_only_valid_frames (__init__ (link []))
           (PBytes [0xCA; 0xCB; 0x11; 0x00; 0x03; 0xE8; 0xCE]) VOLTAGE).
  apply exchange_bytes. simpl. lia.
Defined.

Lemma getVal_scaled_big_endian_witness :
  0 <= 0x12 * 2 ^ 16 + 0x34 * 2 ^ 8 + 0x56 < 2 ^ 24 ∧
  decode_response (PBytes [0xCA; 0xCB; CLEARDATA; 0x12; 0x34; 0x56; 0xCE; 0xCF])
    CLEARDATA (__init__ (link []))
    = (Ret (PFloat (PrimFloat.div (float_of_Z (0x12 * 2 ^ 16 + 0x34 * 2 ^ 8 + 0x56))
                                  (scale CLEARDATA))),
       __init__ (link [])) ∧
  (MUL !! CLEARDATA = None → scale CLEARDATA = 1000%float) ∧
  decode_response (PBytes [0xCA; 0xCB; 0x11; 0x00; 0x03; 0xE8; 0xCE; 0xCF])
    VOLTAGE (__init__ (link []))
    = (Ret (PFloat 1), __init__ (link [])).
Proof.
  apply (getVal_scaled_big_endian (__init__ (link [])) CLEARDATA 0x12 0x34 0x56);
    by vm_compute.
Defined.

Lemma failed_read_keeps_state_witness :
  let self := __init__ (short_link [0x6F]) in
  let self' := (writeFunction 10 VOLTAGE [0; 0] self).2 in
  update_val 10 "voltage" self = (Ret tt, self') ∧
  data self' = data self ∧ aux_index self' = aux_index self.
Proof.
  intros self self'.
  refine (failed_read_keeps_state 10 "voltage" VOLTAGE self (PBool false) self' _ _ _);
    [by vm_compute | by vm_compute | intros bs; discriminate].
Defined.

(** ** Dict displays *)

Section Dict.
Context {K V : Type} `{Countable K}.
Implicit Types (kvs : list (K * V)) (m : gmap K V).

Let ins := fun m (kv : K * V) => <[kv.1 := kv.2]> m.

Lemma fold_insert_lookup_Some kvs m k v :
  fold_left ins kvs m !! k = Some v → (k, v) ∈ kvs ∨ m !! k = Some v.
Proof.
  revert m. induction kvs as [|[k' v'] kvs IH]; intros m; simpl; [auto|].
  intros E. apply IH in E as [E|E].
  - left. by right.
  - unfold ins in E. simpl in E. apply lookup_insert_Some in E as [[<- <-]|[_ E]].
    + left. by left.
    + by right.
Qed.

Lemma fold_insert_is_Some kvs m k :
  k ∈ kvs.*1 ∨ is_Some (m !! k) → is_Some (fold_left ins kvs m !! k).
Proof.
  revert m. induction kvs as [|[k' v'] kvs IH]; intros m; simpl.
  - intros [E|E]; [by apply elem_of_nil in E | done].
  - intros [E|E]; apply IH.
    + apply elem_of_cons in E as [->|E]; [right|by left].
      unfold ins. simpl. rewrite lookup_insert_eq. eauto.
    + right. unfold ins. simpl. rewrite lookup_insert_is_Some.
      destruct (decide (k' = k)); auto.
Qed.

Lemma dict_lookup_Some kvs k v : dict kvs !! k = Some v → (k, v) ∈ kvs.
Proof.
  intros E. apply fold_insert_lookup_Some in E as [E|E]; [done|].
  by rewrite lookup_empty in E.
Qed.

Lemma dict_lookup_is_Some kvs k : k ∈ kvs.*1 → is_Some (dict kvs !! k).
Proof. intros E. apply fold_insert_is_Some. by left. Qed.

End Dict.

(** ** Transport setup *)

Lemma set_attr_closed f self :
  session_open (device self) = false →
  on_device (set_attr f) self = (Raise VisaIOError, self).
Proof.
  intros E. unfold on_device, set_attr. rewrite E. by rewrite set_device_id.
Qed.

(** On a link that refuses the first assignment, the handler is reached, the
    name in its [except] clause is looked up, and the [NameError] of that
    lookup is what the caller gets. *)
Lemma setup_device_raises self :
  session_open (device self) = false →
  __setup_device self = (Raise NameError, self).
Proof.
  intros E. unfold __setup_device, try_except_name.
  rewrite (bind_Raise _ _ _ _ _ (set_attr_closed _ _ E)). reflexivity.
Qed.

(** C9: configuring the serial parameters of a link whose session is gone
    raises inside [__setup_device]; the [except e:] clause then raises
    [NameError], which leaves the method instead of a normal return. *)
Theorem setup_device_propagates :
  __setup_device (__init__ dead_link) = (Raise NameError, __init__ dead_link).
Proof. apply setup_device_raises. reflexivity. Qed.

(** When every assignment succeeds the method returns and the line is
    configured as section 6 of the specification gives it. *)
Lemma setup_device_open self :
  session_open (device self) = true →
  ∃ self', __setup_device self = (Ret tt, self') ∧
    settings (device self') =
      {| timeout := 500; baud_rate := 9600; data_bits := 8;
         stop_bits := StopBits_one; parity := Parity_none;
         flow_control := ControlFlow_none |}.
Proof.
  destruct self as [[o sr rp st ib w] ai dt]. simpl. intros ->.
  eexists. split; reflexivity.
Qed.

(** ** Frames sent by the read and write paths *)

#[local] Instance link_kept_refl : Reflexive link_kept.
Proof. intros s. by split. Qed.

#[local] Instance link_kept_trans : Transitive link_kept.
Proof. intros s1 s2 s3 [] []. split; etransitivity; eassumption. Qed.

Ltac pure_tac :=
  repeat first
    [ match goal with |- Reflexive _ => apply _ end
    | match goal with |- Transitive _ => apply _ end
    | match goal with |- ∀ _, _ => intro end
    | match goal with |- keeps _ (match ?x with _ => _ end) => destruct x end
    | apply keeps_ret | apply keeps_raise | apply keeps_diverge
    | apply keeps_lift | apply keeps_get | apply keeps_dict_get
    | apply keeps_bind | apply keeps_try_except
    | apply keeps_por | apply keeps_pand ].

(** The decode step does not act on the driver. *)
Lemma decode_response_pure {S} (r : pyval) command :
  keeps (@eq S) (decode_response r command).
Proof.
  unfold decode_response, py_len, py_item. pure_tac.
Qed.

Lemma writeFunction_written fuel command value s :
  written (device (writeFunction fuel command value s).2) =
  written (device s) ++
    (if forallb is_byte (outbound command value) && session_open (device s)
     then [outbound command value] else []).
Proof.
  pose proof (writeFunction_state fuel command value s) as H.
  destruct (_ && _).
  - by rewrite (io_written _ _ H).
  - by rewrite H, app_nil_r.
Qed.

Lemma writeFunction_link_kept fuel command value :
  keeps link_kept (writeFunction fuel command value).
Proof.
  intros s. pose proof (writeFunction_state fuel command value s) as H.
  destruct (_ && _).
  - destruct H. by split.
  - rewrite H. reflexivity.
Qed.

Lemma getVal_device fuel command s :
  (getVal fuel command s).2 = (writeFunction fuel command [0; 0] s).2.
Proof.
  unfold getVal, bind.
  destruct (writeFunction fuel command [0; 0] s) as [[r|e|] s1]; try reflexivity.
  symmetry. apply decode_response_pure.
Qed.

Lemma KEY_CMDS_values (key : string) code :
  KEY_CMDS !! key = Some code → 0x10 <= code <= 0x19.
Proof.
  intros E. apply dict_lookup_Some in E.
  repeat (apply elem_of_cons in E as [E|E];
          [injection E as _ ->; by compute|]).
  by apply elem_of_nil in E.
Qed.

Lemma query_bytes code : 0x10 <= code <= 0x19 → forallb is_byte (query code) = true.
Proof. intros Hc. unfold query, outbound, is_byte. simpl. lia. Qed.

(** A register read sends exactly the query frame of the register when the
    session is open, and nothing otherwise. *)
Lemma update_val_written fuel (key : string) code s :
  KEY_CMDS !! key = Some code →
  written (device (update_val fuel key s).2) =
  written (device s) ++ (if session_open (device s) then [query code] else []).
Proof.
  intros Hk. unfold update_val, dict_get. rewrite Hk, bind_ret_l.
  pose proof (getVal_device fuel code s) as Hg.
  pose proof (writeFunction_written fuel code [0; 0] s) as Hw.
  fold (query code) in Hw.
  rewrite (query_bytes _ (KEY_CMDS_values _ _ Hk)) in Hw. simpl in Hw.
  unfold bind. destruct (getVal fuel code s) as [[v|e|] s1]; simpl in Hg; subst s1;
    try exact Hw.
  destruct (negb (is_False v)); exact Hw.
Qed.

Lemma update_val_link_kept fuel key : keeps link_kept (update_val fuel key).
Proof.
  intros s. unfold update_val, dict_get.
  destruct (KEY_CMDS !! key) as [code|]; [|reflexivity].
  rewrite bind_ret_l.
  pose proof (getVal_device fuel code s) as Hg.
  pose proof (writeFunction_link_kept fuel code [0; 0] s) as Hw.
  unfold bind. destruct (getVal fuel code s) as [[v|e|] s1]; simpl in Hg; subst s1;
    try exact Hw.
  destruct (negb (is_False v)); simpl; [|exact Hw].
  destruct Hw. by split.
Qed.

Lemma update_vals_link_kept fuel keys : keeps link_kept (update_vals fuel keys).
Proof. apply keeps_for_each; [apply _..|]. apply update_val_link_kept. Qed.

(** Reading a list of registers on an open link sends their queries in
    order, up to the point where the run stops. *)
Lemma update_vals_written fuel (keys : list string) s s' :
  session_open (device s) = true →
  Forall (fun key => is_Some (KEY_CMDS !! key)) keys →
  update_vals fuel keys s = (Ret tt, s') →
  written (device s') =
  written (device s) ++ omap (fun key => query <$> KEY_CMDS !! key) keys.
Proof.
  revert s. induction keys as [|key keys IH]; intros s Ho Hk E; simpl in *.
  - injection E as <-. by rewrite app_nil_r.
  - apply Forall_cons in Hk as [[code Hc] Hk].
    apply bind_inv_Ret in E as ([] & s1 & E1 & E2).
    pose proof (update_val_written fuel key code s Hc) as Hw.
    pose proof (update_val_link_kept fuel key s) as Hl.
    rewrite E1 in Hw, Hl. simpl in Hw, Hl. rewrite Ho in Hw.
    rewrite (IH s1); [|by rewrite (lk_session_open _ _ Hl)|done|done].
    rewrite Hw, Hc. simpl. by rewrite <- app_assoc.
Qed.

(** ** The command executor *)

(** The payload conversion of [setVal] does not act on the driver. *)
Lemma setVal_state fuel code value s :
  (setVal fuel code value s).2 = s ∨
  ∃ payload, (setVal fuel code value s).2 = (writeFunction fuel code payload s).2.
Proof.
  unfold setVal.
  match goal with |- context [bind ?c ?k s] =>
    assert (Hc : keeps eq c) by pure_tac;
    specialize (Hc s); destruct (c s) as [[payload|e|] s1] eqn:Ec end;
    simpl in Hc; subst s1.
  - right. exists payload. rewrite (bind_Ret _ _ _ _ _ Ec). unfold bind.
    by destruct (writeFunction fuel code payload s) as [[r|e|] s1].
  - left. by rewrite (bind_Raise _ _ _ _ _ Ec).
  - left. by rewrite (bind_Diverge _ _ _ _ Ec).
Qed.

Lemma setVal_link_kept fuel code value : keeps link_kept (setVal fuel code value).
Proof.
  intros s. destruct (setVal_state fuel code value s) as [->|[payload ->]];
    [reflexivity | apply writeFunction_link_kept].
Qed.






Section ExecutorFacts.
Context `{Instrument}.

Lemma COMMANDS_recognized cmd code :
  COMMANDS !! cmd = Some code →
  cmd ∈ [COMMAND_ENABLE; COMMAND_SET_VOLTAGE; COMMAND_SET_CURRENT;
         COMMAND_SET_TIMER; COMMAND_RESET].
Proof.
  intros E. apply dict_lookup_Some in E.
  apply (list_elem_of_fmap_2 fst) in E. exact E.
Qed.

Lemma COMMANDS_lookup_None cmd :
  cmd ≠ COMMAND_ENABLE → cmd ≠ COMMAND_SET_VOLTAGE → cmd ≠ COMMAND_SET_CURRENT →
  cmd ≠ COMMAND_SET_TIMER → cmd ≠ COMMAND_RESET →
  COMMANDS !! cmd = None.
Proof.
  intros H1 H2 H3 H4 H5.
  destruct (COMMANDS !! cmd) as [code|] eqn:E; [|done].
  apply COMMANDS_recognized in E.
  repeat (apply elem_of_cons in E as [E|E]; [done|]).
  by apply elem_of_nil in E.
Qed.

(** Every recognised command has a verification register, and that register
    can be read. *)
Lemma VERIFY_CMD_recognized cmd code :
  COMMANDS !! cmd = Some code →
  ∃ key vcode, VERIFY_CMD !! cmd = Some key ∧ KEY_CMDS !! key = Some vcode.
Proof.
  intros E. apply COMMANDS_recognized in E.
  destruct (dict_lookup_is_Some
    [ (COMMAND_ENABLE, "is_on"); (COMMAND_SET_VOLTAGE, "set_voltage");
      (COMMAND_SET_CURRENT, "set_current"); (COMMAND_SET_TIMER, "set_timer");
      (COMMAND_RESET, "cap_ah") ]%string cmd E) as [key Hk].
  exists key. fold VERIFY_CMD in Hk.
  pose proof (dict_lookup_Some _ _ _ Hk) as Hin.
  repeat (apply elem_of_cons in Hin as [Hin|Hin];
          [injection Hin as _ ->; by eexists|]).
  by apply elem_of_nil in Hin.
Qed.

(** C10: a command identifier other than the five of [COMMANDS] makes
    [command] return [False] at once; the driver and its link are exactly
    as before, so nothing was written and nothing read, and register
    values and cursor are untouched. *)
Theorem unrecognized_command_is_noop fuel (cmd : string) (value : pyval) self :
  cmd ≠ COMMAND_ENABLE → cmd ≠ COMMAND_SET_VOLTAGE → cmd ≠ COMMAND_SET_CURRENT →
  cmd ≠ COMMAND_SET_TIMER → cmd ≠ COMMAND_RESET →
  command fuel cmd value self = (Ret (PBool false), self).
Proof.
  intros H1 H2 H3 H4 H5. unfold command.
  rewrite bool_decide_eq_false_2; [reflexivity|].
  rewrite elem_of_dom, COMMANDS_lookup_None by done.
  by intros [? ?].
Qed.

End ExecutorFacts.

Lemma unrecognized_command_witness :
  @command bench_instrument 10 "calibrate" (PFloat 1.5) (__init__ (link []))
  = (Ret (PBool false), __init__ (link [])).
Proof.
  apply (@unrecognized_command_is_noop bench_instrument); discriminate.
Defined.

(** *** Counting the attempts *)







Section Attempts.
Context `{Instrument}.



(** A turn whose read-back equals the requested value is the last one. *)
Lemma command_loop_stops fuel i range cmd value code key vcode self x self1 seen self2 :
  COMMANDS !! cmd = Some code →
  VERIFY_CMD !! cmd = Some key →
  KEY_CMDS !! key = Some vcode →
  setVal fuel code value self = (Ret x, self1) →
  getVal fuel vcode self1 = (Ret seen, self2) →
  is_False seen = false →
  py_eq seen value = true →
  command_loop fuel (i :: range) cmd value self
  = (Ret tt, set_data self2 (<[key := seen]> (data self2))).
Proof.
  intros Hc Hv Hk Hs Hg Hf He. simpl. unfold dict_get at 1. rewrite Hc, bind_ret_l.
  rewrite (bind_Ret _ _ _ _ _ Hs).
  unfold dict_get at 1. rewrite Hv, bind_ret_l.
  assert (Hu : update_val fuel key self1
               = (Ret tt, set_data self2 (<[key := seen]> (data self2)))).
  { unfold update_val, dict_get. rewrite Hk, bind_ret_l.
    rewrite (bind_Ret _ _ _ _ _ Hg). by rewrite Hf. }
  rewrite (bind_Ret _ _ _ _ _ Hu).
  unfold dict_get at 1. rewrite Hv, bind_ret_l.
  unfold bind at 1, get. unfold dict_get. simpl.
  rewrite lookup_insert_eq, bind_ret_l. by rewrite He.
Qed.


End Attempts.


(** *** The reset command *)

Lemma command_loop_link_kept `{Instrument} fuel range cmd value :
  keeps link_kept (command_loop fuel range cmd value).
Proof.
  induction range as [|i range IH]; simpl.
  - apply keeps_ret; apply _.
  - repeat first
      [ match goal with |- Reflexive _ => apply _ end
      | match goal with |- Transitive _ => apply _ end
      | match goal with |- ∀ _, _ => intro end
      | match goal with |- keeps _ (if ?b then _ else _) => destruct b end
      | apply IH | apply setVal_link_kept | apply update_val_link_kept
      | apply keeps_ret | apply keeps_get | apply keeps_dict_get
      | apply keeps_bind ].
Qed.

Lemma aux_queries :
  omap (fun key => query <$> KEY_CMDS !! key) AUX_VALS = query <$> aux_codes.
Proof. reflexivity. Qed.

Lemma AUX_VALS_readable : Forall (fun key => is_Some (KEY_CMDS !! key)) AUX_VALS.
Proof. repeat constructor; by eexists. Qed.

(** C8 (as the code has it): once the retry loop of a recognised command
    has ended, by a verified read-back or by running out of attempts alike,
    [command] re-reads every auxiliary register if the command is the reset
    command, sending their five queries in the order of [AUX_VALS] on an
    open link; for any other command it does nothing after the loop. *)
Theorem reset_refreshes_aux `{Instrument} fuel (cmd : string) (value : pyval)
    code self r self' :
  COMMANDS !! cmd = Some code →
  command fuel cmd value self = (Ret r, self') →
  ∃ self1,
    command_loop fuel [0; 1; 2] cmd value self = (Ret tt, self1) ∧
    if bool_decide (cmd = COMMAND_RESET)
    then update_vals fuel AUX_VALS self1 = (Ret tt, self') ∧
         (session_open (device self) = true →
          written (device self') = written (device self1) ++ (query <$> aux_codes))
    else self' = self1.
Proof.
  intros Hc E. unfold command in E.
  rewrite bool_decide_eq_true_2 in E by (apply elem_of_dom; eauto). cbn [negb] in E.
  apply bind_inv_Ret in E as ([] & self1 & E1 & E).
  apply bind_inv_Ret in E as ([] & self2 & E2 & E).
  injection E as <- <-. exists self1. split; [done|].
  case_bool_decide.
  - split; [done|]. intros Ho. rewrite <- aux_queries.
    apply (update_vals_written fuel); [|apply AUX_VALS_readable|done].
    pose proof (command_loop_link_kept fuel [0; 1; 2] cmd value self) as Hl.
    rewrite E1 in Hl. simpl in Hl. by rewrite (lk_session_open _ _ Hl).
  - by injection E2.
Qed.

Lemma reset_refreshes_aux_witness :
  let self := __init__ (link []) in
  ∃ self1,
    @command_loop bench_instrument 10 [0; 1; 2] "reset" (PFloat 0) self
    = (Ret tt, self1) ∧
    @update_vals 10 AUX_VALS self1
    = (Ret tt, (@command bench_instrument 10 "reset" (PFloat 0) self).2) ∧
    (session_open (device self) = true →
     written (device (@command bench_instrument 10 "reset" (PFloat 0) self).2)
     = written (device self1) ++ (query <$> aux_codes)).
Proof.
  intros self.
  refine (@reset_refreshes_aux bench_instrument 10 "reset" (PFloat 0) RESETCNT
            self PNone (@command bench_instrument 10 "reset" (PFloat 0) self).2
            _ _); by vm_compute.
Defined.

(** C8, as the specification words it, fails: a reset whose three
    read-backs of the capacity all fail to match the requested value still
    sends the five auxiliary queries. *)
Lemma reset_refreshes_aux_unverified :
  let self := __init__ (link []) in
  let self' := (@command bench_instrument 10 "reset" (PInt 1) self).2 in
  data self' !! "cap_ah"%string = Some (PFloat 0) ∧
  py_eq (PFloat 0) (PInt 1) = false ∧
  sets_issued self' = 3%nat ∧
  aux_refreshed (written (device self')) = aux_codes.
Proof. by vm_compute. Qed.

(** ** The polling scheduler *)

Lemma clear_device_inbound_only : keeps inbound_only __clear_device.
Proof. unfold __clear_device. keeps_tac. Qed.

Lemma next_aux_spec self :
  0 <= aux_index self < 5 →
  __next_aux self
  = (Ret ((aux_index self + 1) mod 5),
     set_aux_index self ((aux_index self + 1) mod 5)).
Proof.
  intros Hi. unfold __next_aux.
  change (Z.of_nat (length AUX_VALS)) with 5.
  unfold bind, modify, get, ret. simpl.
  destruct (5 <=? aux_index self + 1) eqn:E; simpl.
  - assert (aux_index self = 4) as -> by lia. reflexivity.
  - rewrite Z.mod_small by lia. reflexivity.
Qed.

Lemma AUX_VALS_at j :
  0 <= j < 5 →
  ∃ key, getitem AUX_VALS j = Ret key ∧ KEY_CMDS !! key = Some (aux_code_at j).
Proof.
  intros Hj.
  assert (j = 0 ∨ j = 1 ∨ j = 2 ∨ j = 3 ∨ j = 4) as [->|[->|[->|[->| ->]]]] by lia;
    eexists; split; reflexivity.
Qed.

Lemma FREQ_VALS_readable : Forall (fun key => is_Some (KEY_CMDS !! key)) FREQ_VALS.
Proof. repeat constructor; by eexists. Qed.


Lemma aux_code_at_mod i : aux_code_at (i mod 5) = aux_code_at i.
Proof. unfold aux_code_at. by rewrite Z.mod_mod. Qed.











(** ** Step budgets *)

Section Extends.
Context {S : Type}.

Lemma extends_refl {A} (c : prog S A) : extends c c.
Proof. by intros s _. Qed.

Lemma extends_bind {A B} (c c' : prog S A) (k k' : A -> prog S B) :
  extends c c' → (∀ a, extends (k a) (k' a)) → extends (bind c k) (bind c' k').
Proof.
  intros Hc Hk s Hd. unfold bind in *.
  destruct (c s) as [[a|e|] s1] eqn:Ec; simpl in Hd.
  - rewrite (Hc s) by (by rewrite Ec). rewrite Ec. by apply Hk.
  - rewrite (Hc s) by (by rewrite Ec). by rewrite Ec.
  - done.
Qed.

Lemma extends_try_except {A} (body body' : prog S A) handles handler handler' :
  extends body body' → (∀ e, extends (handler e) (handler' e)) →
  extends (try_except body handles handler) (try_except body' handles handler').
Proof.
  intros Hb Hh s Hd. unfold try_except in *.
  destruct (body s) as [[a|e|] s1] eqn:Eb; simpl in Hd.
  - rewrite (Hb s) by (by rewrite Eb). by rewrite Eb.
  - rewrite (Hb s) by (by rewrite Eb). rewrite Eb.
    destruct (handles e); [by apply Hh | done].
  - done.
Qed.

End Extends.

Ltac extends_tac :=
  repeat first
    [ match goal with |- ∀ _, _ => intro end
    | match goal with |- extends (if ?b then _ else _) _ => destruct b end
    | match goal with H : _ |- _ => apply H; lia end
    | apply extends_bind | apply extends_try_except | apply extends_refl ].

(** A larger budget changes nothing for a run that finished. *)
Lemma seek_sync_extends fuel fuel' bytee :
  (fuel <= fuel')%nat → extends (seek_sync fuel bytee) (seek_sync fuel' bytee).
Proof.
  revert fuel' bytee. induction fuel as [|fuel IH]; intros fuel' bytee Hle.
  - intros s Hd. by destruct Hd.
  - destruct fuel' as [|fuel']; [lia|]. simpl. extends_tac.
Qed.

Lemma resync_extends fuel fuel' bytee :
  (fuel <= fuel')%nat → extends (resync fuel bytee) (resync fuel' bytee).
Proof.
  revert fuel' bytee. induction fuel as [|fuel IH]; intros fuel' bytee Hle.
  - intros s Hd. by destruct Hd.
  - destruct fuel' as [|fuel']; [lia|]. simpl.
    apply extends_bind; [apply extends_refl|]. intros [|]; [|apply extends_refl].
    apply extends_bind; [apply extends_refl|]. intros b.
    apply extends_bind; [apply seek_sync_extends; lia|]. intros b'.
    apply extends_bind; [apply extends_refl|]. intros more. apply IH. lia.
Qed.

Lemma resync_frame_extends fuel fuel' bytee :
  (fuel <= fuel')%nat → extends (resync_frame fuel bytee) (resync_frame fuel' bytee).
Proof.
  intros Hle. apply extends_bind; [by apply resync_extends|].
  intros b. apply extends_refl.
Qed.

Lemma writeFunction_extends fuel fuel' command value :
  (fuel <= fuel')%nat →
  extends (writeFunction fuel command value) (writeFunction fuel' command value).
Proof.
  intros Hle. unfold writeFunction.
  pose proof (fun b => resync_frame_extends fuel fuel' b Hle) as Hr.
  repeat first
    [ match goal with |- ∀ _, _ => intro end
    | match goal with |- extends (if ?b then _ else _) _ => destruct b end
    | apply Hr
    | apply extends_bind | apply extends_try_except | apply extends_refl ].
Qed.

(** If some budget lets an exchange finish, every budget gives that result
    or runs out. *)
Lemma writeFunction_settled fuel0 fuel command value s :
  (writeFunction fuel0 command value s).1 ≠ Diverge →
  (writeFunction fuel command value s).1 = Diverge ∨
  writeFunction fuel command value s = writeFunction fuel0 command value s.
Proof.
  intros H0.
  destruct (writeFunction fuel command value s).1 eqn:E; [right|right|by left].
  - rewrite <- (writeFunction_extends fuel0 (max fuel0 fuel) command value
                  ltac:(lia) s H0).
    symmetry. apply writeFunction_extends; [lia|]. by rewrite E.
  - rewrite <- (writeFunction_extends fuel0 (max fuel0 fuel) command value
                  ltac:(lia) s H0).
    symmetry. apply writeFunction_extends; [lia|]. by rewrite E.
Qed.

(** ** Resynchronisation *)

(** With a sync byte in front, the inner loop reads nothing. *)
Lemma seek_sync_synced fuel bytee :
  head bytee = Some 0xCA → returns (seek_sync fuel bytee) (fun b => b = bytee).
Proof.
  intros Hh. destruct fuel as [|fuel]; simpl; [apply returns_diverge|].
  destruct bytee as [|b0 t]; [done|]. injection Hh as ->.
  intros s b s'. unfold bind, lift, getitem. simpl. by intros [= <- _].
Qed.

(** Once [bytee] holds three bytes behind a sync byte, it only grows: the
    test [len(bytee) != 2] stays true and the loop cannot be left with a
    header. *)
Lemma resync_stuck fuel bytee :
  (3 <= length bytee)%nat → head bytee = Some 0xCA →
  returns (resync fuel bytee) (fun _ => False).
Proof.
  revert bytee. induction fuel as [|fuel IH]; intros bytee Hl Hh; simpl.
  - apply returns_diverge.
  - intros s b s'. unfold bind at 1. rewrite no_header_spec.
    rewrite bool_decide_eq_false_2 by (intros ->; simpl in Hl; lia).
    cbn [negb]. revert s b s'.
    replace (Z.of_nat (length bytee) =? 2) with false by (symmetry; lia).
    change (bind (ret bytee) ?k) with (k bytee). cbv beta.
    eapply returns_bind; [by apply seek_sync_synced|]. intros b1 ->.
    eapply returns_bind; [apply returns_True|]. intros more _.
    apply IH.
    + rewrite length_app. lia.
    + by destruct bytee.
Qed.

(** A sync byte directly followed by another one: the second is kept, but
    padded to two bytes, so the byte read next is the third of [bytee]. *)
Lemma resync_back_to_back fuel s x rest :
  session_open (device s) = true →
  inbuf (device s) = x :: rest →
  ∀ b s', resync fuel [0xCA; 0xCA] s ≠ (Ret b, s').
Proof.
  intros Ho Hi b s' E.
  destruct fuel as [|fuel]; [done|]. simpl in E.
  unfold bind at 1 in E. rewrite no_header_spec in E. simpl in E.
  apply bind_inv_Ret in E as (b0 & s0 & E0 & E).
  unfold bind, lift, getitem, ret in E0. simpl in E0. injection E0 as <- <-.
  apply bind_inv_Ret in E as (b1 & s1 & E1 & E).
  pose proof (seek_sync_synced fuel [0xCA; 0x00] eq_refl _ _ _ E1) as ->.
  assert (s1 = s) as ->.
  { destruct fuel; [done|]. simpl in E1. by injection E1. }
  apply bind_inv_Ret in E as (more & s2 & E2 & E).
  assert (more = [x]) as ->.
  { unfold on_device, read_bytes in E2. rewrite Ho, Hi in E2. simpl in E2.
    by injection E2. }
  by eapply (resync_stuck fuel [0xCA; 0x00; x]); [simpl; lia|done|exact E].
Qed.

(** C2: eight bytes of another message, then 0xCA 0xCA 0xCB and the rest
    of a voltage frame.  Whatever the step budget, the exchange never
    returns the frame: it runs out of budget, or it has read the whole
    stream without recognising the header and reports [False]. *)
Theorem back_to_back_sync_is_lost fuel :
  drop 9 back_to_back_stream = [0xCA; 0xCB; 0x11; 0x00; 0x03; 0xE8; 0xCE; 0xCF] ∧
  (writeFunction 100 VOLTAGE [0; 0] (__init__ (link back_to_back_stream))).1
    = Ret (PBool false) ∧
  ((writeFunction fuel VOLTAGE [0; 0] (__init__ (link back_to_back_stream))).1
     = Diverge ∨
   (writeFunction fuel VOLTAGE [0; 0] (__init__ (link back_to_back_stream))).1
     = Ret (PBool false) ∧
   inbuf (device (writeFunction fuel VOLTAGE [0; 0]
                    (__init__ (link back_to_back_stream))).2) = []).
Proof.
  split; [reflexivity|]. split; [vm_compute; reflexivity|].
  destruct (writeFunction_settled 100 fuel VOLTAGE [0; 0]
              (__init__ (link back_to_back_stream))) as [E|E].
  - vm_compute. discriminate.
  - by left.
  - right. rewrite E. vm_compute. by split.
Qed.

(** C1: a stray 0xCA at offset 1 and the header of the 1.000 V frame at
    offset 3, both within the first eight bytes read.  The bytes after the
    stray 0xCA are dropped with the rest of that read, the scan goes on
    with fresh bytes, and what the exchange returns, if the budget lets it
    return, is the 2.000 V frame that starts at offset 11. *)
Theorem header_after_stray_sync_is_skipped fuel :
  take 8 (drop 3 stray_sync_stream) = [0xCA; 0xCB; 0x11; 0x00; 0x03; 0xE8; 0xCE; 0xCF] ∧
  (writeFunction 100 VOLTAGE [0; 0] (__init__ (link stray_sync_stream))).1
    = Ret (PBytes (take 8 (drop 11 stray_sync_stream))) ∧
  ((writeFunction fuel VOLTAGE [0; 0] (__init__ (link stray_sync_stream))).1
     = Diverge ∨
   (writeFunction fuel VOLTAGE [0; 0] (__init__ (link stray_sync_stream))).1
     = Ret (PBytes [0xCA; 0xCB; 0x11; 0x00; 0x07; 0xD0; 0xCE; 0xCF])).
Proof.
  split; [reflexivity|]. split; [vm_compute; reflexivity|].
  destruct (writeFunction_settled 100 fuel VOLTAGE [0; 0]
              (__init__ (link stray_sync_stream))) as [E|E].
  - vm_compute. discriminate.
  - by left.
  - right. rewrite E. vm_compute. reflexivity.
Qed.

(** *** When the scan does find the header *)

Lemma scannable_after_header stream rest :
  scannable stream rest → after_header stream = Some rest.
Proof.
  induction 1 as [x tl rest Hx _ IH| rest | b tl rest Hb Hb' _ IH].
  - destruct tl as [|b tl']; [done|]. simpl in *.
    by rewrite (proj2 (Z.eqb_neq x 202) Hx).
  - reflexivity.
  - simpl. rewrite (proj2 (Z.eqb_neq b 203) Hb'). simpl.
    destruct tl as [|c tl']; [done|].
    by rewrite (proj2 (Z.eqb_neq b 202) Hb).
Qed.

Lemma read_bytes_exact n s bs rest :
  session_open (device s) = true →
  inbuf (device s) = bs ++ rest →
  length bs = n →
  on_device (read_bytes n) s = (Ret bs, with_inbuf s rest).
Proof.
  intros Ho Hi Hn. unfold on_device, read_bytes. rewrite Ho, Hi. simpl.
  rewrite bool_decide_eq_true_2 by (rewrite length_app; lia).
  subst n. by rewrite take_app_length, drop_app_length.
Qed.

Lemma with_inbuf_with_inbuf s a b : with_inbuf (with_inbuf s a) b = with_inbuf s b.
Proof. reflexivity. Qed.

Lemma with_inbuf_open s a :
  session_open (device (with_inbuf s a)) = session_open (device s).
Proof. reflexivity. Qed.

Lemma with_inbuf_inbuf s a : inbuf (device (with_inbuf s a)) = a.
Proof. reflexivity. Qed.

Lemma bind_cong {S A B} (c c' : prog S A) (k : A -> prog S B) s :
  c s = c' s → bind c k s = bind c' k s.
Proof. intros E. unfold bind. by rewrite E. Qed.

Lemma bind_assoc {S A B C} (c : prog S A) (k1 : A -> prog S B)
    (k2 : B -> prog S C) s :
  bind (bind c k1) k2 s = bind c (fun a => bind (k1 a) k2) s.
Proof. unfold bind. by destruct (c s) as [[a|e|] s1]. Qed.

Lemma seek_sync_step f z t s :
  z ≠ 0xCA →
  seek_sync (S f) (z :: t) s
  = (let* bytee := on_device (read_bytes 1) in seek_sync f bytee) s.
Proof.
  intros Hz. simpl. unfold bind at 1, lift, getitem. simpl.
  by rewrite (proj2 (Z.eqb_neq z 202) Hz).
Qed.

Lemma seek_sync_done f t s : seek_sync (S f) (0xCA :: t) s = (Ret (0xCA :: t), s).
Proof. reflexivity. Qed.

Lemma resync_done f s : resync (S f) [0xCA; 0xCB] s = (Ret [0xCA; 0xCB], s).
Proof. reflexivity. Qed.

Lemma resync_stray f b s :
  b ≠ 0xCB →
  resync (S f) [0xCA; b] s
  = (let* bytee := seek_sync f [b; 0x00] in
     let* more := on_device (read_bytes 1) in
     resync f (bytee ++ more)) s.
Proof.
  intros Hb. simpl. unfold bind at 1. rewrite no_header_spec.
  rewrite bool_decide_eq_false_2 by congruence. reflexivity.
Qed.

(** The seeking phase of one turn of the loop, and the turns after it. *)
Lemma seek_phase stream rest :
  scannable stream rest →
  ∀ f1 f2 z t s,
    z ≠ 0xCA →
    session_open (device s) = true →
    inbuf (device s) = stream →
    (length stream + 2 <= f1)%nat → (length stream + 2 <= f2)%nat →
    (let* b := seek_sync f1 (z :: t) in
     let* more := on_device (read_bytes 1) in
     resync f2 (b ++ more)) s
    = (Ret [0xCA; 0xCB], with_inbuf s rest).
Proof.
  induction 1 as [x tl rest Hx _ IH| rest | b tl rest Hb Hb' _ IH];
    intros f1 f2 z t s Hz Ho Hi H1 H2; simpl in H1, H2.
  - destruct f1 as [|f1]; [lia|].
    rewrite (bind_cong _ _ _ _ (seek_sync_step f1 z t s Hz)), bind_assoc.
    rewrite (bind_Ret _ _ _ _ _ (read_bytes_exact 1 s [x] tl Ho Hi eq_refl)).
    rewrite <- (with_inbuf_with_inbuf s tl rest).
    apply IH; auto; lia.
  - destruct f1 as [|[|f1]]; [lia..|]. destruct f2 as [|f2]; [lia|].
    rewrite (bind_cong _ _ _ _ (seek_sync_step _ z t s Hz)), bind_assoc.
    rewrite (bind_Ret _ _ _ _ _
               (read_bytes_exact 1 s [202] (203 :: rest) Ho Hi eq_refl)).
    rewrite (bind_Ret _ _ _ _ _ (seek_sync_done f1 [] _)).
    rewrite (bind_Ret _ _ _ _ _
               (read_bytes_exact 1 (with_inbuf s (203 :: rest)) [203] rest
                  Ho eq_refl eq_refl)).
    apply resync_done.
  - destruct f1 as [|[|f1]]; [lia..|]. destruct f2 as [|f2]; [lia|].
    rewrite (bind_cong _ _ _ _ (seek_sync_step _ z t s Hz)), bind_assoc.
    rewrite (bind_Ret _ _ _ _ _
               (read_bytes_exact 1 s [202] (b :: tl) Ho Hi eq_refl)).
    rewrite (bind_Ret _ _ _ _ _ (seek_sync_done f1 [] _)).
    rewrite (bind_Ret _ _ _ _ _
               (read_bytes_exact 1 (with_inbuf s (b :: tl)) [b] tl
                  Ho eq_refl eq_refl)).
    rewrite with_inbuf_with_inbuf. simpl app. rewrite resync_stray by done.
    rewrite <- (with_inbuf_with_inbuf s tl rest).
    apply IH; auto; simpl; lia.
Qed.

(** From the start of the scan, as lines 235 and 254 enter it. *)
Lemma resync_finds_header stream rest fuel s :
  scannable stream rest →
  session_open (device s) = true →
  inbuf (device s) = stream →
  (length stream + 3 <= fuel)%nat →
  resync fuel [0x00] s = (Ret [0xCA; 0xCB], with_inbuf s rest).
Proof.
  intros Hs Ho Hi Hf. destruct fuel as [|fuel]; [lia|]. simpl.
  unfold bind at 1. rewrite no_header_spec.
  rewrite bool_decide_eq_false_2 by discriminate. cbn [negb]. simpl.
  rewrite bind_ret_l.
  by apply (seek_phase stream rest Hs fuel fuel 0 []); [|..|lia|lia].
Qed.

Lemma index_absent bs x : x ∉ bs → index bs x = Raise ValueError.
Proof.
  induction bs as [|b bs IH]; [done|]. intros Hn.
  apply not_elem_of_cons in Hn as [Hx Hn]. simpl.
  rewrite (proj2 (Z.eqb_neq b x)) by congruence. by rewrite IH.
Qed.

Lemma resync_frame_finds_header stream payload rest fuel s :
  scannable stream (payload ++ rest) →
  length payload = 6%nat →
  session_open (device s) = true →
  inbuf (device s) = stream →
  (length stream + 3 <= fuel)%nat →
  resync_frame fuel [0x00] s = (Ret ([0xCA; 0xCB] ++ payload), with_inbuf s rest).
Proof.
  intros Hs Hp Ho Hi Hf. unfold resync_frame.
  rewrite (bind_Ret _ _ _ _ _ (resync_finds_header _ _ fuel s Hs Ho Hi Hf)).
  rewrite (bind_Ret _ _ _ _ _
             (read_bytes_exact 6 (with_inbuf s (payload ++ rest)) payload rest
                Ho eq_refl Hp)).
  reflexivity.
Qed.

(** The scan at work: when the first eight bytes hold no 0xCA and, up to
    the header, no 0xCA is directly followed by another one, the exchange
    returns the eight bytes that start at the first 0xCA 0xCB and leaves
    what follows them on the link. *)
Lemma writeFunction_resynchronises fuel command value s chunk stream payload rest :
  forallb is_byte (outbound command value) = true →
  session_open (device s) = true →
  0x10 <= command →
  inbuf (device s) ++ reply (device s) (outbound command value) = chunk ++ stream →
  length chunk = 8%nat →
  0xCA ∉ chunk →
  scannable stream (payload ++ rest) →
  length payload = 6%nat →
  (length stream + 3 <= fuel)%nat →
  writeFunction fuel command value s
  = (Ret (PBytes ([0xCA; 0xCB] ++ payload)),
     with_inbuf (sent s (outbound command value)) rest).
Proof.
  intros Hb Ho Hc Hi Hl Hn Hs Hp Hf.
  unfold writeFunction, bytearray. fold (outbound command value).
  rewrite Hb, bind_lift_Ret.
  rewrite (try_except_bind_Ret _ _ _ _ _ _ _ (write_raw_open _ _ Ho)).
  replace (16 <=? command) with true by (symmetry; lia).
  change (8 =? 0) with false. cbv iota. change (Z.to_nat 8) with 8%nat.
  rewrite (try_except_bind_Ret _ _ _ _ _ _ _
             (read_bytes_exact 8 (sent s (outbound command value)) chunk stream
                Ho Hi Hl)).
  destruct chunk as [|a0 chunk']; [done|].
  pose proof Hn as Hn'. apply not_elem_of_cons in Hn' as [Ha0 _].
  match goal with |- try_except (bind ?c _) _ _ ?st = _ =>
    assert (Em : c st = (Ret true, st)) end.
  { unfold por, bind, lift, getitem, ret. simpl.
    by rewrite (proj2 (Z.eqb_neq a0 202)) by congruence. }
  rewrite (try_except_bind_Ret _ _ _ _ _ _ _ Em). cbv iota.
  match goal with |- try_except (bind ?c _) _ _ ?st = _ =>
    assert (Er : c st = (Ret ([202; 203] ++ payload), with_inbuf st rest)) end.
  { unfold try_except at 1.
    rewrite (bind_Raise _ _ _ ValueError _) by (by rewrite index_absent).
    rewrite bool_decide_eq_true_2 by done.
    by apply (resync_frame_finds_header stream). }
  by rewrite (try_except_bind_Ret _ _ _ _ _ _ _ Er).
Qed.

(** *** Termination on a transport that raises on timeout *)

Section Finishes.
Context {S : Type} (P : S -> Prop) (R : S -> S -> Prop).
Hypothesis P_stable : ∀ s s', P s → R s s' → P s'.

Lemma finishes_ret {A} (a : A) : finishes P (ret a).
Proof. by intros s _. Qed.

Lemma finishes_raise {A} e : finishes P (@raise S A e).
Proof. by intros s _. Qed.

Lemma finishes_lift {A} (o : outcome A) : o ≠ Diverge → finishes P (lift o).
Proof. by intros Ho s _. Qed.

Lemma finishes_bind {A B} (c : prog S A) (k : A -> prog S B) :
  keeps R c → finishes P c → (∀ a, finishes P (k a)) → finishes P (bind c k).
Proof using P_stable.
  intros Hk Hc Hf s Hs. unfold bind. specialize (Hc s Hs). specialize (Hk s).
  destruct (c s) as [[a|e|] s1]; simpl in *; try done.
  apply Hf. eauto.
Qed.

Lemma finishes_try_except {A} (body : prog S A) handles handler :
  keeps R body → finishes P body → (∀ e, finishes P (handler e)) →
  finishes P (try_except body handles handler).
Proof using P_stable.
  intros Hk Hb Hh s Hs. unfold try_except. specialize (Hb s Hs). specialize (Hk s).
  destruct (body s) as [[a|e|] s1]; simpl in *; try done.
  destruct (handles e); [|done]. apply Hh. eauto.
Qed.

End Finishes.

Lemma outcome_lift_getitem {A} (xs : list A) i : getitem xs i ≠ Diverge.
Proof. unfold getitem. destruct (_ || _); [done|]. by destruct (xs !! _). Qed.

Lemma outcome_index bs x : index bs x ≠ Diverge.
Proof.
  induction bs as [|b bs IH]; simpl; [done|].
  destruct (b =? x); [done|]. by destruct (index bs x).
Qed.

Lemma raising_within_stable n s s' :
  raising_within n s → inbound_only s s' → raising_within n s'.
Proof.
  intros [Hs Hl] H. split.
  - by rewrite (io_short_reads _ _ H).
  - pose proof (io_inbuf _ _ H). lia.
Qed.

(** A read that returns on such a link took its bytes off the queue. *)
Lemma read_bytes_raising n s bs s' :
  short_reads (device s) = false →
  on_device (read_bytes n) s = (Ret bs, s') →
  (length (inbuf (device s')) + n = length (inbuf (device s)))%nat ∧
  short_reads (device s') = false.
Proof.
  intros Hs. unfold on_device, read_bytes.
  destruct (session_open (device s)); simpl; [|done].
  case_bool_decide as Hn.
  - intros [= _ <-]. simpl. rewrite length_drop. split; [lia|done].
  - by rewrite Hs.
Qed.

Lemma finishes_read_bytes P n : finishes P (on_device (read_bytes n)).
Proof.
  intros s _. unfold on_device, read_bytes.
  destruct (session_open (device s)); simpl; [|done].
  case_bool_decide; [done|]. by destruct (short_reads (device s)).
Qed.

Lemma seek_sync_finishes fuel bytee : finishes (raising_within fuel) (seek_sync fuel bytee).
Proof.
  revert bytee. induction fuel as [|fuel IH]; intros bytee s [Hs Hl]; [lia|].
  simpl. unfold bind at 1, lift.
  destruct (getitem bytee 0) as [b0|e|] eqn:Eg; simpl; [|done|].
  - destruct (negb (b0 =? 202)); [|done]. unfold bind.
    pose proof (finishes_read_bytes (fun _ => True) 1 s I) as Hr.
    destruct (on_device (read_bytes 1) s) as [[bs|e|] s1] eqn:Er; simpl; try done.
    destruct (read_bytes_raising 1 s bs s1 Hs Er) as [Hl1 Hs1].
    apply IH. split; [done|lia].
  - by destruct (outcome_lift_getitem bytee 0).
Qed.

Lemma resync_turn_finishes fuel bytee (IH : ∀ b, finishes (raising_within (fuel - 1)) (resync fuel b)) :
  finishes (raising_within fuel)
    (let* bytee := seek_sync fuel bytee in
     let* more := on_device (read_bytes 1) in
     resync fuel (bytee ++ more)).
Proof.
  intros s [Hs Hl]. unfold bind at 1.
  pose proof (seek_sync_finishes fuel bytee s (conj Hs Hl)) as Hd.
  pose proof (keeps_seek_sync fuel bytee s) as Hk.
  destruct (seek_sync fuel bytee s) as [[b2|e|] s1]; simpl in *; try done.
  unfold bind.
  pose proof (finishes_read_bytes (fun _ => True) 1 s1 I) as Hr.
  destruct (on_device (read_bytes 1) s1) as [[more|e|] s2] eqn:Er; simpl; try done.
  assert (Hs1 : short_reads (device s1) = false)
    by (by rewrite (io_short_reads _ _ Hk)).
  destruct (read_bytes_raising 1 s1 more s2 Hs1 Er) as [Hl2 Hs2].
  pose proof (io_inbuf _ _ Hk). apply IH. split; [done|lia].
Qed.

Lemma resync_finishes fuel bytee :
  finishes (raising_within (fuel - 1)) (resync fuel bytee).
Proof.
  revert bytee. induction fuel as [|fuel IH]; intros bytee s Hp;
    [destruct Hp as [_ Hl]; simpl in Hl; lia|].
  simpl in Hp. rewrite Nat.sub_0_r in Hp.
  simpl. unfold bind at 1. rewrite no_header_spec.
  destruct (negb _); [|done].
  destruct (Z.of_nat (length bytee) =? 2).
  - rewrite bind_assoc. unfold bind at 1, lift.
    pose proof (outcome_lift_getitem bytee 1) as Hg.
    destruct (getitem bytee 1) as [b1|e|]; [|done|done].
    rewrite bind_ret_l. by apply resync_turn_finishes.
  - rewrite bind_ret_l. by apply resync_turn_finishes.
Qed.

Lemma resync_frame_finishes fuel bytee :
  finishes (raising_within (fuel - 1)) (resync_frame fuel bytee).
Proof.
  apply (finishes_bind _ inbound_only (raising_within_stable _)).
  - apply keeps_resync.
  - apply resync_finishes.
  - intros b. apply (finishes_bind _ inbound_only (raising_within_stable _)).
    + apply keeps_read_bytes.
    + apply finishes_read_bytes.
    + intros; apply finishes_ret.
Qed.

Ltac finishes_tac :=
  repeat first
    [ match goal with |- ∀ _, _ => intro end
    | match goal with |- finishes _ (if ?b then _ else _) => destruct b end
    | match goal with |- keeps _ _ => solve [keeps_tac] end
    | apply finishes_ret | apply finishes_raise
    | apply finishes_lift; first [apply outcome_lift_getitem | apply outcome_index]
    | apply finishes_read_bytes | apply resync_frame_finishes
    | apply (finishes_bind _ inbound_only (raising_within_stable _))
    | apply (finishes_try_except _ inbound_only (raising_within_stable _))
    | unfold por ].

(** On a transport whose reads raise on timeout an exchange always ends:
    a budget two above the number of bytes that can still arrive is
    enough. *)
Lemma writeFunction_terminates fuel command value s :
  short_reads (device s) = false →
  (length (inbuf (device s) ++ reply (device s) (outbound command value)) + 2
   <= fuel)%nat →
  (writeFunction fuel command value s).1 ≠ Diverge.
Proof.
  intros Hs Hl. unfold writeFunction, bytearray. fold (outbound command value).
  destruct (forallb is_byte (outbound command value)); [|done].
  rewrite bind_lift_Ret.
  destruct (session_open (device s)) eqn:Eo.
  - rewrite (try_except_bind_Ret _ _ _ _ _ _ _ (write_raw_open _ _ Eo)).
    match goal with |- (?c ?st).1 ≠ _ =>
      assert (Hf : finishes (raising_within (fuel - 1)) c) by finishes_tac;
      apply Hf end.
    split; [done|]. simpl. lia.
  - by rewrite (try_except_bind_Raise _ _ _ _ _ _ _ (write_raw_closed _ _ Eo)).
Qed.

(** ** Runs *)

Lemma returned_run {S A} (c : prog S A) s :
  returned (c s).1 = true → ∃ a, c s = (Ret a, (c s).2).
Proof. destruct (c s) as [[a|e|] s']; try done. by exists a. Qed.

Lemma run_eta {S A} (c : prog S A) s o : (c s).1 = o → c s = (o, (c s).2).
Proof. intros <-. by destruct (c s). Qed.

Lemma bind_inv_Raise {S A B} (c : prog S A) (k : A → prog S B) s e s' :
  bind c k s = (Raise e, s') →
  c s = (Raise e, s') ∨ ∃ a s1, c s = (Ret a, s1) ∧ k a s1 = (Raise e, s').
Proof.
  unfold bind. destruct (c s) as [[a|e'|] s1]; simpl; intros E;
    try discriminate; [right; by exists a, s1 | left; by injection E as -> ->].
Qed.

(** ** Further properties of the read path *)

Lemma index_found pre x tl :
  x ∉ pre → index (pre ++ x :: tl) x = Ret (Z.of_nat (length pre)).
Proof.
  induction pre as [|b pre IH]; intros Hn; simpl.
  - by rewrite Z.eqb_refl.
  - apply not_elem_of_cons in Hn as [Hx Hn].
    rewrite (proj2 (Z.eqb_neq b x)) by congruence. rewrite IH by done.
    f_equal. lia.
Qed.

Lemma getitem_lookup {A} (xs : list A) (i : Z) x :
  0 <= i → xs !! Z.to_nat i = Some x → getitem xs i = Ret x.
Proof.
  intros Hi Hl. unfold getitem. pose proof (lookup_lt_Some _ _ _ Hl) as Hlt.
  replace (i <? 0) with false by (symmetry; lia).
  replace ((i <? 0) || (Z.of_nat (length xs) <=? i)) with false
    by (symmetry; lia).
  by rewrite Hl.
Qed.

(** The test of line 223 on the bytes of the first read. *)
Lemma misaligned_head chunk b0 (s : DL24M) :
  chunk !! 0%nat = Some b0 →
  b0 ≠ 0xCA →
  por (let* b0 := lift (getitem chunk 0) in ret (negb (b0 =? 0xCA)))
      (let* b1 := lift (getitem chunk 1) in ret (negb (b1 =? 0xCB))) s
  = (Ret true, s).
Proof.
  intros Hl Hb. destruct chunk as [|b tl]; [done|]. injection Hl as ->.
  unfold por, bind, lift, getitem, ret. simpl.
  by rewrite (proj2 (Z.eqb_neq b0 202) Hb).
Qed.

Lemma aligned_head tl (s : DL24M) :
  por (let* b0 := lift (getitem (0xCA :: 0xCB :: tl) 0) in ret (negb (b0 =? 0xCA)))
      (let* b1 := lift (getitem (0xCA :: 0xCB :: tl) 1) in ret (negb (b1 =? 0xCB))) s
  = (Ret false, s).
Proof.
  unfold por, bind, lift, ret.
  rewrite (getitem_lookup (202 :: 203 :: tl) 0 202) by done.
  rewrite (getitem_lookup (202 :: 203 :: tl) 1 203) by done.
  reflexivity.
Qed.

(** The start of every exchange on an open link for a query: the frame
    goes out and eight bytes are read. *)
Lemma writeFunction_first_read fuel command value s chunk tail :
  forallb is_byte (outbound command value) = true →
  session_open (device s) = true →
  0x10 <= command →
  inbuf (device s) ++ reply (device s) (outbound command value) = chunk ++ tail →
  length chunk = 8%nat →
  ∃ k, writeFunction fuel command value s
       = try_except (k chunk) is_Exception (fun _ => ret (PBool false))
           (with_inbuf (sent s (outbound command value)) tail) ∧
       ∀ bytes_read,
         k bytes_read =
         (let* misaligned :=
            por (let* b0 := lift (getitem bytes_read 0) in ret (negb (b0 =? 0xCA)))
                (let* b1 := lift (getitem bytes_read 1) in ret (negb (b1 =? 0xCB))) in
          let* bytes_read :=
            if misaligned then
              try_except
                (let* idx := lift (index bytes_read 0xCA) in
                 if idx + 1 <? 8 then
                   let* nxt := lift (getitem bytes_read (idx + 1)) in
                   if nxt =? 0xCB then
                     let response := slice_from bytes_read idx in
                     let bytes_left := 8 - Z.of_nat (length response) in
                     let* more := on_device (read_bytes (Z.to_nat bytes_left)) in
                     ret (response ++ more)
                   else resync_frame fuel [0x00]
                 else
                   let* b := lift (getitem bytes_read idx) in
                   resync_frame fuel [b])
                (fun e => bool_decide (e = ValueError))
                (fun _ => resync_frame fuel [0x00])
            else ret bytes_read in
          ret (PBytes bytes_read)).
Proof.
  intros Hb Ho Hc Hi Hl. eexists. split; [|reflexivity].
  unfold writeFunction, bytearray. fold (outbound command value).
  rewrite Hb, bind_lift_Ret.
  rewrite (try_except_bind_Ret _ _ _ _ _ _ _ (write_raw_open _ _ Ho)).
  replace (16 <=? command) with true by (symmetry; lia).
  change (8 =? 0) with false. cbv iota. change (Z.to_nat 8) with 8%nat.
  rewrite (try_except_bind_Ret _ _ _ _ _ _ _
             (read_bytes_exact 8 (sent s (outbound command value)) chunk tail
                Ho Hi Hl)).
  reflexivity.
Qed.

Lemma seek_sync_skips junk :
  ∀ f z t s tl,
    z ≠ 0xCA → 0xCA ∉ junk →
    session_open (device s) = true →
    inbuf (device s) = junk ++ 0xCA :: tl →
    (length junk + 2 <= f)%nat →
    seek_sync f (z :: t) s = (Ret [0xCA], with_inbuf s tl).
Proof.
  induction junk as [|x junk IH]; intros f z t s tl Hz Hn Ho Hi Hf; simpl in *.
  - destruct f as [|[|f]]; [lia..|].
    rewrite (seek_sync_step _ z t s Hz).
    rewrite (bind_Ret _ _ _ _ _ (read_bytes_exact 1 s [202] tl Ho Hi eq_refl)).
    reflexivity.
  - destruct f as [|f]; [lia|]. apply not_elem_of_cons in Hn as [Hx Hn].
    rewrite (seek_sync_step _ z t s Hz).
    rewrite (bind_Ret _ _ _ _ _
               (read_bytes_exact 1 s [x] (junk ++ 202 :: tl) Ho Hi eq_refl)).
    rewrite <- (with_inbuf_with_inbuf s (junk ++ 202 :: tl) tl).
    apply IH; auto; lia.
Qed.

Lemma resync_frame_skips junk payload rest fuel z s :
  z ≠ 0xCA → 0xCA ∉ junk →
  length payload = 6%nat →
  session_open (device s) = true →
  inbuf (device s) = junk ++ [0xCA; 0xCB] ++ payload ++ rest →
  (length junk + 3 <= fuel)%nat →
  resync_frame fuel [z] s = (Ret ([0xCA; 0xCB] ++ payload), with_inbuf s rest).
Proof.
  intros Hz Hn Hp Ho Hi Hf. destruct fuel as [|fuel]; [lia|].
  unfold resync_frame. simpl resync. rewrite bind_assoc.
  unfold bind at 1. rewrite no_header_spec.
  rewrite bool_decide_eq_false_2 by discriminate. cbn [negb].
  change (Z.of_nat (length [z]) =? 2) with false. cbv iota.
  rewrite bind_assoc, bind_ret_l, bind_assoc.
  rewrite (bind_Ret _ _ _ _ _
             (seek_sync_skips junk fuel z [] s _ Hz Hn Ho Hi ltac:(lia))).
  rewrite bind_assoc.
  rewrite (bind_Ret _ _ _ _ _
             (read_bytes_exact 1 (with_inbuf s _) [203] (payload ++ rest)
                Ho eq_refl eq_refl)).
  destruct fuel as [|fuel]; [lia|]. rewrite with_inbuf_with_inbuf.
  rewrite (bind_Ret _ _ _ _ _ (resync_done fuel _)).
  rewrite (bind_Ret _ _ _ _ _
             (read_bytes_exact 6 (with_inbuf s (payload ++ rest)) payload rest
                Ho eq_refl Hp)).
  reflexivity.
Qed.

Lemma writeFunction_finds_frame fuel command value s pre payload rest :
  forallb is_byte (outbound command value) = true →
  session_open (device s) = true →
  0x10 <= command →
  inbuf (device s) ++ reply (device s) (outbound command value)
    = pre ++ [0xCA; 0xCB] ++ payload ++ rest →
  0xCA ∉ pre →
  length payload = 6%nat →
  (length pre + 3 <= fuel)%nat →
  writeFunction fuel command value s
  = (Ret (PBytes ([0xCA; 0xCB] ++ payload)),
     with_inbuf (sent s (outbound command value)) rest).
Proof.
  intros Hb Ho Hc Hi Hn Hp Hf.
  remember (length pre) as k eqn:Ek.
  assert (Hhd : k ≠ 0%nat → ∃ a0, pre !! 0%nat = Some a0 ∧ a0 ≠ 202).
  { intros K. destruct pre as [|a0 pre']; [done|]. exists a0. split; [done|].
    intros ->. apply Hn. by left. }
  destruct (decide (k = 0)%nat) as [K0|K0];
    [|destruct (decide (k <= 6)%nat) as [K6|K6];
      [|destruct (decide (k = 7)%nat) as [K7|K7]]].
  - (* aligned *)
    destruct pre; [|simpl in Ek; lia]. simpl in Hi. clear Hhd.
    destruct (writeFunction_first_read fuel command value s
                (202 :: 203 :: payload) rest Hb Ho Hc Hi) as (kk & -> & Hk).
    { simpl. lia. }
    rewrite Hk. unfold try_except.
    rewrite (bind_Ret _ _ _ _ _ (aligned_head _ _)). reflexivity.
  - (* shifted within the first read *)
    assert (Hsplit : pre ++ [202; 203] ++ payload ++ rest
                     = (pre ++ 202 :: 203 :: take (6 - k) payload)
                       ++ (drop (6 - k) payload ++ rest)).
    { rewrite <- (take_drop (6 - k) payload) at 1.
      by rewrite <- !app_assoc. }
    rewrite Hsplit in Hi.
    destruct (writeFunction_first_read fuel command value s _ _ Hb Ho Hc Hi)
      as (kk & -> & Hk).
    { rewrite length_app. simpl. rewrite length_take. lia. }
    rewrite Hk. unfold try_except at 1.
    destruct (Hhd K0) as (a0 & Hl0 & Ha0).
    rewrite (bind_Ret _ _ _ _ _ (misaligned_head _ a0 _
               (lookup_app_l_Some _ _ _ _ Hl0) Ha0)). cbv iota.
    match goal with |- context [bind ?c _ ?st] =>
      assert (Er : c st = (Ret ([202; 203] ++ payload), with_inbuf st rest)) end.
    { unfold try_except.
      rewrite (bind_Ret _ _ _ (Z.of_nat (length pre)) _)
        by (unfold lift; rewrite (index_found pre 202 _ Hn); reflexivity).
      replace (Z.of_nat (length pre) + 1 <? 8) with true by (symmetry; lia).
      erewrite (bind_Ret _ _ _ 203 _).
      2: { unfold lift. rewrite (getitem_lookup _ _ 203); [reflexivity|lia|].
           replace (Z.to_nat (Z.of_nat (length pre) + 1)) with (length pre + 1)%nat by lia.
           rewrite lookup_app_r by lia.
           by replace (length pre + 1 - length pre)%nat with 1%nat by lia. }
      cbn [Z.eqb Pos.eqb]. cbv iota.
      unfold slice_from. rewrite Nat2Z.id.
      rewrite (drop_app_length pre).
      erewrite bind_Ret.
      2: { apply (read_bytes_exact _ _ (drop (6 - k) payload) rest);
             [exact Ho|reflexivity|].
           rewrite length_drop. simpl. rewrite length_take. lia. }
      unfold ret. do 2 f_equal. simpl. by rewrite take_drop. }
    by rewrite (bind_Ret _ _ _ _ _ Er).
  - (* the sync byte is the last of the first read *)
    assert (Hsplit : pre ++ [202; 203] ++ payload ++ rest
                     = (pre ++ [202]) ++ (203 :: payload ++ rest))
      by (by rewrite <- app_assoc).
    rewrite Hsplit in Hi.
    destruct (writeFunction_first_read fuel command value s _ _ Hb Ho Hc Hi)
      as (kk & -> & Hk).
    { rewrite length_app. simpl. lia. }
    rewrite Hk. unfold try_except at 1.
    destruct (Hhd K0) as (a0 & Hl0 & Ha0).
    rewrite (bind_Ret _ _ _ _ _ (misaligned_head _ a0 _
               (lookup_app_l_Some _ _ _ _ Hl0) Ha0)). cbv iota.
    match goal with |- context [bind ?c _ ?st] =>
      assert (Er : c st = (Ret ([202; 203] ++ payload), with_inbuf st rest)) end.
    { unfold try_except.
      rewrite (bind_Ret _ _ _ (Z.of_nat (length pre)) _)
        by (unfold lift; rewrite (index_found pre 202 _ Hn); reflexivity).
      replace (Z.of_nat (length pre) + 1 <? 8) with false by (symmetry; lia).
      erewrite (bind_Ret _ _ _ 202 _).
      2: { unfold lift. rewrite (getitem_lookup _ _ 202); [reflexivity|lia|].
           rewrite Nat2Z.id. rewrite lookup_app_r by lia.
           by replace (length pre - length pre)%nat with 0%nat by lia. }
      destruct fuel as [|[|fuel]]; [lia..|].
      unfold resync_frame. simpl resync. rewrite bind_assoc.
      unfold bind at 1. rewrite no_header_spec.
      rewrite bool_decide_eq_false_2 by discriminate. cbn [negb].
      change (Z.of_nat (length [202]) =? 2) with false. cbv iota.
      rewrite bind_assoc, bind_ret_l, bind_assoc.
      rewrite (bind_Ret _ _ _ _ _ (seek_sync_done fuel [] _)).
      rewrite bind_assoc.
      erewrite bind_Ret;
        [|by apply (read_bytes_exact 1 _ [203] (payload ++ rest))].
      rewrite with_inbuf_with_inbuf.
      rewrite (bind_Ret _ _ _ _ _ (resync_done fuel _)).
      erewrite bind_Ret; [|by apply (read_bytes_exact 6 _ payload rest)].
      reflexivity. }
    by rewrite (bind_Ret _ _ _ _ _ Er).
  - (* no sync byte in the first read *)
    assert (Hsplit : pre ++ [202; 203] ++ payload ++ rest
                     = take 8 pre ++ (drop 8 pre ++ [202; 203] ++ payload ++ rest)).
    { by rewrite (app_assoc (take 8 pre)), take_drop. }
    rewrite Hsplit in Hi.
    assert (Hn8 : 202 ∉ take 8 pre).
    { intros Hin. apply Hn. by apply (subseteq_take 8 pre). }
    assert (Hnd : 202 ∉ drop 8 pre).
    { intros Hin. apply Hn. by apply (subseteq_drop 8 pre). }
    destruct (writeFunction_first_read fuel command value s _ _ Hb Ho Hc Hi)
      as (kk & -> & Hk).
    { rewrite length_take. lia. }
    rewrite Hk. unfold try_except at 1.
    destruct (Hhd K0) as (a0 & Hl0 & Ha0).
    rewrite (bind_Ret _ _ _ _ _ (misaligned_head (take 8 pre) a0 _
               ltac:(by rewrite lookup_take_lt by lia) Ha0)). cbv iota.
    match goal with |- context [bind ?c _ ?st] =>
      assert (Er : c st = (Ret ([202; 203] ++ payload), with_inbuf st rest)) end.
    { unfold try_except.
      rewrite (bind_Raise _ _ _ ValueError _) by (unfold lift; rewrite index_absent by done; reflexivity).
      rewrite bool_decide_eq_true_2 by done.
      apply (resync_frame_skips (drop 8 pre));
        [done|done|done|exact Ho|reflexivity|rewrite length_drop; lia]. }
    by rewrite (bind_Ret _ _ _ _ _ Er).
Qed.

(** As long as no 0xCA comes before it, the frame is found wherever it
    starts: at once, shifted within the first eight bytes, across their
    end, or anywhere later.  The exchange returns its eight bytes and
    leaves what follows them unread. *)
Theorem exchange_skips_garbage fuel command value s pre payload rest :
  forallb is_byte (outbound command value) = true →
  session_open (device s) = true →
  0x10 <= command →
  inbuf (device s) ++ reply (device s) (outbound command value)
    = pre ++ [0xCA; 0xCB] ++ payload ++ rest →
  0xCA ∉ pre →
  length payload = 6%nat →
  (length pre + 3 <= fuel)%nat →
  writeFunction fuel command value s
  = (Ret (PBytes ([0xCA; 0xCB] ++ payload)),
     with_inbuf (sent s (outbound command value)) rest).
Proof. apply writeFunction_finds_frame. Qed.

(** ** Reading a register end to end *)

Lemma decode_response_reading {S} (s : S) c b3 b4 b5 :
  decode_response (PBytes (response c b3 b4 b5)) c s = (reading c b3 b4 b5, s).
Proof.
  unfold response, reading. rewrite decode_frame8, !Z.eqb_refl. simpl.
  by destruct (_ || _).
Qed.

Lemma getVal_reads fuel c s pre b3 b4 b5 rest :
  session_open (device s) = true →
  0x10 <= c < 256 →
  inbuf (device s) ++ reply (device s) (query c)
    = pre ++ response c b3 b4 b5 ++ rest →
  0xCA ∉ pre →
  (length pre + 3 <= fuel)%nat →
  getVal fuel c s
  = (reading c b3 b4 b5, with_inbuf (sent s (query c)) rest).
Proof.
  intros Ho Hc Hi Hn Hf.
  rewrite (getVal_Ret fuel c s (PBytes (response c b3 b4 b5))
             (with_inbuf (sent s (query c)) rest)).
  - apply decode_response_reading.
  - apply (writeFunction_finds_frame fuel c [0; 0] s pre [c; b3; b4; b5; 206; 207] rest);
      try done; [|lia].
    unfold outbound, is_byte. simpl. lia.
Qed.

(** A duration register ([TIME], [TIMER]) is read as a time of day from the
    three payload bytes.  Hours from 24 and minutes or seconds from 60 are
    not a time of day: the read then raises [ValueError] instead of
    returning [False]; the frame has been consumed all the same. *)
Theorem getVal_duration fuel c s pre hh mm ss rest :
  c = TIME ∨ c = TIMER →
  session_open (device s) = true →
  inbuf (device s) ++ reply (device s) (query c)
    = pre ++ response c hh mm ss ++ rest →
  0xCA ∉ pre →
  (length pre + 3 <= fuel)%nat →
  0 <= hh → 0 <= mm → 0 <= ss →
  getVal fuel c s
  = (if (hh <? 24) && (mm <? 60) && (ss <? 60)
     then Ret (PTime hh mm ss) else Raise ValueError,
     with_inbuf (sent s (query c)) rest).
Proof.
  intros Hc Ho Hi Hn Hf Hh Hm Hs.
  rewrite (getVal_reads fuel c s pre hh mm ss rest Ho)
    by (try done; destruct Hc as [-> | ->]; by compute).
  f_equal. unfold reading, time.
  replace ((c =? TIME) || (c =? TIMER)) with true
    by (destruct Hc as [-> | ->]; reflexivity).
  replace (0 <=? hh) with true by (symmetry; lia).
  replace (0 <=? mm) with true by (symmetry; lia).
  replace (0 <=? ss) with true by (symmetry; lia).
  simpl. by rewrite !andb_true_r.
Qed.

Lemma getVal_duration_witness :
  getVal 3 TIME (__init__ (link (response TIME 24 0 0)))
  = (Raise ValueError,
     with_inbuf (sent (__init__ (link (response TIME 24 0 0))) (query TIME)) []).
Proof.
  refine (getVal_duration 3 TIME (__init__ (link (response TIME 24 0 0)))
            [] 24 0 0 [] (or_introl eq_refl) eq_refl eq_refl _ _ _ _ _);
    [apply not_elem_of_nil | simpl; lia | lia..].
Defined.

(** ** Poll cycles *)

Lemma clear_device_open s :
  session_open (device s) = true →
  __clear_device s = (Ret PNone, with_inbuf s []).
Proof.
  intros Ho. unfold __clear_device, try_except.
  assert (E : on_device bytes_in_buffer s = (Ret (length (inbuf (device s))), s)).
  { unfold on_device, bytes_in_buffer. rewrite Ho. by rewrite set_device_id. }
  rewrite (bind_Ret _ _ _ _ _ E).
  rewrite (bind_Ret _ _ _ _ _
             (read_bytes_exact _ s (inbuf (device s)) [] Ho
                ltac:(by rewrite app_nil_r) eq_refl)).
  reflexivity.
Qed.

Lemma clear_device_closed s :
  session_open (device s) = false →
  __clear_device s = (Ret (PBool false), s).
Proof.
  intros Ho. unfold __clear_device, try_except.
  assert (E : on_device bytes_in_buffer s = (Raise VisaIOError, s)).
  { unfold on_device, bytes_in_buffer. rewrite Ho. by rewrite set_device_id. }
  by rewrite (bind_Raise _ _ _ _ _ E).
Qed.

(** Bytes that are waiting when a poll cycle starts are discarded before
    the first query: on an open link the cycle runs as it would with nothing
    waiting. *)
Theorem readAll_ignores_stale_input fuel read_all_aux s :
  session_open (device s) = true →
  readAll fuel read_all_aux s = readAll fuel read_all_aux (with_inbuf s []).
Proof.
  intros Ho. unfold readAll.
  rewrite (bind_Ret _ _ _ _ _ (clear_device_open s Ho)).
  by rewrite (bind_Ret _ _ _ _ _ (clear_device_open (with_inbuf s []) Ho)).
Qed.

Lemma readAll_ignores_stale_input_witness :
  readAll 5 true (__init__ (link [0x6F; 0xCA; 0x00]))
  = readAll 5 true (with_inbuf (__init__ (link [0x6F; 0xCA; 0x00])) []).
Proof.
  apply (readAll_ignores_stale_input 5 true (__init__ (link [0x6F; 0xCA; 0x00]))).
  reflexivity.
Defined.

Lemma reading_not_False c b3 b4 b5 v :
  reading c b3 b4 b5 = Ret v → is_False v = false.
Proof.
  unfold reading, time. destruct (_ || _).
  - destruct (_ && _); [|done]. by intros [= <-].
  - by intros [= <-].
Qed.

Lemma update_val_reads fuel (key : string) c s pre b3 b4 b5 rest v :
  KEY_CMDS !! key = Some c →
  session_open (device s) = true →
  inbuf (device s) ++ reply (device s) (query c)
    = pre ++ response c b3 b4 b5 ++ rest →
  0xCA ∉ pre →
  (length pre + 3 <= fuel)%nat →
  reading c b3 b4 b5 = Ret v →
  update_val fuel key s
  = (Ret tt, set_data (with_inbuf (sent s (query c)) rest) (<[key := v]> (data s))).
Proof.
  intros Hk Ho Hi Hn Hf Hv. unfold update_val, dict_get. rewrite Hk, bind_ret_l.
  pose proof (KEY_CMDS_values _ _ Hk) as Hc.
  erewrite bind_Ret;
    [|rewrite (getVal_reads fuel c s pre b3 b4 b5 rest Ho ltac:(lia) Hi Hn Hf);
      by rewrite Hv].
  by rewrite (reading_not_False _ _ _ _ _ Hv).
Qed.

Lemma update_vals_reports fuel (vals : string → pyval) keys :
  (3 <= fuel)%nat →
  ∀ s,
    session_open (device s) = true →
    inbuf (device s) = [] →
    (∀ key, key ∈ keys →
       ∃ c, KEY_CMDS !! key = Some c ∧ reports (device s) c (vals key)) →
    ∃ s', update_vals fuel keys s = (Ret tt, s') ∧
          link_kept s s' ∧
          inbuf (device s') = [] ∧
          ∀ key, data s' !! key
                 = if bool_decide (key ∈ keys) then Some (vals key)
                   else data s !! key.
Proof.
  intros Hf. unfold update_vals.
  induction keys as [|k keys IH]; intros s Ho Hi Hr; simpl.
  - exists s. repeat split; try done.
  - destruct (Hr k ltac:(by left)) as (c & Hk & b3 & b4 & b5 & Hq & Hv).
    rewrite (bind_Ret _ _ _ _ _
               (update_val_reads fuel k c s [] b3 b4 b5 [] (vals k) Hk Ho
                  ltac:(by rewrite Hi, Hq, app_nil_r) ltac:(apply not_elem_of_nil)
                  ltac:(simpl; lia) Hv)).
    destruct (IH (set_data (with_inbuf (sent s (query c)) []) (<[k:=vals k]> (data s))))
      as (s' & E & Hl & Hi' & Hd); [done|done| |].
    { intros key Hin. apply Hr. by right. }
    exists s'. split; [done|]. split; [|split; [done|]].
    + destruct Hl. by split.
    + intros key. rewrite Hd. simpl.
      destruct (decide (key = k)) as [->|Hne].
      * rewrite lookup_insert_eq. rewrite (bool_decide_eq_true_2 (k ∈ k :: keys)) by by left.
        by case_bool_decide.
      * rewrite lookup_insert_ne by done.
        case_bool_decide as H1; case_bool_decide as H2; try done.
        -- exfalso. apply H2. by right.
        -- exfalso. apply H1. by apply elem_of_cons in H2 as [?|?].
Qed.

Lemma AUX_VALS_key_at i :
  0 <= i < 5 →
  getitem AUX_VALS ((i + 1) mod 5) = Ret (aux_key_at (i + 1)).
Proof.
  intros Hi.
  assert (i = 0 ∨ i = 1 ∨ i = 2 ∨ i = 3 ∨ i = 4) as [->|[->|[->|[->| ->]]]] by lia;
    reflexivity.
Qed.

Lemma bool_decide_elem_of_app {A} `{EqDecision A} (x : A) l1 l2 :
  bool_decide (x ∈ l1 ++ l2) = bool_decide (x ∈ l1) || bool_decide (x ∈ l2).
Proof. by rewrite (bool_decide_ext _ _ (elem_of_app l1 l2 x)), bool_decide_or. Qed.

(** A poll cycle against an instrument that answers each query with one
    well-formed frame: the cycle returns, every register it polls holds the
    value the instrument reported, every other register holds what it held
    before, and nothing is left unread.  A deep cycle leaves the cursor
    where it was, a shallow one moves it to the register it has read. *)
Theorem readAll_reports fuel read_all_aux s (vals : string → pyval) :
  (3 <= fuel)%nat →
  session_open (device s) = true →
  0 <= aux_index s < 5 →
  (∀ key, key ∈ polled read_all_aux (aux_index s) →
     ∃ c, KEY_CMDS !! key = Some c ∧ reports (device s) c (vals key)) →
  ∃ s', readAll fuel read_all_aux s = (Ret (data s'), s') ∧
        (∀ key, data s' !! key
                = if bool_decide (key ∈ polled read_all_aux (aux_index s))
                  then Some (vals key) else data s !! key) ∧
        inbuf (device s') = [] ∧
        aux_index s'
        = if read_all_aux then aux_index s else (aux_index s + 1) mod 5.
Proof.
  intros Hf Ho Hi Hr. unfold readAll.
  rewrite (bind_Ret _ _ _ _ _ (clear_device_open s Ho)).
  destruct (update_vals_reports fuel vals FREQ_VALS Hf (with_inbuf s []) Ho eq_refl)
    as (s1 & E1 & L1 & I1 & D1).
  { intros key Hin. apply Hr. apply elem_of_app. by left. }
  rewrite (bind_Ret _ _ _ _ _ E1).
  assert (Ho1 : session_open (device s1) = true)
    by (by rewrite (lk_session_open _ _ L1)).
  assert (Hrep : reply (device s1) = reply (device s))
    by exact (lk_reply _ _ L1).
  destruct read_all_aux.
  - destruct (update_vals_reports fuel vals AUX_VALS Hf s1 Ho1 I1)
      as (s2 & E2 & L2 & I2 & D2).
    { intros key Hin.
      destruct (Hr key) as (c & Hk & b3 & b4 & b5 & Hq & Hv);
        [apply elem_of_app; by right|].
      exists c. split; [done|]. exists b3, b4, b5. split; [|done].
      rewrite Hrep. exact Hq. }
    rewrite (bind_Ret _ _ _ _ _ E2).
    exists s2. split; [done|]. split; [|split; [done|]].
    + intros key. rewrite D2, D1. unfold polled.
      rewrite bool_decide_elem_of_app.
      by destruct (bool_decide (key ∈ FREQ_VALS)), (bool_decide (key ∈ AUX_VALS)).
    + by rewrite (lk_aux_index _ _ L2), (lk_aux_index _ _ L1).
  - assert (Hi1 : 0 <= aux_index s1 < 5) by (by rewrite (lk_aux_index _ _ L1)).
    assert (Ea : aux_index s1 = aux_index s) by (by rewrite (lk_aux_index _ _ L1)).
    rewrite bind_assoc.
    rewrite (bind_Ret _ _ _ _ _ (next_aux_spec s1 Hi1)).
    rewrite bind_assoc.
    erewrite bind_Ret; [|unfold lift; rewrite AUX_VALS_key_at by done; reflexivity].
    rewrite Ea.
    destruct (Hr (aux_key_at (aux_index s + 1))) as (c & Hk & b3 & b4 & b5 & Hq & Hv).
    { apply elem_of_app. right. by left. }
    erewrite bind_Ret.
    2: { apply (update_val_reads fuel _ c (set_aux_index s1 _) [] b3 b4 b5 []
                  (vals (aux_key_at (aux_index s + 1))) Hk Ho1);
           [|apply not_elem_of_nil|simpl; lia|exact Hv].
         simpl. rewrite I1, Hrep, Hq. reflexivity. }
    eexists. split; [reflexivity|]. split; [|split; [done|done]].
    intros key. simpl. unfold polled.
    destruct (decide (key = aux_key_at (aux_index s + 1))) as [->|Hne].
    + rewrite lookup_insert_eq. rewrite bool_decide_eq_true_2; [done|].
      apply elem_of_app. right. by left.
    + rewrite lookup_insert_ne by done. rewrite D1.
      rewrite bool_decide_elem_of_app.
      rewrite (bool_decide_eq_false_2 (key ∈ [_]))
        by (by rewrite list_elem_of_singleton).
      by rewrite orb_false_r.
Qed.

(** ** A lost link *)

Lemma writeFunction_closed fuel c value s :
  forallb is_byte (outbound c value) = true →
  session_open (device s) = false →
  writeFunction fuel c value s = (Ret (PBool false), s).
Proof.
  intros Hb Ho. unfold writeFunction, bytearray. fold (outbound c value).
  rewrite Hb, bind_lift_Ret.
  by rewrite (try_except_bind_Raise _ _ _ _ _ _ _ (write_raw_closed _ _ Ho)).
Qed.

Lemma update_val_closed fuel (key : string) s :
  is_Some (KEY_CMDS !! key) →
  session_open (device s) = false →
  update_val fuel key s = (Ret tt, s).
Proof.
  intros [c Hk] Ho. unfold update_val, dict_get. rewrite Hk, bind_ret_l.
  unfold getVal. rewrite bind_assoc.
  rewrite (bind_Ret _ _ _ _ _
             (writeFunction_closed fuel c [0; 0] s
                (query_bytes _ (KEY_CMDS_values _ _ Hk)) Ho)).
  by rewrite (bind_Ret _ _ _ _ _ (decode_False s c)).
Qed.

Lemma update_vals_closed fuel (keys : list string) s :
  Forall (fun key => is_Some (KEY_CMDS !! key)) keys →
  session_open (device s) = false →
  update_vals fuel keys s = (Ret tt, s).
Proof.
  intros Hk Ho. unfold update_vals. induction Hk as [|key keys Hk _ IH]; [done|].
  simpl. by rewrite (bind_Ret _ _ _ _ _ (update_val_closed fuel key s Hk Ho)).
Qed.

(** On a link whose session is gone a poll cycle does not raise and does
    not report the failure: it returns the register values it had, sends
    nothing, and a shallow cycle still moves the cursor. *)
Theorem readAll_on_lost_link fuel read_all_aux s :
  session_open (device s) = false →
  0 <= aux_index s < 5 →
  readAll fuel read_all_aux s
  = (Ret (data s),
     if read_all_aux then s else set_aux_index s ((aux_index s + 1) mod 5)).
Proof.
  intros Ho Hi. unfold readAll.
  rewrite (bind_Ret _ _ _ _ _ (clear_device_closed s Ho)).
  rewrite (bind_Ret _ _ _ _ _ (update_vals_closed fuel _ s FREQ_VALS_readable Ho)).
  destruct read_all_aux.
  - by rewrite (bind_Ret _ _ _ _ _ (update_vals_closed fuel _ s AUX_VALS_readable Ho)).
  - rewrite bind_assoc, (bind_Ret _ _ _ _ _ (next_aux_spec s Hi)), bind_assoc.
    destruct (AUX_VALS_at ((aux_index s + 1) mod 5)) as (key & Eg & Ek).
    { apply Z.mod_pos_bound. lia. }
    erewrite bind_Ret; [|unfold lift; rewrite Eg; reflexivity].
    by rewrite (bind_Ret _ _ _ _ _
                  (update_val_closed fuel key (set_aux_index s _)
                     (mk_is_Some _ _ Ek) Ho)).
Qed.

Lemma readAll_on_lost_link_witness :
  readAll 3 false (__init__ dead_link)
  = (Ret (data (__init__ dead_link)), set_aux_index (__init__ dead_link) 1).
Proof.
  apply (readAll_on_lost_link 3 false (__init__ dead_link)); [reflexivity|].
  simpl. lia.
Defined.

(** ** Deep cycles *)

(** A deep cycle on an open link that returns has queried the ten registers
    once each, the frequent ones first, in the order of the two lists; the
    cursor of the shallow rotation has not moved. *)
Theorem readAll_deep_queries fuel s r s' :
  session_open (device s) = true →
  readAll fuel true s = (Ret r, s') →
  written (device s') =
    written (device s) ++
    (query <$> [ISON; VOLTAGE; CURRENT; TIME; CAP_AH;
                CAP_WH; TEMP; LIM_CURR; LIM_VOLT; TIMER]) ∧
  aux_index s' = aux_index s ∧
  r = data s'.
Proof.
  intros Ho E. unfold readAll in E.
  rewrite (bind_Ret _ _ _ _ _ (clear_device_open s Ho)) in E.
  apply bind_inv_Ret in E as ([] & s1 & E1 & E).
  apply bind_inv_Ret in E as ([] & s2 & E2 & E).
  injection E as <- <-.
  pose proof (update_vals_link_kept fuel FREQ_VALS (with_inbuf s [])) as L1.
  pose proof (update_vals_link_kept fuel AUX_VALS s1) as L2.
  rewrite E1 in L1. rewrite E2 in L2. simpl in L1, L2.
  assert (Ho1 : session_open (device s1) = true)
    by (by rewrite (lk_session_open _ _ L1)).
  rewrite (update_vals_written fuel AUX_VALS s1 s2 Ho1 AUX_VALS_readable E2).
  rewrite (update_vals_written fuel FREQ_VALS (with_inbuf s []) s1 Ho
             FREQ_VALS_readable E1).
  split; [by rewrite <- app_assoc|]. split; [|done].
  by rewrite (lk_aux_index _ _ L2), (lk_aux_index _ _ L1).
Qed.

Lemma readAll_deep_queries_witness :
  let self := __init__ steady_link in
  let self' := (readAll 3 true self).2 in
  ∃ r,
    written (device self') =
      written (device self) ++
      (query <$> [ISON; VOLTAGE; CURRENT; TIME; CAP_AH;
                  CAP_WH; TEMP; LIM_CURR; LIM_VOLT; TIMER]) ∧
    aux_index self' = aux_index self ∧
    r = data self'.
Proof.
  intros self self'.
  destruct (returned_run (readAll 3 true) self) as [r E];
    [vm_compute; reflexivity|].
  exists r. exact (readAll_deep_queries 3 self r self' eq_refl E).
Defined.

(** ** What the driver keeps *)

#[local] Instance well_formed_kept_refl : Reflexive well_formed_kept.
Proof. by intros s H. Qed.

#[local] Instance well_formed_kept_trans : Transitive well_formed_kept.
Proof. intros s1 s2 s3 H1 H2 H. auto. Qed.

Lemma same_registers_well_formed_kept s s' :
  same_registers s s' → well_formed_kept s s'.
Proof. intros [Hd Hi] [H1 H2]. split; by rewrite ?Hd, ?Hi. Qed.

Lemma keeps_weaken {S A} (R R' : S → S → Prop) (c : prog S A) :
  (∀ s s', R s s' → R' s s') → keeps R c → keeps R' c.
Proof. intros H Hc s. apply H, Hc. Qed.

Lemma init_well_formed d : well_formed (__init__ d).
Proof. split; [|by compute]. apply leibniz_equiv. by vm_compute. Qed.

Lemma writeFunction_well_formed_kept fuel c value :
  keeps well_formed_kept (writeFunction fuel c value).
Proof.
  eapply keeps_weaken; [apply same_registers_well_formed_kept|].
  apply writeFunction_same_registers.
Qed.

Lemma decode_response_well_formed_kept r c :
  keeps well_formed_kept (decode_response r c).
Proof.
  eapply keeps_weaken; [|apply (decode_response_pure r c)]. by intros s s' ->.
Qed.

Lemma getVal_well_formed_kept fuel c : keeps well_formed_kept (getVal fuel c).
Proof.
  unfold getVal. apply keeps_bind; [apply _|apply writeFunction_well_formed_kept|].
  intros r. apply decode_response_well_formed_kept.
Qed.

Lemma setVal_well_formed_kept fuel c value :
  keeps well_formed_kept (setVal fuel c value).
Proof.
  intros s. destruct (setVal_state fuel c value s) as [->|[payload ->]];
    [reflexivity | apply writeFunction_well_formed_kept].
Qed.

Lemma update_val_well_formed_kept fuel key :
  keeps well_formed_kept (update_val fuel key).
Proof.
  unfold update_val, dict_get.
  destruct (KEY_CMDS !! key) as [c|] eqn:Hk; [|apply keeps_raise; apply _].
  intros s. rewrite bind_ret_l. revert s.
  apply keeps_bind; [apply _|apply getVal_well_formed_kept|].
  intros v. destruct (negb (is_False v)); [|apply keeps_ret; apply _].
  intros s [Hd Hi]. split; [|done]. simpl.
  rewrite dom_insert_L, Hd.
  apply subseteq_union_1_L, singleton_subseteq_l, elem_of_dom. by exists c.
Qed.

Lemma update_vals_well_formed_kept fuel keys :
  keeps well_formed_kept (update_vals fuel keys).
Proof. apply keeps_for_each; [apply _..|]. apply update_val_well_formed_kept. Qed.

Lemma clear_device_well_formed_kept : keeps well_formed_kept __clear_device.
Proof.
  eapply keeps_weaken; [|apply clear_device_inbound_only].
  intros s s' H. by apply same_registers_well_formed_kept, inbound_only_same_registers.
Qed.

Lemma next_aux_well_formed_kept : keeps well_formed_kept __next_aux.
Proof.
  intros s [Hd Hi]. rewrite (next_aux_spec s Hi). split; [done|].
  simpl. apply Z.mod_pos_bound. lia.
Qed.

Lemma readAll_well_formed_kept fuel read_all_aux :
  keeps well_formed_kept (readAll fuel read_all_aux).
Proof.
  unfold readAll.
  apply keeps_bind; [apply _|apply clear_device_well_formed_kept|]. intros _.
  apply keeps_bind; [apply _|apply update_vals_well_formed_kept|]. intros _.
  apply keeps_bind; [apply _| |].
  - destruct read_all_aux; [apply update_vals_well_formed_kept|].
    apply keeps_bind; [apply _|apply next_aux_well_formed_kept|]. intros i.
    apply keeps_bind; [apply _|apply keeps_lift; apply _|]. intros key.
    apply update_val_well_formed_kept.
  - intros _. apply keeps_bind; [apply _|apply keeps_get; apply _|].
    intros self. apply keeps_ret; apply _.
Qed.

(** The shape of the driver's own state survives every poll cycle, whether
    it returns or raises: the dict still has exactly the ten register
    names and the cursor is still an index into [AUX_VALS].  The dict a
    cycle returns is that dict. *)
Theorem readAll_keeps_well_formed fuel read_all_aux s :
  well_formed s →
  well_formed (readAll fuel read_all_aux s).2 ∧
  ∀ r s', readAll fuel read_all_aux s = (Ret r, s') → dom r = dom KEY_CMDS.
Proof.
  intros Hw. pose proof (readAll_well_formed_kept fuel read_all_aux s Hw) as H.
  split; [done|]. intros r s' E. rewrite E in H. simpl in H.
  unfold readAll in E.
  apply bind_inv_Ret in E as (? & s1 & _ & E).
  apply bind_inv_Ret in E as (? & s2 & _ & E).
  apply bind_inv_Ret in E as (? & s3 & _ & E).
  injection E as <- <-. apply H.
Qed.

Lemma readAll_keeps_well_formed_witness :
  well_formed (readAll 3 false (__init__ steady_link)).2 ∧
  ∀ r s', readAll 3 false (__init__ steady_link) = (Ret r, s') →
          dom r = dom KEY_CMDS.
Proof.
  apply (readAll_keeps_well_formed 3 false (__init__ steady_link)).
  apply init_well_formed.
Defined.

(** ** What the driver lets through *)

Section RaisesOnly.
Context (E : exn → Prop).

Lemma raises_ret {A} (a : A) : raises_only E (ret a).
Proof. by intros s e s' _. Qed.

Lemma raises_get : raises_only E get.
Proof. by intros s e s' _. Qed.

Lemma raises_modify f : raises_only E (modify f).
Proof. by intros s e s' _. Qed.

Lemma raises_lift {A} (o : outcome A) :
  (∀ e, o = Raise e → E e) → raises_only E (lift o).
Proof. intros H s e s' _ [= -> _]. by apply H. Qed.

Lemma raises_dict_get {K V} `{Countable K} (d : gmap K V) k :
  is_Some (d !! k) → raises_only E (dict_get d k).
Proof. intros [v Hv] s e s' _. unfold dict_get. by rewrite Hv. Qed.

Lemma raises_bind {A B} (c : prog DL24M A) (k : A → prog DL24M B) :
  keeps well_formed_kept c →
  raises_only E c → (∀ a, raises_only E (k a)) → raises_only E (bind c k).
Proof.
  intros Hk Hc Hka s e s' Hw Hr.
  apply bind_inv_Raise in Hr as [Hr|(a & s1 & Hr1 & Hr2)].
  - by apply (Hc s e s').
  - apply (Hka a s1 e s'); [|done]. specialize (Hk s Hw). by rewrite Hr1 in Hk.
Qed.

Lemma raises_try_except {A} (c : prog DL24M A) handler :
  keeps well_formed_kept c →
  (∀ e, raises_only E (handler e)) →
  raises_only E (try_except c is_Exception handler).
Proof.
  intros Hk Hh s e s' Hw. unfold try_except.
  specialize (Hk s Hw). destruct (c s) as [[a|e'|] s1]; try done.
  simpl in *. by apply Hh.
Qed.

Lemma raises_for_each {A} (xs : list A) (body : A → prog DL24M unit) :
  (∀ x, keeps well_formed_kept (body x)) →
  Forall (fun x => raises_only E (body x)) xs →
  raises_only E (for_each xs body).
Proof.
  intros Hk Hb. induction Hb as [|x xs Hx _ IH]; simpl.
  - apply raises_ret.
  - apply raises_bind; auto.
Qed.

End RaisesOnly.

Lemma raises_weaken {A} (E E' : exn → Prop) (c : prog DL24M A) :
  (∀ e, E e → E' e) → raises_only E c → raises_only E' c.
Proof. intros H Hc s e s' Hw Hr. eapply H, Hc; eauto. Qed.

(** An exchange raises only when the frame cannot be built, before
    anything has been done. *)
Lemma writeFunction_raise fuel c value s e s' :
  writeFunction fuel c value s = (Raise e, s') →
  e = ValueError ∧ s' = s ∧ forallb is_byte (outbound c value) = false.
Proof.
  intros Hr. destruct (forallb is_byte (outbound c value)) eqn:Hb.
  - pose proof (writeFunction_no_raise fuel c value s e Hb) as Hn.
    by rewrite Hr in Hn.
  - unfold writeFunction, bytearray in Hr. fold (outbound c value) in Hr.
    rewrite Hb in Hr. by injection Hr as <- <-.
Qed.

Lemma decode_response_raise {S} (s s' : S) r c e :
  exchange_result r →
  decode_response r c s = (Raise e, s') → e = ValueError.
Proof.
  intros Hx Hr.
  destruct (decode_response_cases s r c Hx) as [Hd|(bs & -> & Hv)];
    [by rewrite Hd in Hr|].
  inversion Hx as [| |bs' Hl]; subst bs'. destruct Hv as (Hl8 & _).
  do 8 (destruct bs as [|? bs]; [simpl in Hl8; lia|]).
  destruct bs; [|simpl in Hl; lia].
  rewrite decode_frame8 in Hr.
  destruct (_ && _); [|done]. destruct (_ || _); [|done].
  unfold time in Hr. destruct (_ && _); [done|]. by injection Hr as <-.
Qed.

Lemma getVal_raise fuel c s e s' :
  getVal fuel c s = (Raise e, s') → e = ValueError.
Proof.
  intros Hr. unfold getVal in Hr.
  apply bind_inv_Raise in Hr as [Hr|(r & s1 & Hr1 & Hr2)].
  - by apply writeFunction_raise in Hr as [-> _].
  - eapply decode_response_raise; [|exact Hr2].
    eapply writeFunction_exchange_result; eauto.
Qed.

Lemma update_val_raises fuel key :
  is_Some (KEY_CMDS !! key) →
  raises_only (eq ValueError) (update_val fuel key).
Proof.
  intros [c Hk] s e s' _ Hr. unfold update_val, dict_get in Hr.
  rewrite Hk, bind_ret_l in Hr.
  apply bind_inv_Raise in Hr as [Hr|(v & s1 & Hr1 & Hr2)].
  - symmetry. by eapply getVal_raise.
  - by destruct (negb (is_False v)).
Qed.

Lemma update_vals_raises fuel keys :
  Forall (fun key => is_Some (KEY_CMDS !! key)) keys →
  raises_only (eq ValueError) (update_vals fuel keys).
Proof.
  intros Hk. apply raises_for_each; [intros; apply update_val_well_formed_kept|].
  eapply Forall_impl; [exact Hk|]. intros key. apply update_val_raises.
Qed.

Lemma readAll_raises fuel read_all_aux :
  raises_only (eq ValueError) (readAll fuel read_all_aux).
Proof.
  unfold readAll.
  apply raises_bind; [apply clear_device_well_formed_kept| |intros _].
  { intros s e s' _ Hr. unfold __clear_device, try_except in Hr.
    by destruct (bind _ _ s) as [[a|e'|] s1]. }
  apply raises_bind;
    [apply update_vals_well_formed_kept
    |apply update_vals_raises, FREQ_VALS_readable|intros _].
  apply raises_bind; [| |intros _].
  - destruct read_all_aux; [apply update_vals_well_formed_kept|].
    apply keeps_bind; [apply _|apply next_aux_well_formed_kept|]. intros i.
    apply keeps_bind; [apply _|apply keeps_lift; apply _|]. intros key.
    apply update_val_well_formed_kept.
  - destruct read_all_aux; [apply update_vals_raises, AUX_VALS_readable|].
    intros s e s' Hw Hr.
    rewrite (bind_Ret _ _ _ _ _ (next_aux_spec s (proj2 Hw))) in Hr.
    destruct (AUX_VALS_at ((aux_index s + 1) mod 5)) as (key & Eg & Ek).
    { apply Z.mod_pos_bound. lia. }
    erewrite bind_Ret in Hr; [|unfold lift; rewrite Eg; reflexivity].
    eapply (update_val_raises fuel key (mk_is_Some _ _ Ek)); [|exact Hr].
    split; [apply Hw|]. simpl. apply Z.mod_pos_bound. lia.
  - apply raises_bind; [apply keeps_get; apply _|apply raises_get|].
    intros self. apply raises_ret.
Qed.

(** The only exception a poll cycle lets through is [ValueError], the one
    a duration register out of the range of a time of day produces; every
    failure of the link is absorbed. *)
Theorem readAll_raises_only_ValueError fuel read_all_aux s e s' :
  well_formed s →
  readAll fuel read_all_aux s = (Raise e, s') →
  e = ValueError.
Proof. intros Hw Hr. symmetry. by eapply readAll_raises. Qed.

Lemma readAll_raises_only_ValueError_witness :
  let self := __init__ (reporting (fun _ => (24, 0, 0))) in
  ∃ e, (readAll 3 false self).1 = Raise e ∧ e = ValueError.
Proof.
  intros self.
  assert (E : (readAll 3 false self).1 = Raise ValueError)
    by (vm_compute; reflexivity).
  exists ValueError. split; [exact E|].
  exact (readAll_raises_only_ValueError 3 false self ValueError
           (readAll 3 false self).2 (init_well_formed _)
           (run_eta (readAll 3 false) self _ E)).
Defined.

(** ** Set frames *)

Lemma writeFunction_set fuel c value s :
  forallb is_byte (outbound c value) = true →
  session_open (device s) = true →
  c < 0x10 →
  writeFunction fuel c value s = (Ret PNone, sent s (outbound c value)).
Proof.
  intros Hb Ho Hc. unfold writeFunction, bytearray. fold (outbound c value).
  rewrite Hb, bind_lift_Ret.
  rewrite (try_except_bind_Ret _ _ _ _ _ _ _ (write_raw_open _ _ Ho)).
  by replace (16 <=? c) with false by (symmetry; lia).
Qed.

(** The conversion of the requested value into the payload of the frame,
    as a function of the value alone. *)
Lemma setVal_payload fuel c value s :
  ∃ o : outcome (list Z),
    (∀ p, o = Ret p → length p = 2%nat) ∧
    (∀ e, o = Raise e → e ∈ conversion_errors) ∧
    o ≠ Diverge ∧
    setVal fuel c value s
    = match o with
      | Ret p => (let* r := writeFunction fuel c p in
                  ret (PBool (py_eq r PNone))) s
      | Raise e => (Raise e, s)
      | Diverge => (Diverge, s)
      end.
Proof.
  unfold setVal, conversion_errors. destruct value as [|b|n|x|hh mm ss|bs|str].
  - destruct (_ && _).
    + exists (Ret [1; 0]). repeat split; try done. by intros p [= <-].
    + exists (Raise AttributeError). repeat split; try done.
      intros e [= <-]. set_solver.
  - destruct (_ && _).
    + exists (Ret [1; 0]). repeat split; try done. by intros p [= <-].
    + exists (int_to_bytes2_big (Z.b2z b)). unfold int_to_bytes2_big.
      destruct (_ || _); repeat split; try done.
      * intros e [= <-]. set_solver.
      * by intros p [= <-].
  - destruct (_ && _).
    + exists (Ret [1; 0]). repeat split; try done. by intros p [= <-].
    + exists (int_to_bytes2_big n). unfold int_to_bytes2_big.
      destruct (_ || _); repeat split; try done.
      * intros e [= <-]. set_solver.
      * by intros p [= <-].
  - exists (float_payload x). unfold float_payload.
    destruct (modf x) as [f i]. unfold int_of_float, round_float.
    destruct (Prim2SF i); (split; [|split; [|split]]);
      try (intros ? [= <-]; set_solver); try done;
      unfold bind, lift, ret; simpl;
      destruct (Prim2SF (f * 100)); try done;
      try (intros ? [= <-]; set_solver).
  - exists (int_to_bytes2_big (ss + mm * 60 + hh * 3600)). unfold int_to_bytes2_big.
    destruct (_ || _); repeat split; try done.
    + intros e [= <-]. set_solver.
    + by intros p [= <-].
  - destruct (_ && _).
    + exists (Ret [1; 0]). repeat split; try done. by intros p [= <-].
    + exists (Raise AttributeError). repeat split; try done.
      intros e [= <-]. set_solver.
  - destruct (_ && _).
    + exists (Ret [1; 0]). repeat split; try done. by intros p [= <-].
    + exists (Raise AttributeError). repeat split; try done.
      intros e [= <-]. set_solver.
Qed.

Lemma bind_ret_state {S A B} (c : prog S A) (f : A → B) s :
  (bind c (fun a => ret (f a)) s).2 = (c s).2.
Proof. unfold bind. by destruct (c s) as [[a|e|] s1]. Qed.

Lemma setVal_raise_clean fuel c value s e s' :
  setVal fuel c value s = (Raise e, s') →
  s' = s ∧ e ∈ conversion_errors.
Proof.
  intros Hr. destruct (setVal_payload fuel c value s) as (o & _ & He & Hd & Hs).
  rewrite Hs in Hr. destruct o as [p|e'|]; [| |done].
  - apply bind_inv_Raise in Hr as [Hr|(r & s1 & _ & Hr)]; [|done].
    apply writeFunction_raise in Hr as (-> & -> & _).
    split; [done|]. unfold conversion_errors. set_solver.
  - injection Hr as <- <-. split; [done|]. by apply He.
Qed.

(** [setVal] raises only while it converts the value or builds the frame,
    which is before it touches the link: the driver is then exactly as it
    was and nothing has been sent.  The exceptions are those of the
    conversions: [ValueError] (a byte out of range, NaN), [OverflowError]
    (a number that does not fit two bytes, an infinity) and
    [AttributeError] (a value without [to_bytes]). *)
Theorem setVal_raise_is_clean fuel c value s e s' :
  setVal fuel c value s = (Raise e, s') →
  s' = s ∧ e ∈ conversion_errors.
Proof. apply setVal_raise_clean. Qed.

Lemma setVal_raise_is_clean_witness :
  let self := __init__ (link []) in
  setVal 3 SETVCUT (PFloat 300) self = (Raise ValueError, self) ∧
  self = self ∧ ValueError ∈ conversion_errors.
Proof.
  intros self.
  assert (E : setVal 3 SETVCUT (PFloat 300) self = (Raise ValueError, self))
    by reflexivity.
  split; [exact E|].
  exact (setVal_raise_is_clean 3 SETVCUT (PFloat 300) self ValueError self E).
Defined.

(** Whatever it is asked to send, [setVal] writes one frame at most, and a
    frame it writes has the six bytes B1 B2, the command, two payload
    bytes, B6, all of them in the range of a byte; it never changes the
    register values or the cursor. *)
Theorem setVal_frame_shape fuel c value s :
  same_registers s (setVal fuel c value s).2 ∧
  (written (device (setVal fuel c value s).2) = written (device s) ∨
   ∃ p0 p1,
     forallb is_byte [c; p0; p1] = true ∧
     written (device (setVal fuel c value s).2)
     = written (device s) ++ [[0xB1; 0xB2; c; p0; p1; 0xB6]]).
Proof.
  destruct (setVal_payload fuel c value s) as (o & Hl & _ & _ & Hs).
  rewrite Hs. destruct o as [p|e|]; [|by split; [|left]..].
  rewrite bind_ret_state. split; [apply writeFunction_same_registers|].
  rewrite writeFunction_written.
  destruct (forallb is_byte (outbound c p)) eqn:Hb; simpl;
    [|left; by rewrite app_nil_r].
  destruct (session_open (device s)); [|left; by rewrite app_nil_r].
  right. specialize (Hl p eq_refl).
  destruct p as [|p0 [|p1 [|? ?]]]; try done.
  exists p0, p1. split; [|done].
  unfold outbound in Hb. simpl in *.
  by repeat (apply andb_prop in Hb as [? Hb]; rewrite ?H, ?H0, ?H1; simpl).
Qed.

Lemma setVal_sends fuel c p0 p1 s :
  session_open (device s) = true →
  0 <= c < 0x10 →
  is_byte p0 = true → is_byte p1 = true →
  (let* r := writeFunction fuel c [p0; p1] in ret (PBool (py_eq r PNone))) s
  = (Ret (PBool true), sent s [0xB1; 0xB2; c; p0; p1; 0xB6]).
Proof.
  intros Ho Hc H0 H1.
  assert (Hb : forallb is_byte (outbound c [p0; p1]) = true).
  { unfold outbound. simpl. rewrite H0, H1. unfold is_byte. simpl. lia. }
  by rewrite (bind_Ret _ _ _ _ _
                (writeFunction_set fuel c [p0; p1] s Hb Ho ltac:(lia))).
Qed.

(** A timer is sent as its number of seconds in two bytes, high byte
    first.  Two bytes end at 65535 s: a time of day from 18:12:16 on makes
    [setVal] raise [OverflowError] before anything is sent. *)
Theorem setVal_timer fuel c hh mm ss s :
  session_open (device s) = true →
  0 <= c < 0x10 →
  0 <= hh < 24 → 0 <= mm < 60 → 0 <= ss < 60 →
  let total := ss + mm * 60 + hh * 3600 in
  setVal fuel c (PTime hh mm ss) s
  = if total <=? 65535
    then (Ret (PBool true),
          sent s [0xB1; 0xB2; c; total / 256; total mod 256; 0xB6])
    else (Raise OverflowError, s).
Proof.
  intros Ho Hc Hh Hm Hs total. unfold setVal, int_to_bytes2_big. fold total.
  replace (total <? 0) with false by (symmetry; lia).
  rewrite Z.ltb_antisym. destruct (total <=? 65535) eqn:Ht; simpl; [|done].
  rewrite bind_lift_Ret. apply setVal_sends; try done.
  - unfold is_byte. apply andb_true_intro. split.
    + apply Z.leb_le, Z.div_pos; lia.
    + apply Z.ltb_lt, Z.div_lt_upper_bound; lia.
  - unfold is_byte. pose proof (Z.mod_pos_bound total 256). lia.
Qed.

Lemma setVal_timer_witness :
  let self := __init__ (link []) in
  setVal 3 SETTMR (PTime 18 12 16) self = (Raise OverflowError, self).
Proof.
  intros self.
  apply (setVal_timer 3 SETTMR 18 12 16 self); by compute.
Defined.

Lemma setVal_float fuel c x s p :
  float_payload x = Ret p →
  setVal fuel c (PFloat x) s
  = (let* r := writeFunction fuel c p in ret (PBool (py_eq r PNone))) s.
Proof.
  unfold setVal, float_payload. destruct (modf x) as [f i].
  unfold bind at 2 3, lift, ret.
  destruct (int_of_float i) as [ip| |]; [|done..].
  destruct (round_float (f * 100)) as [fp| |]; [|done..].
  by intros [= <-].
Qed.

Lemma float_payload_centi raw :
  0 <= raw < 3000 →
  float_payload (centi raw) = Ret [raw / 100; raw mod 100].
Proof.
  intros Hr.
  assert (H : forallb
                (fun n =>
                   match float_payload (centi n) with
                   | Ret [a; b] => (a =? n / 100) && (b =? n mod 100)
                   | _ => false
                   end) (seqZ 0 3000) = true)
    by (vm_cast_no_check (eq_refl true)).
  rewrite forallb_forall in H.
  specialize (H raw ltac:(apply list_elem_of_In, elem_of_seqZ; lia)).
  destruct (float_payload (centi raw)) as [[|a [|b [|? ?]]]| |];
    try discriminate H.
  apply andb_prop in H as [->%Z.eqb_eq ->%Z.eqb_eq]. done.
Qed.

Lemma setVal_centi fuel c raw s :
  session_open (device s) = true →
  0 <= c < 0x10 →
  0 <= raw < 3000 →
  setVal fuel c (PFloat (centi raw)) s
  = (Ret (PBool true),
     sent s [0xB1; 0xB2; c; raw / 100; raw mod 100; 0xB6]).
Proof.
  intros Ho Hc Hr.
  rewrite (setVal_float fuel c _ s _ (float_payload_centi raw Hr)).
  apply setVal_sends; try done; unfold is_byte.
  - apply andb_true_intro. split.
    + apply Z.leb_le, Z.div_pos; lia.
    + apply Z.ltb_lt, Z.div_lt_upper_bound; lia.
  - pose proof (Z.mod_pos_bound raw 100). lia.
Qed.

(** A set point with two decimals, from 0.00 to 29.99, is sent as its
    integer part and its hundredths: for every such literal the two float
    operations of the conversion ([modf], then [round] of the fraction
    times 100) land on the digits that were written.  The registers that
    report set points in hundredths read as the same floats, so a value
    read from them is sent back unchanged. *)
Theorem setVal_hundredths fuel c raw s :
  session_open (device s) = true →
  0 <= c < 0x10 →
  0 <= raw < 3000 →
  setVal fuel c (PFloat (centi raw)) s
  = (Ret (PBool true),
     sent s [0xB1; 0xB2; c; raw / 100; raw mod 100; 0xB6]) ∧
  ∀ b3 b4 b5,
    b3 * 65536 + b4 * 256 + b5 = raw →
    reading LIM_CURR b3 b4 b5 = Ret (PFloat (centi raw)) ∧
    reading LIM_VOLT b3 b4 b5 = Ret (PFloat (centi raw)).
Proof.
  intros Ho Hc Hr. split; [by apply setVal_centi|].
  intros b3 b4 b5 <-. split; reflexivity.
Qed.

Lemma setVal_hundredths_witness :
  let self := __init__ (link []) in
  setVal 3 SETVCUT (PFloat (centi 1234)) self
  = (Ret (PBool true), sent self [0xB1; 0xB2; SETVCUT; 12; 34; 0xB6]) ∧
  ∀ b3 b4 b5,
    b3 * 65536 + b4 * 256 + b5 = 1234 →
    reading LIM_CURR b3 b4 b5 = Ret (PFloat (centi 1234)) ∧
    reading LIM_VOLT b3 b4 b5 = Ret (PFloat (centi 1234)).
Proof.
  intros self.
  apply (setVal_hundredths 3 SETVCUT 1234 self); by compute.
Defined.

(** ** Register updates *)

Lemma update_val_effect fuel key s :
  aux_index (update_val fuel key s).2 = aux_index s ∧
  (data (update_val fuel key s).2 = data s ∨
   ∃ v, is_False v = false ∧
        data (update_val fuel key s).2 = <[key := v]> (data s)).
Proof.
  split; [apply (lk_aux_index _ _ (update_val_link_kept fuel key s))|].
  unfold update_val, dict_get.
  destruct (KEY_CMDS !! key) as [c|]; [|by left].
  rewrite bind_ret_l.
  pose proof (getVal_device fuel c s) as Hg.
  pose proof (writeFunction_same_registers fuel c [0; 0] s) as [Hd _].
  rewrite <- Hg in Hd.
  unfold bind. destruct (getVal fuel c s) as [[v|e|] s1]; simpl in *;
    [|by left..].
  destruct (is_False v) eqn:Hv; simpl; [by left|].
  right. exists v. by rewrite Hd.
Qed.

(** A register read changes at most the entry of its own key, and what it
    stores there is a decoded reading, never the failure value [False];
    the cursor and every other entry stay as they were. *)
Theorem update_val_touches_one_key fuel key s :
  aux_index (update_val fuel key s).2 = aux_index s ∧
  (data (update_val fuel key s).2 = data s ∨
   ∃ v, is_False v = false ∧
        data (update_val fuel key s).2 = <[key := v]> (data s)).
Proof. apply update_val_effect. Qed.

(** ** The command executor on the driver's own state *)

#[local] Instance only_keys_refl keys : Reflexive (only_keys keys).
Proof. by intros s k Hk. Qed.

#[local] Instance only_keys_trans keys : Transitive (only_keys keys).
Proof. intros s1 s2 s3 H1 H2 k Hk. by rewrite H2, H1. Qed.

Lemma same_registers_only_keys keys s s' : same_registers s s' → only_keys keys s s'.
Proof. intros [Hd _] k _. by rewrite Hd. Qed.

Lemma setVal_only_keys keys fuel c value : keeps (only_keys keys) (setVal fuel c value).
Proof.
  intros s. apply same_registers_only_keys.
  destruct (setVal_state fuel c value s) as [->|[payload ->]];
    [reflexivity | apply writeFunction_same_registers].
Qed.

Lemma update_val_only_keys keys fuel key :
  key ∈ keys → keeps (only_keys keys) (update_val fuel key).
Proof.
  intros Hin s k Hk.
  destruct (update_val_effect fuel key s) as [_ [->|(v & _ & ->)]];
    [done|].
  apply lookup_insert_ne. by intros ->.
Qed.

Lemma update_vals_only_keys keys fuel ks :
  ks ⊆ keys → keeps (only_keys keys) (update_vals fuel ks).
Proof.
  intros Hs. unfold update_vals. induction ks as [|k ks IH]; simpl.
  - apply keeps_ret; apply _.
  - apply keeps_bind; [apply _| |intros _].
    + apply update_val_only_keys, Hs. by left.
    + apply IH. intros x Hx. apply Hs. by right.
Qed.

Lemma setVal_raises fuel c value :
  raises_only (fun e => e ∈ conversion_errors) (setVal fuel c value).
Proof. intros s e s' _ Hr. by apply setVal_raise_clean in Hr as [_ ?]. Qed.

Lemma setVal_closed fuel c value s :
  session_open (device s) = false →
  setVal fuel c value s = (Ret (PBool false), s) ∨
  ∃ e, setVal fuel c value s = (Raise e, s) ∧ e ∈ conversion_errors.
Proof.
  intros Ho. destruct (setVal_payload fuel c value s) as (o & _ & He & Hd & ->).
  destruct o as [p|e|]; [| |done].
  - destruct (forallb is_byte (outbound c p)) eqn:Hb.
    + left. by rewrite (bind_Ret _ _ _ _ _ (writeFunction_closed fuel c p s Hb Ho)).
    + right. exists ValueError. split; [|unfold conversion_errors; set_solver].
      apply bind_Raise. unfold writeFunction, bytearray. fold (outbound c p).
      by rewrite Hb.
  - right. exists e. split; [done|]. by apply He.
Qed.

Section CommandFacts.
Context `{Instrument}.

Ltac command_tac IH :=
  repeat first
    [ match goal with |- Reflexive _ => apply _ end
    | match goal with |- Transitive _ => apply _ end
    | match goal with |- ∀ _, _ => intro end
    | match goal with |- keeps _ (if ?b then _ else _) => destruct b end
    | apply IH
    | apply setVal_well_formed_kept | apply update_val_well_formed_kept
    | apply update_vals_well_formed_kept
    | apply setVal_link_kept | apply update_val_link_kept
    | apply update_vals_link_kept | apply command_loop_link_kept
    | apply setVal_only_keys
    | apply keeps_ret | apply keeps_get | apply keeps_dict_get
    | apply keeps_bind ].

Lemma command_loop_well_formed_kept fuel range cmd value :
  keeps well_formed_kept (command_loop fuel range cmd value).
Proof.
  induction range as [|i range IH]; simpl; [apply keeps_ret; apply _|].
  command_tac IH.
Qed.

Lemma command_well_formed_kept fuel cmd value :
  keeps well_formed_kept (command fuel cmd value).
Proof.
  unfold command.
  pose proof (command_loop_well_formed_kept fuel [0; 1; 2] cmd value) as Hl.
  command_tac Hl.
Qed.

Lemma command_link_kept fuel cmd value : keeps link_kept (command fuel cmd value).
Proof. unfold command. command_tac I. Qed.

(** A command leaves the driver's own state in shape, whether it returns
    or raises: the dict keeps its ten names, and the cursor of the polling
    rotation is where it was, also after the five reads that follow a
    reset. *)
Theorem command_keeps_well_formed fuel cmd value s :
  well_formed s →
  well_formed (command fuel cmd value s).2 ∧
  aux_index (command fuel cmd value s).2 = aux_index s.
Proof.
  intros Hw. split; [by apply command_well_formed_kept|].
  apply (lk_aux_index _ _ (command_link_kept fuel cmd value s)).
Qed.

Lemma raises_lookup_data {A} (E : exn → Prop) key (k : pyval → prog DL24M A) :
  is_Some (KEY_CMDS !! key) →
  (∀ seen, raises_only E (k seen)) →
  raises_only E (let* self := get in let* seen := dict_get (data self) key in k seen).
Proof.
  intros Hk Hr s e s' Hw. unfold bind at 1, get. unfold dict_get.
  assert (is_Some (data s !! key)) as [seen ->].
  { apply elem_of_dom. rewrite (proj1 Hw). by apply elem_of_dom. }
  rewrite bind_ret_l. by apply Hr.
Qed.

Lemma command_loop_raises fuel range cmd value code :
  COMMANDS !! cmd = Some code →
  raises_only (fun e => e ∈ conversion_errors) (command_loop fuel range cmd value).
Proof.
  intros Hc. destruct (VERIFY_CMD_recognized cmd code Hc) as (key & vcode & Hv & Hk).
  induction range as [|i range IH]; simpl; [apply raises_ret|].
  apply raises_bind; [apply keeps_dict_get; apply _|by apply raises_dict_get|].
  intros code'.
  apply raises_bind; [apply setVal_well_formed_kept|apply setVal_raises|]. intros _.
  unfold dict_get at 1 2. rewrite Hv.
  intros s e s' Hw Hr. rewrite bind_ret_l in Hr. revert s e s' Hw Hr.
  apply raises_bind; [apply update_val_well_formed_kept| |intros _].
  { eapply raises_weaken; [|apply update_val_raises; by eexists].
    intros e <-. unfold conversion_errors. set_solver. }
  intros s e s' Hw Hr. rewrite bind_ret_l in Hr. revert s e s' Hw Hr.
  apply raises_lookup_data; [by eexists|]. intros seen.
  destruct (py_eq seen value); [apply raises_ret | apply IH].
Qed.

(** From a driver in shape, a command lets through only the exceptions of
    the value conversion and the [ValueError] of a duration out of range:
    no [KeyError] from its three dict lookups, and nothing from the link. *)
Theorem command_raises_only fuel cmd value s e s' :
  well_formed s →
  command fuel cmd value s = (Raise e, s') →
  e ∈ conversion_errors.
Proof.
  intros Hw Hr. unfold command in Hr.
  destruct (bool_decide (cmd ∈ dom COMMANDS)) eqn:Hd; [|done].
  apply bool_decide_eq_true_1, elem_of_dom in Hd as [code Hc]. cbn [negb] in Hr.
  revert s e s' Hw Hr.
  apply raises_bind;
    [apply command_loop_well_formed_kept|by eapply command_loop_raises|intros _].
  apply raises_bind; [| |intros _; apply raises_ret].
  - destruct (bool_decide _);
      [apply update_vals_well_formed_kept | apply keeps_ret; apply _].
  - destruct (bool_decide _); [|apply raises_ret].
    eapply raises_weaken; [|apply update_vals_raises, AUX_VALS_readable].
    intros e <-. unfold conversion_errors. set_solver.
Qed.

Lemma command_loop_closed fuel range cmd value code s :
  COMMANDS !! cmd = Some code →
  well_formed s →
  session_open (device s) = false →
  ∃ o, command_loop fuel range cmd value s = (o, s) ∧
       (o = Ret tt ∨ ∃ e, o = Raise e ∧ e ∈ conversion_errors).
Proof.
  intros Hc Hw Ho.
  destruct (VERIFY_CMD_recognized cmd code Hc) as (key & vcode & Hv & Hk).
  assert (is_Some (data s !! key)) as [seen Hs].
  { apply elem_of_dom. rewrite (proj1 Hw). apply elem_of_dom. by eexists. }
  induction range as [|i range IH]; simpl; [exists (Ret tt); by split; [|left]|].
  unfold dict_get at 1. rewrite Hc, bind_ret_l.
  destruct (setVal_closed fuel code value s Ho) as [Es|(e & Es & He)].
  - rewrite (bind_Ret _ _ _ _ _ Es).
    unfold dict_get at 1. rewrite Hv, bind_ret_l.
    rewrite (bind_Ret _ _ _ _ _ (update_val_closed fuel key s (mk_is_Some _ _ Hk) Ho)).
    unfold dict_get at 1. rewrite Hv, bind_ret_l.
    unfold bind at 1, get. unfold dict_get. rewrite Hs, bind_ret_l.
    destruct (py_eq seen value); [exists (Ret tt); by split; [|left] | exact IH].
  - rewrite (bind_Raise _ _ _ _ _ Es). exists (Raise e). split; [done|].
    right. by exists e.
Qed.

(** On a link whose session is gone a recognised command changes nothing
    and sends nothing.  Unless the value cannot be converted, in which
    case the conversion error is raised, it returns [None], as it does
    after a verified write: the caller is not told. *)
Theorem command_on_lost_link fuel cmd value s :
  cmd ∈ dom COMMANDS →
  well_formed s →
  session_open (device s) = false →
  command fuel cmd value s = (Ret PNone, s) ∨
  ∃ e, command fuel cmd value s = (Raise e, s) ∧ e ∈ conversion_errors.
Proof.
  intros Hd Hw Ho. pose proof Hd as [code Hc]%elem_of_dom.
  unfold command. rewrite (bool_decide_eq_true_2 _ Hd). cbn [negb].
  destruct (command_loop_closed fuel [0; 1; 2] cmd value code s Hc Hw Ho)
    as (o & El & [->|(e & -> & He)]).
  - left. rewrite (bind_Ret _ _ _ _ _ El).
    destruct (bool_decide _); [|done].
    by rewrite (bind_Ret _ _ _ _ _
                  (update_vals_closed fuel AUX_VALS s AUX_VALS_readable Ho)).
  - right. exists e. split; [|done]. by apply bind_Raise.
Qed.

Lemma command_loop_only_keys fuel range cmd value key :
  VERIFY_CMD !! cmd = Some key →
  ∀ keys, key ∈ keys → keeps (only_keys keys) (command_loop fuel range cmd value).
Proof.
  intros Hv keys Hin. induction range as [|i range IH]; simpl;
    [apply keeps_ret; apply _|].
  apply keeps_bind; [apply _|apply keeps_dict_get; apply _|]. intros code.
  apply keeps_bind; [apply _|apply setVal_only_keys|]. intros _.
  unfold dict_get at 1 2. rewrite Hv.
  intros s. rewrite bind_ret_l. revert s.
  apply keeps_bind; [apply _|by apply update_val_only_keys|]. intros _.
  intros s. rewrite bind_ret_l. revert s.
  apply keeps_bind; [apply _|apply keeps_get; apply _|]. intros self.
  apply keeps_bind; [apply _|apply keeps_dict_get; apply _|]. intros seen.
  destruct (py_eq seen value); [apply keeps_ret; apply _ | exact IH].
Qed.

(** A command changes no register entry but the one it verifies against;
    the reset command, which re-reads the auxiliary registers afterwards,
    may change those five as well.  The measured values a poll has stored
    are never touched by a command. *)
Theorem command_touches_only fuel cmd value key s :
  VERIFY_CMD !! cmd = Some key →
  only_keys (key :: if bool_decide (cmd = COMMAND_RESET) then AUX_VALS else [])
    s (command fuel cmd value s).2.
Proof.
  intros Hv. revert s. fold (keeps (only_keys
    (key :: if bool_decide (cmd = COMMAND_RESET) then AUX_VALS else []))
    (command fuel cmd value)).
  unfold command. destruct (negb _); [apply keeps_ret; apply _|].
  apply keeps_bind; [apply _| |intros _].
  { eapply command_loop_only_keys; [done|]. by left. }
  apply keeps_bind; [apply _| |intros _; apply keeps_ret; apply _].
  destruct (bool_decide _); [|apply keeps_ret; apply _].
  apply update_vals_only_keys. intros x Hx. by right.
Qed.

End CommandFacts.

Lemma command_keeps_well_formed_witness :
  let self := __init__ steady_link in
  well_formed (@command bench_instrument 3 "reset" (PFloat 0) self).2 ∧
  aux_index (@command bench_instrument 3 "reset" (PFloat 0) self).2
  = aux_index self.
Proof.
  intros self.
  apply (@command_keeps_well_formed bench_instrument 3 "reset" (PFloat 0) self).
  apply init_well_formed.
Defined.

Lemma command_raises_only_witness :
  let self := __init__ (link []) in
  ∃ e, (@command bench_instrument 3 "set_voltage" (PFloat 300) self).1 = Raise e ∧
       e ∈ conversion_errors.
Proof.
  intros self.
  assert (E : (@command bench_instrument 3 "set_voltage" (PFloat 300) self).1
              = Raise ValueError) by (vm_compute; reflexivity).
  exists ValueError. split; [exact E|].
  exact (@command_raises_only bench_instrument 3 "set_voltage" (PFloat 300)
           self ValueError _ (init_well_formed _)
           (run_eta (@command bench_instrument 3 "set_voltage" (PFloat 300))
              self _ E)).
Defined.

Lemma command_on_lost_link_witness :
  let self := __init__ dead_link in
  @command bench_instrument 3 "enable" (PInt 1) self = (Ret PNone, self) ∨
  ∃ e, @command bench_instrument 3 "enable" (PInt 1) self = (Raise e, self) ∧
       e ∈ conversion_errors.
Proof.
  intros self.
  apply (@command_on_lost_link bench_instrument 3 "enable" (PInt 1) self);
    [|apply init_well_formed|reflexivity].
  apply elem_of_dom. eexists. reflexivity.
Defined.

Lemma command_touches_only_witness :
  let self := __init__ steady_link in
  only_keys ["is_on"%string] self
    (@command bench_instrument 3 "enable" (PInt 1) self).2.
Proof.
  intros self.
  apply (@command_touches_only bench_instrument 3 "enable" (PInt 1) "is_on" self).
  reflexivity.
Defined.

(** ** Shutting down *)

Lemma turnOFF_run fuel s :
  turnOFF fuel s
  = (Ret tt,
     if session_open (device s)
     then sent s [0xB1; 0xB2; OUTPUT_ON; 0x00; 0x00; 0xB6] else s).
Proof.
  unfold turnOFF, setVal. cbn [truthy]. change (DISABLED =? 0) with true.
  cbn [negb andb]. rewrite andb_false_r.
  change (int_to_bytes2_big DISABLED) with (@Ret (list Z) [0; 0]).
  rewrite bind_assoc, bind_lift_Ret, bind_assoc.
  destruct (session_open (device s)) eqn:Ho.
  - by rewrite (bind_Ret _ _ _ _ _
                  (writeFunction_set fuel OUTPUT_ON [0; 0] s eq_refl Ho eq_refl)).
  - by rewrite (bind_Ret _ _ _ _ _
                  (writeFunction_closed fuel OUTPUT_ON [0; 0] s eq_refl Ho)).
Qed.

(** [turnOFF] always returns.  On an open link it sends one frame, the
    output command with payload 00 00, and reads nothing; on a lost link
    it does nothing at all. *)
Theorem turnOFF_sends_output_off fuel s :
  turnOFF fuel s
  = (Ret tt,
     if session_open (device s)
     then sent s [0xB1; 0xB2; OUTPUT_ON; 0x00; 0x00; 0xB6] else s).
Proof. apply turnOFF_run. Qed.

Lemma readAll_deep_closed fuel s :
  session_open (device s) = false →
  readAll fuel true s = (Ret (data s), s).
Proof.
  intros Ho. unfold readAll.
  rewrite (bind_Ret _ _ _ _ _ (clear_device_closed s Ho)).
  rewrite (bind_Ret _ _ _ _ _ (update_vals_closed fuel _ s FREQ_VALS_readable Ho)).
  by rewrite (bind_Ret _ _ _ _ _ (update_vals_closed fuel _ s AUX_VALS_readable Ho)).
Qed.

(** [close] always returns and leaves the session closed; the last frame
    it has sent on an open link is the one that switches the output off;
    register values and cursor are kept.  Closing again changes nothing,
    and on the closed driver a deep poll cycle returns the values as they
    were, without sending. *)
Theorem close_ends_session fuel s :
  ∃ s',
    close fuel s = (Ret tt, s') ∧
    session_open (device s') = false ∧
    written (device s') =
      written (device s) ++
      (if session_open (device s)
       then [[0xB1; 0xB2; OUTPUT_ON; 0x00; 0x00; 0xB6]] else []) ∧
    data s' = data s ∧ aux_index s' = aux_index s ∧
    close fuel s' = (Ret tt, s') ∧
    readAll fuel true s' = (Ret (data s), s').
Proof.
  unfold close. rewrite (bind_Ret _ _ _ _ _ (turnOFF_run fuel s)).
  eexists. split; [reflexivity|].
  destruct s as [[o sr rp st ib w] ai dt]. simpl.
  split; [done|]. split; [by destruct o; rewrite ?app_nil_r|].
  split; [by destruct o|]. split; [by destruct o|]. split.
  - rewrite (bind_Ret _ _ _ _ _ (turnOFF_run fuel _)). by destruct o.
  - destruct o; by rewrite readAll_deep_closed.
Qed.

(** ** An instrument that does not answer *)

Lemma writeFunction_unanswered fuel c value s :
  forallb is_byte (outbound c value) = true →
  session_open (device s) = true →
  0x10 <= c →
  inbuf (device s) ++ reply (device s) (outbound c value) = [] →
  writeFunction fuel c value s
  = (Ret (PBool false), with_inbuf (sent s (outbound c value)) []).
Proof.
  intros Hb Ho Hc Hi. unfold writeFunction, bytearray. fold (outbound c value).
  rewrite Hb, bind_lift_Ret.
  rewrite (try_except_bind_Ret _ _ _ _ _ _ _ (write_raw_open _ _ Ho)).
  replace (16 <=? c) with true by (symmetry; lia).
  change (8 =? 0) with false. cbv iota. change (Z.to_nat 8) with 8%nat.
  unfold try_except, bind at 1, on_device, read_bytes. simpl.
  rewrite Ho, Hi. simpl.
  destruct (short_reads (device s)); reflexivity.
Qed.

Lemma getVal_unanswered fuel c s :
  session_open (device s) = true →
  0x10 <= c < 256 →
  inbuf (device s) ++ reply (device s) (query c) = [] →
  getVal fuel c s = (Ret (PBool false), with_inbuf (sent s (query c)) []).
Proof.
  intros Ho Hc Hi. unfold getVal.
  assert (Hb : forallb is_byte (outbound c [0; 0]) = true)
    by (unfold outbound, is_byte; simpl; lia).
  by rewrite (bind_Ret _ _ _ _ _
                (writeFunction_unanswered fuel c [0; 0] s Hb Ho ltac:(lia) Hi)).
Qed.

(** ** Probing *)

Lemma on_driver_run {A} (c : prog DL24M A) p o s :
  c (driver p) = (o, s) →
  on_driver c p = (o, {| driver := s; port := port p |}).
Proof. intros E. unfold on_driver. by rewrite E. Qed.

Lemma prefix_cons_ne a s1 c s2 :
  a ≠ c → String.prefix (String a s1) (String c s2) = false.
Proof.
  intros Hne.
  change (String.prefix (String a s1) (String c s2))
    with (match ascii_dec a c with
          | left _ => String.prefix s1 s2
          | right _ => false
          end).
  by destruct (ascii_dec a c).
Qed.

Lemma prefix_append s n : String.prefix s (s +:+ n) = true.
Proof.
  induction s as [|a s IH]; [by destruct n|].
  change (String.prefix (String a s) (String a s +:+ n))
    with (match ascii_dec a a with
          | left _ => String.prefix s (s +:+ n)
          | right _ => false
          end).
  by destruct (ascii_dec a a).
Qed.

Lemma split_head_plain (n tl : string) :
  Forall (fun c => c ≠ ":"%char) (String.list_ascii_of_string n) →
  split_head "::" (n +:+ "::" +:+ tl) = n.
Proof.
  induction n as [|c n IH]; intros Hn; [by destruct tl|].
  apply Forall_cons in Hn as [Hc Hn].
  change (split_head "::" (String c n +:+ "::" +:+ tl))
    with (if String.prefix "::" (String c (n +:+ "::" +:+ tl)) then EmptyString
          else String c (split_head "::" (n +:+ "::" +:+ tl))).
  rewrite IH by done.
  change (String c n +:+ "::" +:+ tl) with (String c (n +:+ "::" +:+ tl)).
  by rewrite prefix_cons_ne.
Qed.

Lemma replace_plain (n : string) :
  Forall (fun c => c ≠ "A"%char) (String.list_ascii_of_string n) →
  replace_from 0 "ASRL" EmptyString n = n.
Proof.
  induction n as [|c n IH]; intros Hn; [done|].
  apply Forall_cons in Hn as [Hc Hn].
  change (replace_from 0 "ASRL" EmptyString (String c n))
    with (if String.prefix "ASRL" (String c n)
          then EmptyString +:+ replace_from 3 "ASRL" EmptyString n
          else String c (replace_from 0 "ASRL" EmptyString n)).
  rewrite IH by done. by rewrite prefix_cons_ne.
Qed.

(** The port [probe] records for a serial resource named
    ASRL<port>::INSTR is <port>, for every port name without a colon and
    without a capital A. *)
Theorem probe_port_of_resource_name (n : string) :
  Forall (fun c => c ≠ ":"%char ∧ c ≠ "A"%char) (String.list_ascii_of_string n) →
  replace "ASRL" EmptyString (split_head "::" ("ASRL" +:+ n +:+ "::INSTR")) = n.
Proof.
  intros Hn.
  change (split_head "::" ("ASRL" +:+ n +:+ "::INSTR"))
    with ("ASRL" +:+ split_head "::" (n +:+ "::" +:+ "INSTR")).
  rewrite split_head_plain by (eapply Forall_impl; [exact Hn|]; by intros c []).
  change (replace "ASRL" EmptyString ("ASRL" +:+ n))
    with (if String.prefix "ASRL" ("ASRL" +:+ n)
          then replace_from 0 "ASRL" EmptyString n
          else String "A" (replace_from 0 "ASRL" EmptyString ("SRL" +:+ n))).
  rewrite prefix_append.
  apply replace_plain. eapply Forall_impl; [exact Hn|]. by intros c [].
Qed.

Lemma probe_port_of_resource_name_witness :
  replace "ASRL" EmptyString (split_head "::" "ASRL/dev/ttyUSB0::INSTR")
  = "/dev/ttyUSB0"%string.
Proof.
  apply (probe_port_of_resource_name "/dev/ttyUSB0").
  repeat constructor; discriminate.
Defined.

Lemma setup_device_run s :
  session_open (device s) = true →
  __setup_device s = (Ret tt, set_device s (set_settings (device s) configured)).
Proof.
  destruct s as [[o sr rp st ib w] ai dt]. simpl. by intros ->.
Qed.

Lemma get_resource_name_open resource s :
  session_open (device s) = true →
  on_device (get_resource_name resource) s = (Ret (resource_name resource), s).
Proof.
  intros Ho. unfold on_device, get_resource_name. rewrite Ho.
  by rewrite set_device_id.
Qed.

(** On a serial resource whose session is gone [probe] does not answer
    [False]: reading the resource name raises, nothing in [probe] catches
    it, and the driver is left as it was, without a port. *)
Theorem probe_on_lost_link fuel resource p :
  is_serial resource = true →
  session_open (device (driver p)) = false →
  probe fuel resource p = (Raise VisaIOError, p).
Proof.
  intros Hs Ho. unfold probe. rewrite Hs. cbn [negb].
  erewrite bind_Raise; [reflexivity|].
  unfold on_driver, on_device, get_resource_name. rewrite Ho.
  destruct p as [[d ai dt] pt]. reflexivity.
Qed.

Lemma probe_on_lost_link_witness :
  probe 3 {| is_serial := true; resource_name := "ASRL3::INSTR" |}
    {| driver := __init__ dead_link; port := None |}
  = (Raise VisaIOError, {| driver := __init__ dead_link; port := None |}).
Proof.
  apply (probe_on_lost_link 3 {| is_serial := true; resource_name := "ASRL3::INSTR" |}
           {| driver := __init__ dead_link; port := None |}); reflexivity.
Defined.

(** On an open serial link [probe] sets the line to 9600 baud, 8 data
    bits, one stop bit, no parity, no flow control and a timeout of
    500 ms, discards what is waiting in the input queue, and queries the
    voltage once.  It answers [True] when the instrument reports a
    voltage, and [False] when nothing comes back; a resource of another
    class is answered [False] without being touched. *)
Theorem probe_answers fuel resource p :
  (3 <= fuel)%nat →
  session_open (device (driver p)) = true →
  let name := replace "ASRL" EmptyString (split_head "::" (resource_name resource)) in
  let line := set_device (driver p) (set_settings (device (driver p)) configured) in
  (is_serial resource = false → probe fuel resource p = (Ret (PBool false), p)) ∧
  (is_serial resource = true →
   ∀ v, reports (device (driver p)) VOLTAGE v →
        probe fuel resource p
        = (Ret (PBool true),
           {| driver := with_inbuf (sent line (query VOLTAGE)) [];
              port := Some name |})) ∧
  (is_serial resource = true →
   reply (device (driver p)) (query VOLTAGE) = [] →
   probe fuel resource p
   = (Ret (PBool false),
      {| driver := with_inbuf (sent line (query VOLTAGE)) [];
         port := Some name |})).
Proof.
  intros Hf Ho name line. split; [|split].
  - intros Hs. unfold probe. by rewrite Hs.
  - intros Hs v (b3 & b4 & b5 & Hq & Hv). unfold probe. rewrite Hs. cbn [negb].
    erewrite bind_Ret; [|by apply on_driver_run, get_resource_name_open].
    unfold bind at 1, modify.
    erewrite bind_Ret; [|by apply on_driver_run, setup_device_run].
    erewrite bind_Ret; [|by apply on_driver_run, clear_device_open].
    erewrite bind_Ret.
    2: { apply on_driver_run.
         apply (getVal_reads fuel VOLTAGE _ [] b3 b4 b5 []);
           [done|done| |apply not_elem_of_nil|simpl; lia].
         simpl. by rewrite Hq. }
    unfold reading in Hv. simpl in Hv. injection Hv as <-. reflexivity.
  - intros Hs Hq. unfold probe. rewrite Hs. cbn [negb].
    erewrite bind_Ret; [|by apply on_driver_run, get_resource_name_open].
    unfold bind at 1, modify.
    erewrite bind_Ret; [|by apply on_driver_run, setup_device_run].
    erewrite bind_Ret; [|by apply on_driver_run, clear_device_open].
    erewrite bind_Ret.
    2: { apply on_driver_run. apply getVal_unanswered; [done|done|].
         simpl. by rewrite Hq. }
    simpl. reflexivity.
Qed.

(** ** What an exchange hands over *)

Lemma index_Ret bs x i :
  index bs x = Ret i → 0 <= i ∧ bs !! Z.to_nat i = Some x.
Proof.
  revert i. induction bs as [|b bs IH]; intros i; simpl; [done|].
  destruct (b =? x) eqn:Eb.
  - intros [= <-]. apply Z.eqb_eq in Eb as ->. done.
  - destruct (index bs x) as [j| |]; try done. intros [= <-].
    destruct (IH j eq_refl) as [Hj Hl]. split; [lia|].
    replace (Z.to_nat (j + 1)) with (S (Z.to_nat j)) by lia. done.
Qed.

Lemma getitem_Ret {A} (xs : list A) i x :
  0 <= i → getitem xs i = Ret x → xs !! Z.to_nat i = Some x.
Proof.
  intros Hi. unfold getitem. replace (i <? 0) with false by (symmetry; lia).
  destruct (_ || _); [done|]. destruct (xs !! Z.to_nat i); [|done].
  by intros [= ->].
Qed.

Lemma returns_aligned bs :
  returns (por (let* b0 := @lift DL24M _ (getitem bs 0) in ret (negb (b0 =? 0xCA)))
               (let* b1 := lift (getitem bs 1) in ret (negb (b1 =? 0xCB))))
          (fun m => m = false → take 2 bs = [0xCA; 0xCB]).
Proof.
  intros s m s'. unfold por, bind, lift, ret.
  destruct (getitem bs 0) as [b0| |] eqn:E0; try done.
  destruct (negb (b0 =? 202)) eqn:N0; [by intros [= <- _]|].
  destruct (getitem bs 1) as [b1| |] eqn:E1; try done.
  intros [= <- _] N1.
  apply (getitem_Ret _ 0) in E0; [|done]. apply (getitem_Ret _ 1) in E1; [|done].
  destruct bs as [|a [|b t]]; try done. simpl in E0, E1.
  injection E0 as ->. injection E1 as ->.
  apply negb_false_iff, Z.eqb_eq in N0, N1. by subst.
Qed.

Lemma returns_resync_frame_framed fuel bytee :
  returns (resync_frame fuel bytee) framed.
Proof.
  eapply returns_bind; [apply returns_resync|]. intros b ->.
  eapply returns_bind; [apply returns_read_bytes|]. intros r Hr.
  apply returns_ret. split; [done|]. rewrite length_app. simpl in *. lia.
Qed.

Lemma writeFunction_returns_framed fuel c value :
  returns (writeFunction fuel c value) (fun r => ∀ bs, r = PBytes bs → framed bs).
Proof.
  unfold writeFunction.
  eapply returns_bind; [apply returns_True|]. intros frame _.
  apply returns_try_except; [|intros; by apply returns_ret].
  eapply returns_bind; [apply returns_True|]. intros _ _.
  destruct (16 <=? c); simpl; [|by apply returns_ret].
  eapply returns_bind; [apply returns_read_bytes|]. intros bs Hbs.
  change (Pos.to_nat 8) with 8%nat in Hbs. simpl in Hbs.
  eapply returns_bind; [apply returns_aligned|]. intros m Hm.
  eapply returns_bind with (P := framed).
  2: { intros br Hbr. apply returns_ret. by intros ? [= <-]. }
  destruct m; [|apply returns_ret; by split; [apply Hm|]].
  apply returns_try_except; [|intros _; apply returns_resync_frame_framed].
  eapply returns_bind; [apply returns_lift; intros idx Hidx; exact (index_Ret _ _ _ Hidx)|].
  intros idx [Hi Hl].
  destruct (idx + 1 <? 8).
  - eapply returns_bind.
    { apply returns_lift. intros nxt Hn.
      apply getitem_Ret in Hn; [exact Hn|lia]. }
    intros nxt Hn. simpl in Hn.
    destruct (nxt =? 203) eqn:En; [|apply returns_resync_frame_framed].
    apply Z.eqb_eq in En as ->.
    eapply returns_bind; [apply returns_read_bytes|]. intros more Hmore.
    apply returns_ret. unfold slice_from.
    replace (Z.to_nat (idx + 1)) with (S (Z.to_nat idx)) in Hn by lia.
    rewrite (drop_S _ _ _ Hl), (drop_S _ _ _ Hn). split; [done|].
    rewrite length_app. simpl. rewrite length_drop.
    unfold slice_from in Hmore. rewrite length_drop in Hmore.
    pose proof (lookup_lt_Some _ _ _ Hn). lia.
  - eapply returns_bind; [apply returns_True|]. intros b _.
    apply returns_resync_frame_framed.
Qed.

(** Whatever arrives on the link, the bytes an exchange returns start
    with the header 0xCA 0xCB and are at most eight: what comes before the
    header is never handed to the decode step. *)
Theorem exchange_returns_framed fuel c value s bs s' :
  writeFunction fuel c value s = (Ret (PBytes bs), s') → framed bs.
Proof. intros E. by eapply writeFunction_returns_framed. Qed.

Lemma update_val_unanswered fuel (key : string) c s :
  KEY_CMDS !! key = Some c →
  session_open (device s) = true →
  inbuf (device s) ++ reply (device s) (query c) = [] →
  update_val fuel key s = (Ret tt, with_inbuf (sent s (query c)) []).
Proof.
  intros Hk Ho Hi. unfold update_val, dict_get. rewrite Hk, bind_ret_l.
  pose proof (KEY_CMDS_values _ _ Hk) as Hc.
  by rewrite (bind_Ret _ _ _ _ _ (getVal_unanswered fuel c s Ho ltac:(lia) Hi)).
Qed.

Lemma update_vals_unanswered fuel keys :
  Forall (fun key => is_Some (KEY_CMDS !! key)) keys →
  ∀ s,
    session_open (device s) = true →
    inbuf (device s) = [] →
    (∀ c, reply (device s) (query c) = []) →
    ∃ s', update_vals fuel keys s = (Ret tt, s') ∧
          link_kept s s' ∧ data s' = data s ∧ inbuf (device s') = [] ∧
          written (device s') =
            written (device s) ++ omap (fun key => query <$> KEY_CMDS !! key) keys.
Proof.
  intros Hk. unfold update_vals.
  induction Hk as [|key keys [c Hc] _ IH]; intros s Ho Hi Hr; simpl.
  - exists s. by rewrite app_nil_r.
  - rewrite (bind_Ret _ _ _ _ _
               (update_val_unanswered fuel key c s Hc Ho
                  ltac:(by rewrite Hi, Hr))).
    destruct (IH (with_inbuf (sent s (query c)) []) Ho eq_refl Hr)
      as (s' & E & Hl & Hd & Hi' & Hw).
    exists s'. split; [done|]. split; [|split; [done|split; [done|]]].
    + destruct Hl. by split.
    + rewrite Hw, Hc. simpl. by rewrite <- app_assoc.
Qed.

Lemma omap_one {A B} (f : A → option B) x y : f x = Some y → omap f [x] = [y].
Proof. intros E. simpl. by rewrite E. Qed.

(** A poll cycle against an instrument that answers nothing: every query
    goes out, every read times out (or comes back empty), and the cycle
    returns the register values it had; no failure reaches the caller. *)
Theorem readAll_unanswered fuel read_all_aux s :
  session_open (device s) = true →
  0 <= aux_index s < 5 →
  (∀ c, reply (device s) (query c) = []) →
  ∃ s', readAll fuel read_all_aux s = (Ret (data s), s') ∧
        data s' = data s ∧
        written (device s') =
          written (device s) ++
          omap (fun key => query <$> KEY_CMDS !! key)
               (polled read_all_aux (aux_index s)).
Proof.
  intros Ho Hi Hr. unfold readAll.
  rewrite (bind_Ret _ _ _ _ _ (clear_device_open s Ho)).
  destruct (update_vals_unanswered fuel FREQ_VALS FREQ_VALS_readable
              (with_inbuf s []) Ho eq_refl Hr) as (s1 & E1 & L1 & D1 & I1 & W1).
  rewrite (bind_Ret _ _ _ _ _ E1).
  assert (Ho1 : session_open (device s1) = true)
    by (by rewrite (lk_session_open _ _ L1)).
  assert (Hr1 : ∀ c, reply (device s1) (query c) = [])
    by (intros c; rewrite (lk_reply _ _ L1); apply Hr).
  unfold polled. rewrite omap_app.
  destruct read_all_aux.
  - destruct (update_vals_unanswered fuel AUX_VALS AUX_VALS_readable s1 Ho1 I1 Hr1)
      as (s2 & E2 & L2 & D2 & I2 & W2).
    rewrite (bind_Ret _ _ _ _ _ E2).
    exists s2. simpl bind. unfold bind, get, ret.
    rewrite D2, D1. split; [done|]. split; [done|].
    by rewrite W2, W1, <- app_assoc.
  - assert (Hi1 : 0 <= aux_index s1 < 5) by (by rewrite (lk_aux_index _ _ L1)).
    assert (Ea : aux_index s1 = aux_index s) by (by rewrite (lk_aux_index _ _ L1)).
    rewrite bind_assoc, (bind_Ret _ _ _ _ _ (next_aux_spec s1 Hi1)), bind_assoc.
    erewrite bind_Ret; [|unfold lift; rewrite AUX_VALS_key_at by done; reflexivity].
    rewrite Ea.
    destruct (AUX_VALS_at ((aux_index s + 1) mod 5)) as (key & Eg & Ek).
    { apply Z.mod_pos_bound. lia. }
    rewrite AUX_VALS_key_at in Eg by done. injection Eg as <-.
    erewrite bind_Ret.
    2: { apply (update_val_unanswered fuel _ _ (set_aux_index s1 _) Ek Ho1).
         simpl. by rewrite I1, Hr1. }
    match goal with |- context [bind get _ ?st] =>
      exists st; assert (Hd : data st = data s) by exact D1 end.
    split; [|split; [exact Hd|]].
    + unfold bind, get, ret. cbv beta iota. by rewrite Hd.
    + change (written (device (with_inbuf (sent (set_aux_index s1 ?j) ?q) [])))
        with (written (device s1) ++ [q]).
      rewrite W1, <- app_assoc.
      by rewrite (omap_one (fun key => query <$> KEY_CMDS !! key)
                    (aux_key_at (aux_index s + 1))
                    (query (aux_code_at ((aux_index s + 1) mod 5)))
                    (f_equal (fmap query) Ek)).
Qed.

Lemma readAll_unanswered_witness :
  let self := __init__ (link [0x6F]) in
  ∃ s', readAll 3 false self = (Ret (data self), s') ∧
        data s' = data self ∧
        written (device s') =
          written (device self) ++
          omap (fun key => query <$> KEY_CMDS !! key)
               (polled false (aux_index self)).
Proof.
  intros self.
  apply (readAll_unanswered 3 false self); [reflexivity|by compute|reflexivity].
Defined.

Section Verified.
Context `{Instrument}.

(** A command whose write is acknowledged before the read-back arrives:
    whatever the instrument sends in front of the frame of the
    verification register, as long as it holds no 0xCA, is skipped; when
    the frame reads as the requested value, the first attempt is the only
    one, [command] returns [None], and the register holds the value read. *)
Theorem command_verifies_through_ack fuel cmd value code key vcode
    s x s1 ack b3 b4 b5 rest seen :
  COMMANDS !! cmd = Some code →
  VERIFY_CMD !! cmd = Some key →
  KEY_CMDS !! key = Some vcode →
  cmd ≠ COMMAND_RESET →
  setVal fuel code value s = (Ret x, s1) →
  session_open (device s1) = true →
  inbuf (device s1) ++ reply (device s1) (query vcode)
    = ack ++ response vcode b3 b4 b5 ++ rest →
  0xCA ∉ ack →
  (length ack + 3 <= fuel)%nat →
  reading vcode b3 b4 b5 = Ret seen →
  py_eq seen value = true →
  command fuel cmd value s
  = (Ret PNone,
     set_data (with_inbuf (sent s1 (query vcode)) rest) (<[key := seen]> (data s1))).
Proof.
  intros Hc Hv Hk Hn Hs Ho Hi Ha Hf Hr He.
  pose proof (KEY_CMDS_values _ _ Hk) as Hvc.
  unfold command.
  rewrite bool_decide_eq_true_2 by (apply elem_of_dom; eauto). cbn [negb].
  rewrite (bind_Ret _ _ _ _ _
             (command_loop_stops fuel 0 [1; 2] cmd value code key vcode s x s1 seen
                (with_inbuf (sent s1 (query vcode)) rest) Hc Hv Hk Hs
                (eq_trans (getVal_reads fuel vcode s1 ack b3 b4 b5 rest Ho
                             ltac:(lia) Hi Ha Hf)
                          (f_equal (fun o => (o, _)) Hr))
                (reading_not_False _ _ _ _ _ Hr) He)).
  by rewrite bool_decide_eq_false_2.
Qed.

End Verified.

Lemma command_verifies_through_ack_witness :
  let self := __init__ (acknowledging (fun _ => (0, 0x04, 0xD2))) in
  let frame := [0xB1; 0xB2; SETVCUT; 12; 34; 0xB6] in
  @command bench_instrument 4 "set_voltage" (PFloat (centi 1234)) self
  = (Ret PNone,
     set_data (with_inbuf (sent (sent self frame) (query LIM_VOLT)) [])
       (<["set_voltage"%string := PFloat (centi 1234)]> (data self))).
Proof.
  intros self frame.
  refine (@command_verifies_through_ack bench_instrument 4 "set_voltage"
            (PFloat (centi 1234)) SETVCUT "set_voltage" LIM_VOLT
            self (PBool true) (sent self frame) [0x6F] 0 0x04 0xD2 []
            (PFloat (centi 1234)) _ _ _ _ _ _ _ _ _ _ _).
  - reflexivity.
  - reflexivity.
  - reflexivity.
  - discriminate.
  - apply (setVal_centi 4 SETVCUT 1234 self); by compute.
  - reflexivity.
  - reflexivity.
  - by intros [?|[]%elem_of_nil]%elem_of_cons.
  - simpl. lia.
  - reflexivity.
  - reflexivity.
Defined.

(** ** The theorems at work *)

Lemma exchange_skips_garbage_witness :
  let self := __init__ (link ([0x6F] ++ response VOLTAGE 0 3 0xE8 ++ [0xAA])) in
  writeFunction 4 VOLTAGE [0; 0] self
  = (Ret (PBytes ([0xCA; 0xCB] ++ [VOLTAGE; 0; 3; 0xE8; 0xCE; 0xCF])),
     with_inbuf (sent self (outbound VOLTAGE [0; 0])) [0xAA]).
Proof.
  intros self.
  apply (exchange_skips_garbage 4 VOLTAGE [0; 0] self [0x6F]
           [VOLTAGE; 0; 3; 0xE8; 0xCE; 0xCF] [0xAA]).
  - reflexivity.
  - reflexivity.
  - by compute.
  - reflexivity.
  - by intros [?|[]%elem_of_nil]%elem_of_cons.
  - reflexivity.
  - simpl. lia.
Defined.

Lemma writeFunction_resynchronises_witness :
  let stream := [0xCA; 0x00] ++ response VOLTAGE 0 3 0xE8 ++ [0x6F] in
  let self := __init__ (link (replicate 8 0x00 ++ stream)) in
  writeFunction 14 VOLTAGE [0; 0] self
  = (Ret (PBytes ([0xCA; 0xCB] ++ [VOLTAGE; 0; 3; 0xE8; 0xCE; 0xCF])),
     with_inbuf (sent self (outbound VOLTAGE [0; 0])) [0x6F]).
Proof.
  intros stream self.
  apply (writeFunction_resynchronises 14 VOLTAGE [0; 0] self (replicate 8 0x00)
           stream [VOLTAGE; 0; 3; 0xE8; 0xCE; 0xCF] [0x6F]).
  - reflexivity.
  - reflexivity.
  - by compute.
  - reflexivity.
  - reflexivity.
  - intros Hin. apply elem_of_replicate in Hin as [Hin _]. discriminate.
  - apply scannable_stray; [discriminate..|]. apply scannable_header.
  - reflexivity.
  - simpl. lia.
Defined.

Lemma writeFunction_terminates_witness :
  (writeFunction 3 VOLTAGE [0; 0] (__init__ (link [0xCA]))).1 ≠ Diverge.
Proof.
  apply (writeFunction_terminates 3 VOLTAGE [0; 0] (__init__ (link [0xCA]))).
  - reflexivity.
  - simpl. lia.
Defined.

Lemma exchange_returns_framed_witness :
  let self := __init__ (link ([0x6F] ++ response VOLTAGE 0 3 0xE8)) in
  (writeFunction 4 VOLTAGE [0; 0] self).1 = Ret (PBytes (response VOLTAGE 0 3 0xE8)) ∧
  framed (response VOLTAGE 0 3 0xE8).
Proof.
  intros self.
  assert (E : (writeFunction 4 VOLTAGE [0; 0] self).1
              = Ret (PBytes (response VOLTAGE 0 3 0xE8)))
    by (vm_compute; reflexivity).
  split; [exact E|].
  exact (exchange_returns_framed 4 VOLTAGE [0; 0] self _ _
           (run_eta (writeFunction 4 VOLTAGE [0; 0]) self _ E)).
Defined.

Lemma readAll_reports_witness :
  let self := __init__ (reporting (fun _ => (0, 0, 1))) in
  let vals := fun key : string =>
    match KEY_CMDS !! key with
    | Some c => match reading c 0 0 1 with Ret v => v | _ => PNone end
    | None => PNone
    end in
  ∃ s', readAll 3 true self = (Ret (data s'), s') ∧
        (∀ key, data s' !! key
                = if bool_decide (key ∈ polled true (aux_index self))
                  then Some (vals key) else data self !! key) ∧
        inbuf (device s') = [] ∧
        aux_index s' = aux_index self.
Proof.
  intros self vals.
  apply (readAll_reports 3 true self vals); [lia|reflexivity|by compute|].
  intros key Hin.
  repeat (apply elem_of_cons in Hin as [->|Hin];
          [eexists; split; [reflexivity|]; exists 0, 0, 1; split; reflexivity|]).
  by apply elem_of_nil in Hin.
Defined.

Lemma probe_answers_witness :
  let p := {| driver := __init__ (reporting (fun _ => (0, 3, 0xE8)));
              port := None |} in
  let line := set_device (driver p) (set_settings (device (driver p)) configured) in
  probe 3 {| is_serial := true; resource_name := "ASRL3::INSTR" |} p
  = (Ret (PBool true),
     {| driver := with_inbuf (sent line (query VOLTAGE)) [];
        port := Some "3"%string |}).
Proof.
  intros p line.
  refine (proj1 (proj2 (probe_answers 3
            {| is_serial := true; resource_name := "ASRL3::INSTR" |} p _ _))
            eq_refl (PFloat 1) _); [lia|reflexivity|].
  exists 0, 3, 0xE8. split; reflexivity.
Defined.

(** ** Worked examples

    The cases listed in section 8 of the specification, run on the model. *)

#[local] Set Warnings "-inexact-float".

(** A set-voltage request of 12.34 goes out with payload [12, 34]. *)
Example encode_12_34 :
  written (device (setVal 10 SETVCUT (PFloat 12.34) (__init__ (link []))).2)
  = [[0xB1; 0xB2; 0x03; 12; 34; 0xB6]].
Proof. vm_compute. reflexivity. Qed.

(** A timer of 1:02:03 goes out as 3723 seconds, big-endian. *)
Example encode_timer :
  written (device (setVal 10 SETTMR (PTime 1 2 3) (__init__ (link []))).2)
  = [[0xB1; 0xB2; 0x04; 0x0E; 0x8B; 0xB6]].
Proof. vm_compute. reflexivity. Qed.

(** Switching the output on sends 01 00, switching it off 00 00. *)
Example encode_output :
  written (device (setVal 10 OUTPUT_ON (PInt ENABLED) (__init__ (link []))).2)
    = [[0xB1; 0xB2; 0x01; 0x01; 0x00; 0xB6]] ∧
  written (device (setVal 10 OUTPUT_ON (PInt DISABLED) (__init__ (link []))).2)
    = [[0xB1; 0xB2; 0x01; 0x00; 0x00; 0xB6]].
Proof. vm_compute. by split. Qed.

(** The elapsed-time frame 01 02 03 decodes to 1 h 2 min 3 s. *)
Example decode_elapsed_time :
  (getVal 10 TIME
     (__init__ (link [0xCA; 0xCB; 0x13; 0x01; 0x02; 0x03; 0xCE; 0xCF]))).1
  = Ret (PTime 1 2 3).
Proof. vm_compute. reflexivity. Qed.

(** The voltage frame 00 03 E8 decodes to 1.0 through the whole read path. *)
Example decode_voltage :
  (getVal 10 VOLTAGE
     (__init__ (link [0xCA; 0xCB; 0x11; 0x00; 0x03; 0xE8; 0xCE; 0xCF]))).1
  = Ret (PFloat 1).
Proof. vm_compute. reflexivity. Qed.

(** An elapsed time of 25 hours is a well-formed frame, but [time(25, 0, 0)]
    raises: the exception leaves [getVal] and the poll cycle with it. *)
Example decode_long_elapsed_time :
  (getVal 10 TIME
     (__init__ (link [0xCA; 0xCB; 0x13; 0x19; 0x00; 0x00; 0xCE; 0xCF]))).1
  = Raise ValueError.
Proof. vm_compute. reflexivity. Qed.

(** A lone acknowledgment byte on a link with short reads: the exchange
    reports [False], and so does [getVal]. *)
Example ack_only :
  (writeFunction 10 VOLTAGE [0; 0] (__init__ (short_link [0x6F]))).1
    = Ret (PBool false) ∧
  (getVal 10 VOLTAGE (__init__ (short_link [0x6F]))).1 = Ret (PBool false).
Proof. vm_compute. by split. Qed.

(** A frame shifted by three bytes of another message is recovered from the
    first read, and a stray sync byte in the bytes that follow a first read
    without one is skipped. *)
Example shifted_frame :
  (getVal 10 VOLTAGE
     (__init__ (link [0x01; 0x02; 0x03;
                      0xCA; 0xCB; 0x11; 0x00; 0x03; 0xE8; 0xCE; 0xCF]))).1
    = Ret (PFloat 1) ∧
  (getVal 30 VOLTAGE
     (__init__ (link [0x01; 0x02; 0x03; 0x04; 0x05; 0x06; 0x07; 0x08;
                      0xCA; 0x09;
                      0xCA; 0xCB; 0x11; 0x00; 0x03; 0xE8; 0xCE; 0xCF]))).1
    = Ret (PFloat 1).
Proof. vm_compute. by split. Qed.

(** With [enable] verified on the second read-back, two set frames go out
    and the third frame of the stream is left unread. *)
Example enable_second_attempt :
  let self' :=
    (@command bench_instrument 10 "enable" (PBool true)
       (__init__ (link [0xCA; 0xCB; 0x10; 0; 0; 0; 0xCE; 0xCF;
                        0xCA; 0xCB; 0x10; 0; 0; 1; 0xCE; 0xCF;
                        0xCA; 0xCB; 0x10; 0; 0; 1; 0xCE; 0xCF]))).2 in
  sets_issued self' = 2%nat ∧
  inbuf (device self') = [0xCA; 0xCB; 0x10; 0; 0; 1; 0xCE; 0xCF].
Proof. vm_compute. by split. Qed.
